(** * sntp_packet: the SNTP packet codec and the clock-offset formula

    A shallow embedding of [sntp_packet.py] (class [SNTP_Packet]).

    - Python integers are unbounded: they are [Z].
    - [bytes] objects are [list byte].
    - Python floats are IEEE 754 binary64 values: they are [spec_float]
      with the operations of [SpecFloat] at [prec = 53], [emax = 1024].
    - Exceptions are an explicit [result] monad. *)

From Stdlib Require Import ZArith List Lia Bool Ascii String.
From Stdlib Require Import Strings.Byte.
From Stdlib Require Import QArith Qround Qabs Qpower Lqa.
From Stdlib Require Import Floats.SpecFloat.
Import ListNotations.

Local Open Scope Z_scope.

(** ** Exceptions *)

Inductive exn : Type :=
| struct_error      (* struct.error *)
| IndexError
| ValueError         (* int(nan) *)
| OverflowError      (* int(inf), or an int too large for a float *)
| ZeroDivisionError.

Inductive result (A : Type) : Type :=
| Ok (a : A)
| Raise (e : exn).

Arguments Ok {A} a.
Arguments Raise {A} e.

Definition bind {A B : Type} (r : result A) (k : A -> result B) : result B :=
  match r with
  | Ok a => k a
  | Raise e => Raise e
  end.

Declare Scope py_scope.
Delimit Scope py_scope with py.
Notation "x <- r ;; k" := (bind r (fun x => k))
  (at level 61, r at next level, right associativity) : py_scope.
Notation "' pat <- r ;; k" := (bind r (fun x => let pat := x in k))
  (at level 61, pat pattern, r at next level, right associativity) : py_scope.
Local Open Scope py_scope.

(** [t[i]] on a tuple or list. *)
Definition getitem {A : Type} (t : list A) (i : nat) : result A :=
  match nth_error t i with
  | Some a => Ok a
  | None => Raise IndexError
  end.

(** ** The part of the [struct] module that the packet uses

    Format strings start with [>] (big-endian, standard sizes, no
    padding) and continue with the codes [B] (unsigned char, 1 byte) and
    [I] (unsigned int, 4 bytes).  Any other format is refused here. *)

Module Struct.

Inductive code : Type := code_B | code_I.

Definition code_size (c : code) : nat :=
  match c with
  | code_B => 1
  | code_I => 4
  end.

(** The values a code can pack: [0 <= v <= 2^(8*size) - 1]. *)
Definition code_max (c : code) : Z := 2 ^ (8 * Z.of_nat (code_size c)).

Definition in_range (c : code) (v : Z) : bool :=
  (0 <=? v) && (v <? code_max c).

Definition parse_code (c : ascii) : option code :=
  match c with
  | "B"%char => Some code_B
  | "I"%char => Some code_I
  | _ => None
  end.

Fixpoint parse_codes (s : string) : option (list code) :=
  match s with
  | EmptyString => Some []
  | String c rest =>
      match parse_code c, parse_codes rest with
      | Some k, Some ks => Some (k :: ks)
      | _, _ => None
      end
  end.

Definition parse_format (fmt : string) : option (list code) :=
  match fmt with
  | String ">"%char rest => parse_codes rest
  | _ => None
  end.

Fixpoint calcsize (cs : list code) : nat :=
  match cs with
  | [] => 0
  | c :: cs' => code_size c + calcsize cs'
  end.

Definition byte_of_Z (z : Z) : byte :=
  match Byte.of_N (Z.to_N z) with
  | Some b => b
  | None => x00
  end.

Definition Z_of_byte (b : byte) : Z := Z.of_N (Byte.to_N b).

(** The [n] low-order bytes of [v], most significant first. *)
Fixpoint be_bytes (n : nat) (v : Z) : list byte :=
  match n with
  | O => []
  | S k => byte_of_Z (Z.land (Z.shiftr v (8 * Z.of_nat k)) 255) :: be_bytes k v
  end.

(** The unsigned big-endian value of a byte string. *)
Fixpoint be_value (acc : Z) (bs : list byte) : Z :=
  match bs with
  | [] => acc
  | b :: bs' => be_value (Z.lor (Z.shiftl acc 8) (Z_of_byte b)) bs'
  end.

Fixpoint pack_codes (cs : list code) (vs : list Z) : result (list byte) :=
  match cs, vs with
  | [], [] => Ok []
  | c :: cs', v :: vs' =>
      if in_range c v then
        rest <- pack_codes cs' vs' ;;
        Ok (be_bytes (code_size c) v ++ rest)
      else Raise struct_error          (* "... format requires 0 <= number <= ..." *)
  | _, _ => Raise struct_error         (* "pack expected n items for packing" *)
  end.

Fixpoint unpack_codes (cs : list code) (buff : list byte) : list Z :=
  match cs with
  | [] => []
  | c :: cs' =>
      be_value 0 (firstn (code_size c) buff)
        :: unpack_codes cs' (skipn (code_size c) buff)
  end.

(** [struct.pack(fmt, *vs)] *)
Definition pack (fmt : string) (vs : list Z) : result (list byte) :=
  match parse_format fmt with
  | Some cs => pack_codes cs vs
  | None => Raise struct_error
  end.

(** [struct.unpack(fmt, buff)]: the buffer must have exactly the size
    of the format. *)
Definition unpack (fmt : string) (buff : list byte) : result (list Z) :=
  match parse_format fmt with
  | Some cs =>
      if Nat.eqb (List.length buff) (calcsize cs)
      then Ok (unpack_codes cs buff)
      else Raise struct_error          (* "unpack requires a buffer of n bytes" *)
  | None => Raise struct_error
  end.

End Struct.

(** ** The packet *)

Record SNTP_Packet : Type := {
  li : Z;
  vn : Z;
  mode : Z;
  stratum : Z;
  poll : Z;
  precision : Z;
  root_delay : Z;
  root_dispersion : Z;
  reference_identifier : Z;
  reference_timestamp : Z * Z;
  originate_timestamp : Z * Z;
  receive_timestamp : Z * Z;
  transmit_timestamp : Z * Z
}.

(** [__init__]: the data attributes. *)
Definition init : SNTP_Packet := {|
  li := 0; vn := 0; mode := 0; stratum := 0; poll := 0; precision := 0;
  root_delay := 0; root_dispersion := 0; reference_identifier := 0;
  reference_timestamp := (0, 0); originate_timestamp := (0, 0);
  receive_timestamp := (0, 0); transmit_timestamp := (0, 0)
|}.

(** [__init__]: the format attributes.  No method assigns them, so they
    are constants of the class here. *)
Definition li_vn_mode_format : string := "B".
Definition stratum_format : string := "B".
Definition poll_format : string := "B".
Definition precision_format : string := "B".
Definition root_delay_format : string := "I".
Definition root_dispersion_format : string := "I".
Definition reference_identifier_format : string := "I".
Definition reference_timestamp_format : string := "II".
Definition originate_timestamp_format : string := "II".
Definition receive_timestamp_format : string := "II".
Definition transmit_timestamp_format : string := "II".

(** Attribute assignment [self.f = v]. *)
Definition set_li (p : SNTP_Packet) (v : Z) : SNTP_Packet :=
  {| li := v; vn := vn p; mode := mode p; stratum := stratum p; poll := poll p;
     precision := precision p; root_delay := root_delay p;
     root_dispersion := root_dispersion p;
     reference_identifier := reference_identifier p;
     reference_timestamp := reference_timestamp p;
     originate_timestamp := originate_timestamp p;
     receive_timestamp := receive_timestamp p;
     transmit_timestamp := transmit_timestamp p |}.
Definition set_vn (p : SNTP_Packet) (v : Z) : SNTP_Packet :=
  {| li := li p; vn := v; mode := mode p; stratum := stratum p; poll := poll p;
     precision := precision p; root_delay := root_delay p;
     root_dispersion := root_dispersion p;
     reference_identifier := reference_identifier p;
     reference_timestamp := reference_timestamp p;
     originate_timestamp := originate_timestamp p;
     receive_timestamp := receive_timestamp p;
     transmit_timestamp := transmit_timestamp p |}.
Definition set_mode (p : SNTP_Packet) (v : Z) : SNTP_Packet :=
  {| li := li p; vn := vn p; mode := v; stratum := stratum p; poll := poll p;
     precision := precision p; root_delay := root_delay p;
     root_dispersion := root_dispersion p;
     reference_identifier := reference_identifier p;
     reference_timestamp := reference_timestamp p;
     originate_timestamp := originate_timestamp p;
     receive_timestamp := receive_timestamp p;
     transmit_timestamp := transmit_timestamp p |}.
Definition set_stratum (p : SNTP_Packet) (v : Z) : SNTP_Packet :=
  {| li := li p; vn := vn p; mode := mode p; stratum := v; poll := poll p;
     precision := precision p; root_delay := root_delay p;
     root_dispersion := root_dispersion p;
     reference_identifier := reference_identifier p;
     reference_timestamp := reference_timestamp p;
     originate_timestamp := originate_timestamp p;
     receive_timestamp := receive_timestamp p;
     transmit_timestamp := transmit_timestamp p |}.
Definition set_poll (p : SNTP_Packet) (v : Z) : SNTP_Packet :=
  {| li := li p; vn := vn p; mode := mode p; stratum := stratum p; poll := v;
     precision := precision p; root_delay := root_delay p;
     root_dispersion := root_dispersion p;
     reference_identifier := reference_identifier p;
     reference_timestamp := reference_timestamp p;
     originate_timestamp := originate_timestamp p;
     receive_timestamp := receive_timestamp p;
     transmit_timestamp := transmit_timestamp p |}.
Definition set_precision (p : SNTP_Packet) (v : Z) : SNTP_Packet :=
  {| li := li p; vn := vn p; mode := mode p; stratum := stratum p; poll := poll p;
     precision := v; root_delay := root_delay p;
     root_dispersion := root_dispersion p;
     reference_identifier := reference_identifier p;
     reference_timestamp := reference_timestamp p;
     originate_timestamp := originate_timestamp p;
     receive_timestamp := receive_timestamp p;
     transmit_timestamp := transmit_timestamp p |}.
Definition set_root_delay (p : SNTP_Packet) (v : Z) : SNTP_Packet :=
  {| li := li p; vn := vn p; mode := mode p; stratum := stratum p; poll := poll p;
     precision := precision p; root_delay := v;
     root_dispersion := root_dispersion p;
     reference_identifier := reference_identifier p;
     reference_timestamp := reference_timestamp p;
     originate_timestamp := originate_timestamp p;
     receive_timestamp := receive_timestamp p;
     transmit_timestamp := transmit_timestamp p |}.
Definition set_root_dispersion (p : SNTP_Packet) (v : Z) : SNTP_Packet :=
  {| li := li p; vn := vn p; mode := mode p; stratum := stratum p; poll := poll p;
     precision := precision p; root_delay := root_delay p;
     root_dispersion := v;
     reference_identifier := reference_identifier p;
     reference_timestamp := reference_timestamp p;
     originate_timestamp := originate_timestamp p;
     receive_timestamp := receive_timestamp p;
     transmit_timestamp := transmit_timestamp p |}.
Definition set_reference_identifier (p : SNTP_Packet) (v : Z) : SNTP_Packet :=
  {| li := li p; vn := vn p; mode := mode p; stratum := stratum p; poll := poll p;
     precision := precision p; root_delay := root_delay p;
     root_dispersion := root_dispersion p;
     reference_identifier := v;
     reference_timestamp := reference_timestamp p;
     originate_timestamp := originate_timestamp p;
     receive_timestamp := receive_timestamp p;
     transmit_timestamp := transmit_timestamp p |}.
Definition set_reference_timestamp (p : SNTP_Packet) (v : Z * Z) : SNTP_Packet :=
  {| li := li p; vn := vn p; mode := mode p; stratum := stratum p; poll := poll p;
     precision := precision p; root_delay := root_delay p;
     root_dispersion := root_dispersion p;
     reference_identifier := reference_identifier p;
     reference_timestamp := v;
     originate_timestamp := originate_timestamp p;
     receive_timestamp := receive_timestamp p;
     transmit_timestamp := transmit_timestamp p |}.
Definition set_originate_timestamp (p : SNTP_Packet) (v : Z * Z) : SNTP_Packet :=
  {| li := li p; vn := vn p; mode := mode p; stratum := stratum p; poll := poll p;
     precision := precision p; root_delay := root_delay p;
     root_dispersion := root_dispersion p;
     reference_identifier := reference_identifier p;
     reference_timestamp := reference_timestamp p;
     originate_timestamp := v;
     receive_timestamp := receive_timestamp p;
     transmit_timestamp := transmit_timestamp p |}.
Definition set_receive_timestamp (p : SNTP_Packet) (v : Z * Z) : SNTP_Packet :=
  {| li := li p; vn := vn p; mode := mode p; stratum := stratum p; poll := poll p;
     precision := precision p; root_delay := root_delay p;
     root_dispersion := root_dispersion p;
     reference_identifier := reference_identifier p;
     reference_timestamp := reference_timestamp p;
     originate_timestamp := originate_timestamp p;
     receive_timestamp := v;
     transmit_timestamp := transmit_timestamp p |}.
Definition set_transmit_timestamp (p : SNTP_Packet) (v : Z * Z) : SNTP_Packet :=
  {| li := li p; vn := vn p; mode := mode p; stratum := stratum p; poll := poll p;
     precision := precision p; root_delay := root_delay p;
     root_dispersion := root_dispersion p;
     reference_identifier := reference_identifier p;
     reference_timestamp := reference_timestamp p;
     originate_timestamp := originate_timestamp p;
     receive_timestamp := receive_timestamp p;
     transmit_timestamp := v |}.

(** ** Methods of the codec *)

(** [(self.li << 6) + (self.vn << 3) + self.mode] *)
Definition encode_li_vn_mode (self : SNTP_Packet) : Z :=
  Z.shiftl (li self) 6 + Z.shiftl (vn self) 3 + mode self.

Definition decode_li_vn_mode (val : Z) : Z * Z * Z :=
  let li_mask := 192 (* 0b11000000 *) in
  let vn_mask := 56 (* 0b00111000 *) in
  let mode_mask := 7 (* 0b00000111 *) in
  let li := Z.shiftr (Z.land val li_mask) 6 in
  let vn := Z.shiftr (Z.land val vn_mask) 3 in
  let mode := Z.land val mode_mask in
  (li, vn, mode).

Definition get_packet_format : string :=
  String.concat "" [
    ">";
    li_vn_mode_format;
    stratum_format;
    poll_format;
    precision_format;
    root_delay_format;
    root_dispersion_format;
    reference_identifier_format;
    reference_timestamp_format;
    originate_timestamp_format;
    receive_timestamp_format;
    transmit_timestamp_format
  ]%string.

(** [*t] for a 2-tuple. *)
Definition splat (t : Z * Z) : list Z := [fst t; snd t].

Definition get_packet_value (self : SNTP_Packet) : list Z :=
  [ encode_li_vn_mode self;
    stratum self;
    poll self;
    precision self;
    root_delay self;
    root_dispersion self;
    reference_identifier self ]
  ++ splat (reference_timestamp self)
  ++ splat (originate_timestamp self)
  ++ splat (receive_timestamp self)
  ++ splat (transmit_timestamp self).

Definition to_bytes (self : SNTP_Packet) : result (list byte) :=
  Struct.pack get_packet_format (get_packet_value self).

Definition from_bytes (self : SNTP_Packet) (buff : list byte) : result SNTP_Packet :=
  fields <- Struct.unpack get_packet_format buff ;;
  f0 <- getitem fields 0 ;;
  let '(li, vn, mode) := decode_li_vn_mode f0 in
  let self := set_li self li in
  let self := set_vn self vn in
  let self := set_mode self mode in
  f1 <- getitem fields 1 ;;
  let self := set_stratum self f1 in
  f2 <- getitem fields 2 ;;
  let self := set_poll self f2 in
  f3 <- getitem fields 3 ;;
  let self := set_precision self f3 in
  f4 <- getitem fields 4 ;;
  let self := set_root_delay self f4 in
  f5 <- getitem fields 5 ;;
  let self := set_root_dispersion self f5 in
  f6 <- getitem fields 6 ;;
  let self := set_reference_identifier self f6 in
  f7 <- getitem fields 7 ;;
  f8 <- getitem fields 8 ;;
  let self := set_reference_timestamp self (f7, f8) in
  f9 <- getitem fields 9 ;;
  f10 <- getitem fields 10 ;;
  let self := set_originate_timestamp self (f9, f10) in
  f11 <- getitem fields 11 ;;
  f12 <- getitem fields 12 ;;
  let self := set_receive_timestamp self (f11, f12) in
  f13 <- getitem fields 13 ;;
  f14 <- getitem fields 14 ;;
  let self := set_transmit_timestamp self (f13, f14) in
  Ok self.


(** ** Python floats

    A Python [float] is an IEEE 754 binary64 number; arithmetic rounds
    to nearest, ties to even.  [SpecFloat] gives exactly these
    operations once the precision and the exponent bound are fixed. *)

Definition prec : Z := 53.
Definition emax : Z := 1024.

Definition float : Type := spec_float.

Definition float_add : float -> float -> float := SFadd prec emax.
Definition float_sub : float -> float -> float := SFsub prec emax.
Definition float_mul : float -> float -> float := SFmul prec emax.
Definition float_div : float -> float -> float := SFdiv prec emax.

(** The floats a Python program can hold: canonical mantissa and
    exponent in range (infinities and NaN included). *)
Definition is_float64 (f : float) : bool := valid_binary prec emax f.

Definition is_finite (f : float) : bool :=
  match f with
  | S754_zero _ | S754_finite _ _ _ => true
  | S754_infinity _ | S754_nan => false
  end.

(** The conversion of an [int] operand in mixed arithmetic
    ([PyLong_AsDouble]): correctly rounded, [OverflowError] when the
    magnitude exceeds the largest float. *)
Definition float_of_int (z : Z) : result float :=
  match binary_normalize prec emax z 0 false with
  | S754_infinity _ => Raise OverflowError
  | f => Ok f
  end.

(** [int(f)]: truncation toward zero. *)
Definition int_of_float (f : float) : result Z :=
  match f with
  | S754_nan => Raise ValueError
  | S754_infinity _ => Raise OverflowError
  | S754_zero _ => Ok 0
  | S754_finite s m e => Ok (cond_Zopp s (Z.shiftl (Zpos m) e))
  end.

(** [a / b] on two [int]s.  For operands below [2^53] in magnitude, as
    every difference of two 32-bit fields is, CPython converts both
    exactly and divides the floats; that is what is written here.  For
    larger operands CPython rounds the exact quotient instead, so the
    results on the quotient below are stated for 32-bit fields, or do
    not depend on how it is computed. *)
Definition int_truediv (a b : Z) : result float :=
  if b =? 0 then Raise ZeroDivisionError
  else
    x <- float_of_int a ;;
    y <- float_of_int b ;;
    Ok (float_div x y).

(** The rational number a finite float stands for ([0] for the others). *)
Definition F2Q (m e : Z) : Q := (inject_Z m * 2 ^ e)%Q.

Definition SF2Q (f : float) : Q :=
  match f with
  | S754_finite s m e => F2Q (cond_Zopp s (Zpos m)) e
  | _ => 0%Q
  end.

(** ** The NTP epoch

    [datetime.datetime(1900, 1, 1, tzinfo=utc).timestamp()] is
    [(self - EPOCH).total_seconds()] with [EPOCH] the first of January
    1970: a whole number of days, so a whole number of seconds. *)

(** Days before January 1st of [year] in the proleptic Gregorian
    calendar ([datetime._days_before_year]). *)
Definition days_before_year (year : Z) : Z :=
  let y := year - 1 in
  y * 365 + y / 4 - y / 100 + y / 400.

(** [date(year, 1, 1).toordinal()] *)
Definition ordinal_jan1 (year : Z) : Z := days_before_year year + 1.

Definition epoch_delta_seconds : Z :=
  (ordinal_jan1 1900 - ordinal_jan1 1970) * 86400.

Definition get_ntp_timestamp_offset : float :=
  binary_normalize prec emax epoch_delta_seconds 0 false.

(** ** Timestamp conversion and the offset formula *)

Definition encode_ntp_timestamp (timestamp : float) : result (Z * Z) :=
  let ntp_timestamp := float_sub timestamp get_ntp_timestamp_offset in
  second <- int_of_float ntp_timestamp ;;
  (* convert the fractional second to an integer *)
  second_f <- float_of_int second ;;
  two32 <- float_of_int (2 ^ 32) ;;
  fraction_second <-
    int_of_float (float_mul (float_sub ntp_timestamp second_f) two32) ;;
  Ok (second, fraction_second).

Definition decode_ntp_timestamp (seconds fraction_seconds : Z) : result float :=
  fraction_seconds <- int_truediv fraction_seconds (2 ^ 32) ;;
  seconds_f <- float_of_int seconds ;;
  let ntp_timestamp := float_add seconds_f fraction_seconds in
  let timestamp := float_add ntp_timestamp get_ntp_timestamp_offset in
  Ok timestamp.

(** [client_packet], with the reading of the clock
    ([datetime.now(tz=utc).timestamp()]) as the parameter [now]. *)
Definition client_packet (now : float) : result SNTP_Packet :=
  let packet := init in
  let packet := set_li packet 0 in
  (* using sntp version 4 *)
  let packet := set_vn packet 4 in
  (* mode 3 indicates this is a client packet *)
  let packet := set_mode packet 3 in
  let curr_time := now in
  ts <- encode_ntp_timestamp curr_time ;;
  let packet := set_transmit_timestamp packet ts in
  Ok packet.

Definition compute_offset
    (client_transmission_time client_reception_time
     server_transmission_time server_reception_time : Z * Z) : result float :=
  let theta_1_second :=
    fst server_reception_time - fst client_transmission_time in
  theta_1_fraction <-
    int_truediv (snd server_reception_time - snd client_transmission_time) (2 ^ 32) ;;
  let theta_2_second :=
    fst server_transmission_time - fst client_reception_time in
  theta_2_fraction <-
    int_truediv (snd server_transmission_time - snd client_reception_time) (2 ^ 32) ;;
  theta_1_second_f <- float_of_int theta_1_second ;;
  let acc := float_add theta_1_second_f theta_1_fraction in
  theta_2_second_f <- float_of_int theta_2_second ;;
  let acc := float_add acc theta_2_second_f in
  let acc := float_add acc theta_2_fraction in
  two <- float_of_int 2 ;;
  Ok (float_div acc two).

(** ** Ranges of the data model *)

(** [v] is an unsigned [n]-bit number. *)
Definition in_bits (n v : Z) : bool := (0 <=? v) && (v <? 2 ^ n).

Definition timestamp_in_range (t : Z * Z) : bool :=
  in_bits 32 (fst t) && in_bits 32 (snd t).

(** The ranges the data model declares, with [precision] a signed byte. *)
Definition declared_ranges (p : SNTP_Packet) : bool :=
  in_bits 2 (li p) && in_bits 3 (vn p) && in_bits 3 (mode p)
  && in_bits 8 (stratum p) && in_bits 8 (poll p)
  && ((-128 <=? precision p) && (precision p <=? 127))
  && in_bits 32 (root_delay p) && in_bits 32 (root_dispersion p)
  && in_bits 32 (reference_identifier p)
  && timestamp_in_range (reference_timestamp p)
  && timestamp_in_range (originate_timestamp p)
  && timestamp_in_range (receive_timestamp p)
  && timestamp_in_range (transmit_timestamp p).

(** The same ranges with [precision] an unsigned byte, as [precision_format]
    has it. *)
Definition wire_ranges (p : SNTP_Packet) : bool :=
  in_bits 2 (li p) && in_bits 3 (vn p) && in_bits 3 (mode p)
  && in_bits 8 (stratum p) && in_bits 8 (poll p)
  && in_bits 8 (precision p)
  && in_bits 32 (root_delay p) && in_bits 32 (root_dispersion p)
  && in_bits 32 (reference_identifier p)
  && timestamp_in_range (reference_timestamp p)
  && timestamp_in_range (originate_timestamp p)
  && timestamp_in_range (receive_timestamp p)
  && timestamp_in_range (transmit_timestamp p).

(** What [struct.pack] checks: each packed value against its format code. *)
Definition packable (p : SNTP_Packet) : bool :=
  in_bits 8 (encode_li_vn_mode p)
  && in_bits 8 (stratum p) && in_bits 8 (poll p) && in_bits 8 (precision p)
  && in_bits 32 (root_delay p) && in_bits 32 (root_dispersion p)
  && in_bits 32 (reference_identifier p)
  && timestamp_in_range (reference_timestamp p)
  && timestamp_in_range (originate_timestamp p)
  && timestamp_in_range (receive_timestamp p)
  && timestamp_in_range (transmit_timestamp p).

(** The byte at offset [off] of a buffer, and the big-endian 32-bit word
    starting there. *)
Definition u8_at (buff : list byte) (off : nat) : Z :=
  Struct.Z_of_byte (nth off buff x00).

Definition u32_at (buff : list byte) (off : nat) : Z :=
  Struct.be_value 0 (firstn 4 (skipn off buff)).

(** The codes of [get_packet_format]. *)
Definition packet_codes : list Struct.code :=
  Eval vm_compute in
    match Struct.parse_format get_packet_format with
    | Some cs => cs
    | None => []
    end.

(** Sample packets: a server reply, and the same with a negative precision. *)
Definition sample_reply : SNTP_Packet := {|
  li := 0; vn := 4; mode := 4; stratum := 2; poll := 6; precision := 236;
  root_delay := 1234; root_dispersion := 5678;
  reference_identifier := 3232235777;
  reference_timestamp := (3908988700, 0);
  originate_timestamp := (3908988800, 2147483648);
  receive_timestamp := (3908988800, 2151677952);
  transmit_timestamp := (3908988800, 2155872256)
|}.

Definition signed_precision_reply : SNTP_Packet := set_precision sample_reply (-20).

(** The all-zero datagram. *)
Definition zero_buffer : list byte := repeat x00 48.

(** ** The formulas of the specification, over the rationals *)

Definition two32Q : Q := 2 ^ 32.

(** The value [seconds + fraction / 2^32] of an NTP timestamp pair. *)
Definition ntp_value (t : Z * Z) : Q :=
  (inject_Z (fst t) + inject_Z (snd t) / two32Q)%Q.

(** The offset formula, with [t1] the client transmit, [t2] the server
    receive, [t3] the server transmit and [t4] the client receive time. *)
Definition offset_formula (t1 t2 t3 t4 : Z * Z) : Q :=
  (((inject_Z (fst t2 - fst t1) + inject_Z (snd t2 - snd t1) / two32Q)
    + (inject_Z (fst t3 - fst t4) + inject_Z (snd t3 - snd t4) / two32Q))
   / 2)%Q.

(** Two instants: 1700000000.5, and 1700000000 plus one unit in the last
    place, [2^-22]. *)
Definition time_1700000000_5 : float := S754_finite false 7130316802097152 (-22).
Definition time_1700000000_ulp : float := S754_finite false 7130316800000001 (-22).
Definition time_1700000000 : float := S754_finite false 7130316800000000 (-22).

(** Three timestamp pairs for the scenarios. *)
Definition ts_0_0 : Z * Z := (0, 0).
Definition ts_1_0 : Z * Z := (1, 0).
Definition ts_max : Z * Z := (4294967295, 4294967295).

(** ** Vocabulary for the rounding lemmas *)

(** The float of sign [s], mantissa [M] and exponent [E]; a zero when the
    mantissa is. *)
Definition mkfloat (s : bool) (M E : Z) : float :=
  match M with
  | Zpos p => S754_finite s p E
  | _ => S754_zero s
  end.

(** What the two sticky bits of a [shr_record] say of the remainder [R]
    left by a shift that divides by [P]. *)
Definition shr_bits_ok (R P : Z) (r s : bool) : Prop :=
  match r, s with
  | false, false => R = 0
  | false, true => 0 < 2 * R < P
  | true, false => 2 * R = P
  | true, true => P < 2 * R
  end.

(** The exponent of the smallest subnormal, and the exponent function. *)
Definition emin64 : Z := emin prec emax.
Definition fexp64 (e : Z) : Z := fexp prec emax e.

(** [x] is an integer multiple of [2^g]. *)
Definition multiple_of_pow2 (x : Q) (g : Z) : Prop :=
  exists z : Z, (x == F2Q z g)%Q.

(** [f] is the exact value [v] rounded to binary64: a finite float on the
    grid of step [2^E], at most half a step from [v], where [E] is the
    exponent that the magnitude of [v] calls for. *)
Record rounds_to (v : Q) (f : float) : Prop := {
  rt_finite : is_finite f = true;
  rt_valid : is_float64 f = true;
  rt_round :
    exists E : Z,
      emin64 <= E
      /\ multiple_of_pow2 (SF2Q f) E
      /\ (Qabs (SF2Q f - v) * 2 <= 2 ^ E)%Q
      /\ (Qabs v < 2 ^ (E + prec))%Q
      /\ (E = emin64 \/ (2 ^ (E + prec - 1) <= Qabs v)%Q)
}.

(** An operation either overflows, on an exact result of magnitude
    [2^(emax-1)] at least, or rounds. *)
Definition rounds_or_overflows (v : Q) (f : float) : Prop :=
  (is_finite f = false /\ (2 ^ (emax - 1) <= Qabs v)%Q) \/ rounds_to v f.

(** ** The NTP time of the specification

    The exact difference [calendar_time - epoch_offset], a rational
    number, where the code has the binary64 difference. *)
Definition exact_ntp_time (calendar_time : float) : Q :=
  (SF2Q calendar_time - SF2Q get_ntp_timestamp_offset)%Q.

(** [(floor(ntp_time), floor((ntp_time - floor(ntp_time)) * 2^32))] *)
Definition ntp_floors (ntp_time : Q) : Z * Z :=
  (Qfloor ntp_time,
   Qfloor ((ntp_time - inject_Z (Qfloor ntp_time)) * 2 ^ 32)%Q).

(** ** More instants and timestamps for the examples *)

(** 1700000000 plus three units in the last place, and the last float
    before 2085978496.0 (2036-02-07T06:28:16Z). *)
Definition time_1700000000_3ulp : float := S754_finite false 7130316800000003 (-22).
Definition time_2036_minus_ulp : float := S754_finite false 8749227949686783 (-22).

(** 2036-02-07T06:28:16Z, the calendar time 2085978496.0: [2^32] seconds
    after the NTP epoch. *)
Definition time_2036_rollover : float := S754_finite false 8749227949686784 (-22).

(** 1899-12-31T23:59:58.75Z, the calendar time -2208988801.25: a second
    and a quarter before the NTP epoch. *)
Definition time_1899 : float := S754_finite true 4632585282519040 (-21).

(** A timestamp pair whose fraction has its low eleven bits clear. *)
Definition ts_sample : Z * Z := (3908988800, 2151677952).

(** The componentwise sum of two timestamp pairs. *)
Definition ts_add (t d : Z * Z) : Z * Z := (fst t + fst d, snd t + snd d).

(** [y] is the negation of [x], where a zero may have either sign: the
    sum of two opposite numbers is [+0.0] whichever comes first. *)
Definition float_opp_like (x y : float) : Prop :=
  y = SFopp x
  \/ (exists s s' : bool, x = S754_zero s /\ y = S754_zero s').

(** ** Tactics for records and lists of packed values *)

(** Reduce the projections of a packet that is given field by field. *)
Ltac simpl_fields :=
  cbn [li vn mode stratum poll precision root_delay root_dispersion
       reference_identifier reference_timestamp originate_timestamp
       receive_timestamp transmit_timestamp fst snd app] in *.

(** Split an equation between two lists of the same length. *)
Ltac list_inj H :=
  repeat match type of H with
         | _ :: _ = _ :: _ => let h := fresh "Hhd" in injection H as h H
         end.
(** * Properties of the codec *)

(** ** The composite li/vn/mode byte *)

Section CompositeByte.

(** The three masked shifts of [decode_li_vn_mode] are digit
    extractions in base 2. *)
Lemma decode_li_vn_mode_arith (val : Z) :
  decode_li_vn_mode val = ((val / 64) mod 4, (val / 8) mod 8, val mod 8).
Proof.
  unfold decode_li_vn_mode.
  rewrite !Z.shiftr_land.
  change (Z.shiftr 192 6) with (Z.ones 2).
  change (Z.shiftr 56 3) with (Z.ones 3).
  change 7 with (Z.ones 3).
  rewrite !Z.land_ones, !Z.shiftr_div_pow2 by lia.
  reflexivity.
Qed.

Lemma encode_li_vn_mode_arith (p : SNTP_Packet) :
  encode_li_vn_mode p = li p * 64 + vn p * 8 + mode p.
Proof.
  unfold encode_li_vn_mode.
  rewrite !Z.shiftl_mul_pow2 by lia.
  reflexivity.
Qed.

(** Bitwise or of two numbers with no common bit is their sum. *)
Lemma lor_disjoint_add (a b : Z) : Z.land a b = 0 -> Z.lor a b = a + b.
Proof.
  intros H. pose proof (Z.add_lor_land a b) as E. rewrite H in E. lia.
Qed.

Lemma land_shiftl_low (a b n : Z) :
  0 <= n -> 0 <= b < 2 ^ n -> Z.land (Z.shiftl a n) b = 0.
Proof.
  intros Hn Hb.
  apply Z.bits_inj'. intros k Hk.
  rewrite Z.land_spec, Z.bits_0.
  destruct (Z.lt_ge_cases k n) as [Hlt | Hge].
  - rewrite Z.shiftl_spec_low by assumption. reflexivity.
  - destruct (Z.eq_dec b 0) as [-> | Hb0].
    + rewrite Z.bits_0. apply andb_false_r.
    + rewrite (Z.bits_above_log2 b k).
      * apply andb_false_r.
      * lia.
      * apply Z.lt_le_trans with n; [| assumption].
        apply Z.log2_lt_pow2; lia.
Qed.

Lemma lor_shiftl_add (a b n : Z) :
  0 <= n -> 0 <= b < 2 ^ n -> Z.lor (Z.shiftl a n) b = a * 2 ^ n + b.
Proof.
  intros Hn Hb.
  rewrite lor_disjoint_add by (apply land_shiftl_low; assumption).
  rewrite Z.shiftl_mul_pow2 by assumption. reflexivity.
Qed.

End CompositeByte.

(** ** Packing and unpacking *)

Module StructFacts.
Import Struct.

Lemma Z_of_byte_range (b : byte) : 0 <= Z_of_byte b < 256.
Proof.
  unfold Z_of_byte. pose proof (Byte.to_N_bounded b). lia.
Qed.

Lemma byte_of_Z_of_byte (b : byte) : byte_of_Z (Z_of_byte b) = b.
Proof.
  unfold byte_of_Z, Z_of_byte.
  rewrite N2Z.id, Byte.of_to_N. reflexivity.
Qed.

Lemma Z_of_byte_of_Z (z : Z) : 0 <= z < 256 -> Z_of_byte (byte_of_Z z) = z.
Proof.
  intros Hz. unfold byte_of_Z, Z_of_byte.
  destruct (Byte.of_N (Z.to_N z)) as [b |] eqn:E.
  - apply Byte.to_of_N in E. rewrite E. lia.
  - apply Byte.of_N_None_iff in E. lia.
Qed.

Lemma length_be_bytes (n : nat) (v : Z) : List.length (be_bytes n v) = n.
Proof.
  induction n as [| k IH]; simpl; [reflexivity | now rewrite IH].
Qed.

(** [be_value] in arithmetic: the accumulator is shifted past the
    bytes read. *)
Lemma be_value_acc (bs : list byte) : forall acc,
  be_value acc bs = acc * 2 ^ (8 * Z.of_nat (List.length bs)) + be_value 0 bs.
Proof.
  induction bs as [| b bs IH]; intros acc.
  - simpl. lia.
  - cbn [be_value List.length].
    rewrite IH, (IH (Z.lor (Z.shiftl 0 8) (Z_of_byte b))).
    rewrite !lor_shiftl_add by (pose proof (Z_of_byte_range b); lia).
    replace (8 * Z.of_nat (S (List.length bs)))
      with (8 + 8 * Z.of_nat (List.length bs)) by lia.
    rewrite Z.pow_add_r by lia.
    ring.
Qed.

Lemma be_value_range (bs : list byte) :
  0 <= be_value 0 bs < 2 ^ (8 * Z.of_nat (List.length bs)).
Proof.
  induction bs as [| b bs IH].
  - simpl. lia.
  - cbn [be_value List.length]. rewrite be_value_acc.
    rewrite lor_shiftl_add by (pose proof (Z_of_byte_range b); lia).
    pose proof (Z_of_byte_range b) as Hb.
    replace (8 * Z.of_nat (S (List.length bs)))
      with (8 + 8 * Z.of_nat (List.length bs)) by lia.
    rewrite Z.pow_add_r by lia.
    set (P := 2 ^ (8 * Z.of_nat (List.length bs))) in *.
    change (2 ^ 8) with 256. nia.
Qed.

(** Reading back the bytes written for [v] gives [v] modulo the width. *)
Lemma be_value_be_bytes (n : nat) (v : Z) : forall acc,
  be_value acc (be_bytes n v)
  = acc * 2 ^ (8 * Z.of_nat n) + v mod 2 ^ (8 * Z.of_nat n).
Proof.
  induction n as [| k IH]; intros acc.
  - simpl. rewrite Z.mod_1_r. lia.
  - cbn [be_bytes be_value]. rewrite IH.
    change 255 with (Z.ones 8).
    rewrite Z.land_ones, Z.shiftr_div_pow2 by lia.
    rewrite Z_of_byte_of_Z by (apply Z.mod_pos_bound; lia).
    rewrite lor_shiftl_add by (try apply Z.mod_pos_bound; lia).
    replace (8 * Z.of_nat (S k)) with (8 * Z.of_nat k + 8) by lia.
    rewrite (Z.pow_add_r 2 (8 * Z.of_nat k) 8) by lia.
    rewrite (Z.rem_mul_r v (2 ^ (8 * Z.of_nat k)) (2 ^ 8)) by lia.
    ring.
Qed.

Lemma be_value_be_bytes_small (n : nat) (v : Z) :
  0 <= v < 2 ^ (8 * Z.of_nat n) -> be_value 0 (be_bytes n v) = v.
Proof.
  intros Hv. rewrite be_value_be_bytes, Z.mod_small by assumption. lia.
Qed.

(** Writing the value read from [bs] on as many bytes gives [bs] back,
    whatever was accumulated before. *)
Lemma be_bytes_be_value (bs : list byte) : forall acc,
  be_bytes (List.length bs) (be_value acc bs) = bs.
Proof.
  induction bs as [| b bs IH]; intros acc.
  - reflexivity.
  - cbn [List.length be_bytes be_value]. rewrite IH. f_equal.
    rewrite be_value_acc.
    rewrite lor_shiftl_add by (pose proof (Z_of_byte_range b); lia).
    change 255 with (Z.ones 8).
    rewrite Z.land_ones, Z.shiftr_div_pow2 by lia.
    pose proof (be_value_range bs) as Hr.
    set (P := 2 ^ (8 * Z.of_nat (List.length bs))) in *.
    rewrite Z.div_add_l by lia.
    rewrite (Z.div_small (be_value 0 bs) P) by assumption.
    rewrite Z.add_0_r, Z.add_comm, Z.mod_add by lia.
    rewrite Z.mod_small by apply Z_of_byte_range.
    apply byte_of_Z_of_byte.
Qed.

Lemma in_range_spec (c : code) (v : Z) :
  in_range c v = true <-> 0 <= v < 2 ^ (8 * Z.of_nat (code_size c)).
Proof.
  unfold in_range, code_max.
  rewrite andb_true_iff, Z.leb_le, Z.ltb_lt. reflexivity.
Qed.

(** [pack] succeeds exactly when there is one value per code and each
    value fits its code. *)
Lemma pack_codes_ok_iff (cs : list code) : forall vs,
  (exists bs, pack_codes cs vs = Ok bs)
  <-> Forall2 (fun c v => in_range c v = true) cs vs.
Proof.
  induction cs as [| c cs IH]; intros [| v vs]; simpl.
  - split; [constructor | eauto].
  - split; [intros [bs H]; discriminate | intros H; inversion H].
  - split; [intros [bs H]; discriminate | intros H; inversion H].
  - destruct (in_range c v) eqn:Hc.
    + specialize (IH vs).
      destruct (pack_codes cs vs) as [rest | e]; simpl.
      * split; [| eauto]. intros _. constructor; [assumption |].
        apply IH. eauto.
      * split; [intros [bs H]; discriminate |].
        intros H. inversion H; subst.
        apply IH in H5. destruct H5 as [bs Hbs]. discriminate.
    + split; [intros [bs H]; discriminate |].
      intros H. inversion H; subst. congruence.
Qed.

(** The only exception [pack] raises is [struct.error]. *)
Lemma pack_codes_raise (cs : list code) : forall vs e,
  pack_codes cs vs = Raise e -> e = struct_error.
Proof.
  induction cs as [| c cs IH]; intros [| v vs] e; simpl; intros H;
    try congruence.
  destruct (in_range c v); [| congruence].
  destruct (pack_codes cs vs) as [rest | e'] eqn:E; simpl in H; [discriminate |].
  injection H as <-. eapply IH; eassumption.
Qed.

Lemma length_pack_codes (cs : list code) : forall vs bs,
  pack_codes cs vs = Ok bs -> List.length bs = calcsize cs.
Proof.
  induction cs as [| c cs IH]; intros [| v vs] bs; simpl; intros H;
    try discriminate.
  - injection H as <-. reflexivity.
  - destruct (in_range c v); [| discriminate].
    destruct (pack_codes cs vs) as [rest |] eqn:E; simpl in H; [| discriminate].
    injection H as <-.
    rewrite length_app, length_be_bytes, (IH _ _ E). reflexivity.
Qed.

Lemma unpack_pack_codes (cs : list code) : forall vs bs,
  pack_codes cs vs = Ok bs -> unpack_codes cs bs = vs.
Proof.
  induction cs as [| c cs IH]; intros [| v vs] bs; simpl; intros H;
    try discriminate.
  - reflexivity.
  - destruct (in_range c v) eqn:Hc; [| discriminate].
    destruct (pack_codes cs vs) as [rest |] eqn:E; simpl in H; [| discriminate].
    injection H as <-.
    apply in_range_spec in Hc.
    rewrite firstn_app, skipn_app, length_be_bytes, Nat.sub_diag.
    rewrite firstn_all2 by (rewrite length_be_bytes; lia).
    rewrite skipn_all2 by (rewrite length_be_bytes; lia).
    simpl. rewrite app_nil_r.
    rewrite be_value_be_bytes_small by assumption.
    f_equal. apply IH. assumption.
Qed.

Lemma pack_unpack_codes (cs : list code) : forall bs,
  List.length bs = calcsize cs ->
  pack_codes cs (unpack_codes cs bs) = Ok bs.
Proof.
  induction cs as [| c cs IH]; intros bs Hlen; simpl in *.
  - destruct bs; [reflexivity | discriminate].
  - assert (Hfirst : List.length (firstn (code_size c) bs) = code_size c)
      by (rewrite length_firstn; lia).
    assert (Hr : in_range c (be_value 0 (firstn (code_size c) bs)) = true).
    { apply in_range_spec.
      pose proof (be_value_range (firstn (code_size c) bs)) as H.
      rewrite Hfirst in H. exact H. }
    rewrite Hr, IH by (rewrite length_skipn; lia).
    simpl.
    rewrite <- Hfirst at 1.
    rewrite be_bytes_be_value, firstn_skipn. reflexivity.
Qed.

Lemma length_unpack_codes (cs : list code) (bs : list byte) :
  List.length (unpack_codes cs bs) = List.length cs.
Proof.
  revert bs. induction cs as [| c cs IH]; intros bs; simpl;
    [reflexivity | now rewrite IH].
Qed.

End StructFacts.

(** ** The packet codec *)

Section Codec.
Import Struct StructFacts.

Lemma packet_format_codes : parse_format get_packet_format = Some packet_codes.
Proof. reflexivity. Qed.

Lemma calcsize_packet_codes : calcsize packet_codes = 48%nat.
Proof. reflexivity. Qed.

Lemma to_bytes_pack_codes (p : SNTP_Packet) :
  to_bytes p = pack_codes packet_codes (get_packet_value p).
Proof. reflexivity. Qed.

Lemma unpack_packet_format (buff : list byte) :
  unpack get_packet_format buff
  = if Nat.eqb (List.length buff) 48
    then Ok (unpack_codes packet_codes buff)
    else Raise struct_error.
Proof. reflexivity. Qed.

Lemma in_bits_spec (n v : Z) : in_bits n v = true <-> 0 <= v < 2 ^ n.
Proof.
  unfold in_bits. rewrite andb_true_iff, Z.leb_le, Z.ltb_lt. reflexivity.
Qed.

(** The composite byte of a packet whose li, vn and mode are in range is
    a byte. *)
Lemma encode_li_vn_mode_byte (p : SNTP_Packet) :
  in_bits 2 (li p) = true -> in_bits 3 (vn p) = true ->
  in_bits 3 (mode p) = true ->
  in_bits 8 (encode_li_vn_mode p) = true.
Proof.
  rewrite !in_bits_spec, encode_li_vn_mode_arith.
  change (2 ^ 2) with 4. change (2 ^ 3) with 8. change (2 ^ 8) with 256.
  lia.
Qed.

Lemma decode_encode_li_vn_mode (p : SNTP_Packet) :
  0 <= li p <= 3 -> 0 <= vn p <= 7 -> 0 <= mode p <= 7 ->
  decode_li_vn_mode (encode_li_vn_mode p) = (li p, vn p, mode p).
Proof.
  intros Hl Hv Hm.
  rewrite decode_li_vn_mode_arith, encode_li_vn_mode_arith.
  repeat f_equal.
  - replace ((li p * 64 + vn p * 8 + mode p) / 64) with (li p)
      by (apply Z.div_unique with (vn p * 8 + mode p); lia).
    apply Z.mod_small; lia.
  - replace ((li p * 64 + vn p * 8 + mode p) / 8) with (li p * 8 + vn p)
      by (apply Z.div_unique with (mode p); lia).
    rewrite Z.add_comm, Z.mod_add by lia. apply Z.mod_small; lia.
  - replace (li p * 64 + vn p * 8 + mode p)
      with (mode p + (li p * 8 + vn p) * 8) by ring.
    rewrite Z.mod_add by lia. apply Z.mod_small; lia.
Qed.

(** Decoding a byte and encoding the three parts again gives the byte. *)
Lemma encode_decode_li_vn_mode (self : SNTP_Packet) (val : Z) :
  let '(l, v, m) := decode_li_vn_mode val in
  0 <= val < 256 ->
  encode_li_vn_mode (set_mode (set_vn (set_li self l) v) m) = val.
Proof.
  rewrite decode_li_vn_mode_arith. intros Hval.
  rewrite encode_li_vn_mode_arith. cbn [li vn mode set_li set_vn set_mode].
  pose proof (Z.div_mod val 8 ltac:(lia)) as E8.
  pose proof (Z.div_mod (val / 8) 8 ltac:(lia)) as E64.
  assert (H64 : val / 64 = val / 8 / 8) by (rewrite Z.div_div by lia; reflexivity).
  rewrite H64.
  assert (Hsmall : 0 <= val / 8 / 8 < 4).
  { split; [apply Z.div_pos; [apply Z.div_pos |]; lia |].
    apply Z.div_lt_upper_bound; [lia |].
    apply Z.div_lt_upper_bound; lia. }
  rewrite (Z.mod_small (val / 8 / 8) 4) by assumption.
  lia.
Qed.

(** Every unpacked value fits the code it was read with. *)
Lemma unpack_codes_in_range (cs : list code) (buff : list byte) :
  List.length buff = calcsize cs ->
  Forall2 (fun c v => in_range c v = true) cs (unpack_codes cs buff).
Proof.
  intros Hlen. apply pack_codes_ok_iff.
  exists buff. apply pack_unpack_codes. assumption.
Qed.

(** [from_bytes] on a 48-byte buffer: no exception, and the packet holds
    the unpacked values, the first one split in three. *)
Lemma from_bytes_ok (self : SNTP_Packet) (buff : list byte) :
  List.length buff = 48%nat ->
  exists p, from_bytes self buff = Ok p
            /\ get_packet_value p = unpack_codes packet_codes buff
            /\ decode_li_vn_mode (u8_at buff 0) = (li p, vn p, mode p).
Proof.
  intros Hlen.
  pose proof (unpack_codes_in_range packet_codes buff Hlen) as Hrange.
  assert (H0 : nth 0 (unpack_codes packet_codes buff) 0 = u8_at buff 0).
  { destruct buff as [| b buff]; [discriminate |].
    cbn [packet_codes unpack_codes code_size firstn nth be_value u8_at].
    rewrite Z.shiftl_0_l, Z.lor_0_l. reflexivity. }
  unfold from_bytes. rewrite unpack_packet_format, Hlen.
  cbn [Nat.eqb bind].
  remember (unpack_codes packet_codes buff) as fields eqn:Ef.
  unfold packet_codes in Hrange.
  do 15 (destruct fields as [| ? fields]; [inversion Hrange; fail |];
         apply Forall2_cons_iff in Hrange; destruct Hrange as [? Hrange]).
  destruct fields; [| inversion Hrange].
  cbn [getitem nth_error bind nth] in *.
  subst z.
  pose proof (encode_decode_li_vn_mode self (u8_at buff 0)) as Henc.
  destruct (decode_li_vn_mode (u8_at buff 0)) as [[l v] m].
  eexists. split; [reflexivity |].
  split; [| reflexivity].
  unfold get_packet_value, splat.
  cbn [stratum poll precision root_delay root_dispersion reference_identifier
       reference_timestamp originate_timestamp receive_timestamp
       transmit_timestamp fst snd app
       set_li set_vn set_mode set_stratum set_poll set_precision
       set_root_delay set_root_dispersion set_reference_identifier
       set_reference_timestamp set_originate_timestamp
       set_receive_timestamp set_transmit_timestamp].
  f_equal.
  rewrite <- Henc by (apply in_range_spec in H; exact H).
  rewrite !encode_li_vn_mode_arith. reflexivity.
Qed.

Lemma from_bytes_bad_length (self : SNTP_Packet) (buff : list byte) :
  List.length buff <> 48%nat -> from_bytes self buff = Raise struct_error.
Proof.
  intros Hlen. unfold from_bytes. rewrite unpack_packet_format.
  apply Nat.eqb_neq in Hlen. rewrite Hlen. reflexivity.
Qed.

End Codec.

Section CodecClaims.
Import Struct StructFacts.

(** The fifteen unpacked values, by their offsets in the datagram. *)
Lemma unpack_codes_offsets (buff : list byte) :
  List.length buff = 48%nat ->
  unpack_codes packet_codes buff
  = [ u8_at buff 0; u8_at buff 1; u8_at buff 2; u8_at buff 3;
      u32_at buff 4; u32_at buff 8; u32_at buff 12;
      u32_at buff 16; u32_at buff 20; u32_at buff 24; u32_at buff 28;
      u32_at buff 32; u32_at buff 36; u32_at buff 40; u32_at buff 44 ].
Proof.
  intros Hlen.
  do 48 (destruct buff as [| ? buff]; [discriminate |]).
  destruct buff; [| discriminate].
  unfold u8_at, u32_at.
  cbn [packet_codes unpack_codes code_size firstn skipn nth be_value].
  rewrite !Z.shiftl_0_l, !Z.lor_0_l.
  reflexivity.
Qed.

(** C2: [from_bytes] raises (and then it raises [struct.error], the
    exception of [struct.unpack] that the specification calls
    MalformedPacketError) if and only if the buffer is not exactly 48 bytes
    long.  A 48-byte buffer is always accepted, and every field of the
    packet is the raw value found at its offset: nothing is validated. *)
Theorem from_bytes_fails_iff_not_48 (self : SNTP_Packet) (buff : list byte) :
  (List.length buff <> 48%nat /\ from_bytes self buff = Raise struct_error)
  \/
  (List.length buff = 48%nat /\
   exists p,
     from_bytes self buff = Ok p
     /\ (li p, vn p, mode p) = decode_li_vn_mode (u8_at buff 0)
     /\ stratum p = u8_at buff 1
     /\ poll p = u8_at buff 2
     /\ precision p = u8_at buff 3
     /\ root_delay p = u32_at buff 4
     /\ root_dispersion p = u32_at buff 8
     /\ reference_identifier p = u32_at buff 12
     /\ reference_timestamp p = (u32_at buff 16, u32_at buff 20)
     /\ originate_timestamp p = (u32_at buff 24, u32_at buff 28)
     /\ receive_timestamp p = (u32_at buff 32, u32_at buff 36)
     /\ transmit_timestamp p = (u32_at buff 40, u32_at buff 44)).
Proof.
  destruct (Nat.eq_dec (List.length buff) 48) as [Hlen | Hlen].
  - right. split; [assumption |].
    destruct (from_bytes_ok self buff Hlen) as (p & Hp & Hval & Hdec).
    exists p. split; [assumption |]. split; [symmetry; assumption |].
    rewrite unpack_codes_offsets in Hval by assumption.
    unfold get_packet_value, splat in Hval. cbn [app] in Hval.
    injection Hval as _ Hs Hpo Hpr Hrd Hrp Hri Hr1 Hr2 Ho1 Ho2 Hc1 Hc2 Ht1 Ht2.
    repeat split; try assumption;
      match goal with |- ?t = _ => rewrite (surjective_pairing t) end;
      congruence.
  - left. split; [assumption |]. apply from_bytes_bad_length. assumption.
Qed.

(** The all-zero datagram decodes to the packet of [__init__]. *)
Example from_bytes_zero_buffer : from_bytes sample_reply zero_buffer = Ok init.
Proof. reflexivity. Qed.

Lemma wire_ranges_packable (p : SNTP_Packet) :
  wire_ranges p = true -> packable p = true.
Proof.
  unfold wire_ranges, packable. rewrite !andb_true_iff.
  intros H. decompose [and] H. repeat split; try assumption.
  apply encode_li_vn_mode_byte; assumption.
Qed.

Lemma in_range_in_bits (c : code) (v : Z) :
  in_range c v = in_bits (8 * Z.of_nat (code_size c)) v.
Proof. reflexivity. Qed.

(** What [struct.pack] checks on the values of a packet is [packable]. *)
Lemma packable_Forall2 (p : SNTP_Packet) :
  Forall2 (fun c v => in_range c v = true) packet_codes (get_packet_value p)
  <-> packable p = true.
Proof.
  unfold packable, timestamp_in_range, get_packet_value, splat, packet_codes.
  cbn [app]. rewrite !andb_true_iff.
  split.
  - intros H.
    repeat match goal with
           | H : Forall2 _ (_ :: _) (_ :: _) |- _ =>
               apply Forall2_cons_iff in H; destruct H as [? H]
           end.
    repeat split; assumption.
  - intros H. decompose [and] H.
    repeat (apply Forall2_cons; [assumption |]). constructor.
Qed.

(** C4, as the code has it: [to_bytes] is a function of the packet that
    returns 48 bytes exactly when every packed value fits its format code
    (the composite byte, stratum, poll and precision in [0, 255], the
    32-bit fields and timestamp halves in [0, 2^32)), and raises
    [struct.error] otherwise: a value that overflows its width is refused,
    it is not truncated. *)
Theorem to_bytes_ok_iff_packable (p : SNTP_Packet) :
  (packable p = true
   /\ exists buff, to_bytes p = Ok buff /\ List.length buff = 48%nat)
  \/ (packable p = false /\ to_bytes p = Raise struct_error).
Proof.
  rewrite to_bytes_pack_codes.
  destruct (pack_codes packet_codes (get_packet_value p)) as [buff | e] eqn:E.
  - left. split.
    + apply packable_Forall2, pack_codes_ok_iff. eauto.
    + exists buff. split; [reflexivity |].
      apply length_pack_codes in E. exact E.
  - right. split.
    + destruct (packable p) eqn:Hp; [| reflexivity].
      apply packable_Forall2, pack_codes_ok_iff in Hp.
      destruct Hp as [buff Hb]. congruence.
    + apply pack_codes_raise in E. congruence.
Qed.

(** C4, as stated, fails: a stratum of 256 is not wrapped to 0, packing
    raises [struct.error]. *)
Lemma to_bytes_stratum_256_raises :
  to_bytes (set_stratum init 256) = Raise struct_error.
Proof. reflexivity. Qed.

(** C1, as the code has it: for every packet whose fields are within the
    ranges of the wire format (li in [0,3], vn and mode in [0,7], stratum,
    poll and precision in [0,255], 32-bit fields and timestamp halves in
    [0,2^32)), decoding the encoding gives the packet back, field for
    field, whatever object [from_bytes] is called on. *)
Theorem from_bytes_to_bytes (p self : SNTP_Packet) :
  wire_ranges p = true ->
  (buff <- to_bytes p ;; from_bytes self buff) = Ok p.
Proof.
  intros Hp.
  pose proof (wire_ranges_packable p Hp) as Hpack.
  apply packable_Forall2, pack_codes_ok_iff in Hpack.
  destruct Hpack as [buff Hbuff].
  rewrite to_bytes_pack_codes, Hbuff. cbn [bind].
  unfold from_bytes.
  rewrite unpack_packet_format,
    (length_pack_codes _ _ _ Hbuff), calcsize_packet_codes.
  cbn [Nat.eqb bind].
  rewrite (unpack_pack_codes _ _ _ Hbuff).
  unfold get_packet_value, splat.
  cbn [app getitem nth_error bind].
  unfold wire_ranges in Hp. rewrite !andb_true_iff, !in_bits_spec in Hp.
  rewrite decode_encode_li_vn_mode
    by (change (2 ^ 2) with 4 in Hp; change (2 ^ 3) with 8 in Hp; lia).
  destruct p as [l v m s po pr rd rp ri [r1 r2] [o1 o2] [c1 c2] [t1 t2]].
  reflexivity.
Qed.

Lemma from_bytes_to_bytes_witness :
  wire_ranges sample_reply = true
  /\ (buff <- to_bytes sample_reply ;; from_bytes init buff) = Ok sample_reply.
Proof.
  split; [reflexivity | apply (from_bytes_to_bytes sample_reply init); reflexivity].
Defined.

(** C1, as stated, fails: a packet with the signed precision -20 is within
    the declared ranges, and [to_bytes] raises [struct.error] on it, so
    there is nothing to decode. *)
Lemma signed_precision_not_packed :
  declared_ranges signed_precision_reply = true
  /\ to_bytes signed_precision_reply = Raise struct_error
  /\ (buff <- to_bytes signed_precision_reply ;; from_bytes init buff)
     = Raise struct_error.
Proof. repeat split. Qed.

(** C9: for every buffer of exactly 48 bytes, encoding the decoded packet
    gives the buffer back, byte for byte. *)
Theorem to_bytes_from_bytes (self : SNTP_Packet) (buff : list byte) :
  List.length buff = 48%nat ->
  (p <- from_bytes self buff ;; to_bytes p) = Ok buff.
Proof.
  intros Hlen.
  destruct (from_bytes_ok self buff Hlen) as (p & Hp & Hval & _).
  rewrite Hp. cbn [bind].
  rewrite to_bytes_pack_codes, Hval.
  apply pack_unpack_codes. assumption.
Qed.

Lemma to_bytes_from_bytes_witness :
  List.length zero_buffer = 48%nat
  /\ (p <- from_bytes init zero_buffer ;; to_bytes p) = Ok zero_buffer.
Proof.
  split; [reflexivity | apply (to_bytes_from_bytes init zero_buffer); reflexivity].
Defined.

(** C5: for li in [0,3], vn in [0,7] and mode in [0,7], decoding the
    composite byte gives the three values back, and the byte the code
    builds with additions is [(li << 6) | (vn << 3) | mode]. *)
Theorem decode_encode_li_vn_mode_id (p : SNTP_Packet) :
  0 <= li p <= 3 -> 0 <= vn p <= 7 -> 0 <= mode p <= 7 ->
  decode_li_vn_mode (encode_li_vn_mode p) = (li p, vn p, mode p)
  /\ encode_li_vn_mode p
     = Z.lor (Z.lor (Z.shiftl (li p) 6) (Z.shiftl (vn p) 3)) (mode p).
Proof.
  intros Hl Hv Hm. split.
  - apply decode_encode_li_vn_mode; assumption.
  - unfold encode_li_vn_mode.
    rewrite (lor_disjoint_add (Z.shiftl (li p) 6)).
    + rewrite lor_disjoint_add; [reflexivity |].
      replace (Z.shiftl (li p) 6 + Z.shiftl (vn p) 3)
        with (Z.shiftl (li p * 8 + vn p) 3)
        by (rewrite !Z.shiftl_mul_pow2 by lia; change (2 ^ 6) with 64;
            change (2 ^ 3) with 8; ring).
      apply land_shiftl_low; [lia |]. change (2 ^ 3) with 8. lia.
    + replace (Z.shiftl (li p) 6) with (Z.shiftl (Z.shiftl (li p) 3) 3)
        by (rewrite Z.shiftl_shiftl by lia; reflexivity).
      rewrite <- Z.shiftl_land.
      rewrite land_shiftl_low; [reflexivity | lia |].
      change (2 ^ 3) with 8. lia.
Qed.

Lemma decode_encode_li_vn_mode_id_witness :
  decode_li_vn_mode (encode_li_vn_mode sample_reply) = (0, 4, 4)
  /\ encode_li_vn_mode sample_reply
     = Z.lor (Z.lor (Z.shiftl 0 6) (Z.shiftl 4 3)) 4.
Proof.
  apply (decode_encode_li_vn_mode_id sample_reply); simpl; lia.
Defined.

(** C10: [decode_li_vn_mode] returns a triple for every byte value, with
    li in [0,3], vn in [0,7] and mode in [0,7]. *)
Theorem decode_li_vn_mode_in_range (val : Z) :
  0 <= val <= 255 ->
  exists l v m,
    decode_li_vn_mode val = (l, v, m)
    /\ 0 <= l <= 3 /\ 0 <= v <= 7 /\ 0 <= m <= 7.
Proof.
  intros _. rewrite decode_li_vn_mode_arith.
  do 3 eexists. split; [reflexivity |].
  pose proof (Z.mod_pos_bound (val / 64) 4 ltac:(lia)).
  pose proof (Z.mod_pos_bound (val / 8) 8 ltac:(lia)).
  pose proof (Z.mod_pos_bound val 8 ltac:(lia)).
  lia.
Qed.

Lemma decode_li_vn_mode_in_range_witness :
  exists l v m,
    decode_li_vn_mode 236 = (l, v, m)
    /\ 0 <= l <= 3 /\ 0 <= v <= 7 /\ 0 <= m <= 7.
Proof.
  apply (decode_li_vn_mode_in_range 236). lia.
Defined.

End CodecClaims.

(** * Binary64 arithmetic

    What the proofs below need of IEEE rounding, derived from the
    definitions of [SpecFloat]: the result of an operation is the exact
    result rounded to a multiple of the unit in the last place, at most
    half a unit away. *)

Section Digits.

Lemma digits2_pos_log2 (p : positive) :
  Zpos (digits2_pos p) = Z.log2 (Zpos p) + 1.
Proof.
  induction p as [p IH | p IH |]; cbn [digits2_pos].
  - rewrite Pos2Z.inj_succ, IH.
    change (Zpos p~1) with (2 * Zpos p + 1).
    rewrite Z.log2_succ_double by lia. lia.
  - rewrite Pos2Z.inj_succ, IH.
    change (Zpos p~0) with (2 * Zpos p).
    rewrite Z.log2_double by lia. lia.
  - reflexivity.
Qed.

Lemma Zdigits2_log2 (m : Z) : 0 < m -> Zdigits2 m = Z.log2 m + 1.
Proof.
  destruct m as [| p | p]; try lia. intros _. apply digits2_pos_log2.
Qed.

Lemma Zdigits2_pos (m : Z) : 0 < m -> 0 < Zdigits2 m.
Proof.
  intros Hm. rewrite Zdigits2_log2 by assumption.
  pose proof (Z.log2_nonneg m). lia.
Qed.

(** [m] has [Zdigits2 m] binary digits. *)
Lemma Zdigits2_bounds (m : Z) :
  0 < m -> 2 ^ (Zdigits2 m - 1) <= m < 2 ^ Zdigits2 m.
Proof.
  intros Hm. rewrite Zdigits2_log2 by assumption.
  pose proof (Z.log2_spec m Hm) as H.
  replace (Z.log2 m + 1 - 1) with (Z.log2 m) by lia.
  replace (Z.log2 m + 1) with (Z.succ (Z.log2 m)) by lia. exact H.
Qed.

Lemma Zdigits2_unique (m d : Z) :
  2 ^ (d - 1) <= m < 2 ^ d -> 0 < m -> Zdigits2 m = d.
Proof.
  intros H Hm. rewrite Zdigits2_log2 by assumption.
  assert (0 < d).
  { destruct (Z.lt_ge_cases 0 d) as [|Hd]; [assumption |].
    assert (2 ^ d <= 2 ^ 0) by (apply Z.pow_le_mono_r; lia).
    change (2 ^ 0) with 1 in *. lia. }
  rewrite (Z.log2_unique m (d - 1)); [lia | lia |].
  replace (Z.succ (d - 1)) with d by lia. exact H.
Qed.

Lemma pow2_pos (n : Z) : 0 <= n -> 0 < 2 ^ n.
Proof. intros. apply Z.pow_pos_nonneg; lia. Qed.

Lemma pow2_split (a b : Z) : 0 <= a -> 0 <= b -> 2 ^ (a + b) = 2 ^ a * 2 ^ b.
Proof. intros. apply Z.pow_add_r; assumption. Qed.

End Digits.

Section ShiftRight.

Lemma iter_pos_nat {A : Type} (f : A -> A) (p : positive) (x : A) :
  iter_pos f p x = Nat.iter (Pos.to_nat p) f x.
Proof.
  revert x. induction p as [p IH | p IH |]; intros x; cbn [iter_pos].
  - rewrite !IH, Pos2Nat.inj_xI.
    replace (S (2 * Pos.to_nat p)) with (Pos.to_nat p + (Pos.to_nat p + 1))%nat by lia.
    rewrite !Nat.iter_add. reflexivity.
  - rewrite !IH, Pos2Nat.inj_xO.
    replace (2 * Pos.to_nat p)%nat with (Pos.to_nat p + Pos.to_nat p)%nat by lia.
    rewrite Nat.iter_add. reflexivity.
  - reflexivity.
Qed.

(** One step: halve the mantissa, remember the bit shifted out and
    whether anything was shifted out before. *)
Lemma shr_1_nonneg (m : Z) (r s : bool) :
  0 <= m ->
  shr_1 (Build_shr_record m r s) = Build_shr_record (m / 2) (Z.odd m) (r || s).
Proof.
  intros Hm. destruct m as [| p | p]; [reflexivity | | lia].
  destruct p as [p | p |]; cbn [shr_1].
  - f_equal. change (Zpos p~1) with (2 * Zpos p + 1).
    apply Z.div_unique with 1; lia.
  - f_equal. change (Zpos p~0) with (2 * Zpos p).
    apply Z.div_unique with 0; lia.
  - reflexivity.
Qed.

End ShiftRight.

Section Rounding.

Lemma emin64_value : emin64 = -1074.
Proof. reflexivity. Qed.

Lemma fexp64_unfold (x : Z) : fexp64 x = Z.max (x - 53) (-1074).
Proof. reflexivity. Qed.

Lemma shr_iter_spec (m : Z) (k : nat) :
  0 <= m ->
  exists q R r s,
    Nat.iter k shr_1 (Build_shr_record m false false) = Build_shr_record q r s
    /\ m = q * 2 ^ Z.of_nat k + R
    /\ 0 <= R < 2 ^ Z.of_nat k
    /\ 0 <= q
    /\ shr_bits_ok R (2 ^ Z.of_nat k) r s.
Proof.
  intros Hm. induction k as [| k IH].
  - exists m, 0, false, false. cbn. repeat split; lia.
  - destruct IH as (q & R & r & s & Hit & Hmq & HR & Hq & Hbits).
    rewrite Nat.iter_succ, Hit, shr_1_nonneg by assumption.
    replace (Z.of_nat (S k)) with (Z.of_nat k + 1) by lia.
    rewrite pow2_split by lia. change (2 ^ 1) with 2.
    set (P := 2 ^ Z.of_nat k) in *.
    assert (HP : 0 < P) by (apply pow2_pos; lia).
    clearbody P.
    pose proof (Z.div_mod q 2 ltac:(lia)) as Hq2.
    rewrite Zmod_odd in Hq2.
    assert (Hq2pos : 0 <= q / 2) by (apply Z.div_pos; lia).
    set (h := q / 2) in *. clearbody h.
    destruct (Z.odd q).
    + exists h, (R + P), true, (r || s).
      split; [reflexivity |]. split; [rewrite Hmq, Hq2; ring |]. split; [lia |].
      split; [assumption |].
      unfold shr_bits_ok in *. destruct r, s; cbn [orb]; lia.
    + exists h, R, false, (r || s).
      split; [reflexivity |]. split; [rewrite Hmq, Hq2; ring |]. split; [lia |].
      split; [assumption |].
      unfold shr_bits_ok in *. destruct r, s; cbn [orb]; lia.
Qed.

(** [shr] by [n >= 0] bits. *)
Lemma shr_spec (m e n : Z) :
  0 <= m -> 0 <= n ->
  exists q R r s,
    shr (Build_shr_record m false false) e n = (Build_shr_record q r s, e + n)
    /\ m = q * 2 ^ n + R
    /\ 0 <= R < 2 ^ n
    /\ 0 <= q
    /\ shr_bits_ok R (2 ^ n) r s.
Proof.
  intros Hm Hn. destruct n as [| p | p]; [| | lia].
  - exists m, 0, false, false. cbn. rewrite Z.add_0_r. repeat split; lia.
  - destruct (shr_iter_spec m (Pos.to_nat p) Hm)
      as (q & R & r & s & Hit & Hmq & HR & Hq & Hbits).
    rewrite positive_nat_Z in *.
    exists q, R, r, s. cbn [shr]. rewrite iter_pos_nat, Hit.
    repeat split; try assumption; lia.
Qed.

(** A shift that loses nothing. *)
Lemma shr_exact (m e n : Z) :
  0 <= m -> 0 <= n -> (2 ^ n | m) ->
  shr (Build_shr_record m false false) e n
  = (Build_shr_record (m / 2 ^ n) false false, e + n).
Proof.
  intros Hm Hn [c Hc].
  destruct (shr_spec m e n Hm Hn) as (q & R & r & s & Hs & Hmq & HR & Hq & Hbits).
  assert (HP : 0 < 2 ^ n) by (apply pow2_pos; lia).
  assert (HR0 : R = 0).
  { set (P := 2 ^ n) in *. clearbody P.
    assert (HRc : R = (c - q) * P) by (rewrite Z.mul_sub_distr_r; lia).
    assert (c - q < 1) by nia. assert (-1 < c - q) by nia.
    replace (c - q) with 0 in HRc by lia. lia. }
  subst R. rewrite Hs.
  assert (q = m / 2 ^ n) by (apply Z.div_unique with 0; lia).
  subst q.
  unfold shr_bits_ok in Hbits. destruct r, s; try lia. reflexivity.
Qed.

(** Rounding to nearest: at most half a unit away. *)
Lemma round_nearest_even_spec (q R P : Z) (r s : bool) :
  0 < P -> 0 <= R < P -> shr_bits_ok R P r s ->
  let q' := round_nearest_even q (loc_of_shr_record (Build_shr_record q r s)) in
  q <= q' <= q + 1 /\ 2 * Z.abs (q' * P - (q * P + R)) <= P.
Proof.
  intros HP HR Hbits.
  unfold shr_bits_ok in Hbits.
  destruct r, s; cbn [loc_of_shr_record round_nearest_even];
    try destruct (Z.even q); cbn zeta;
    (split; [lia |]);
    first [ replace (q * P - (q * P + R)) with (- R) by ring
          | replace ((q + 1) * P - (q * P + R)) with (P - R) by ring ];
    lia.
Qed.


(** The end of [binary_round_aux]: a mantissa that is already canonical
    is kept. *)
Lemma round_finish_keep (s : bool) (M E : Z) :
  0 <= M -> emin64 <= E -> E <= emax - prec ->
  (M = 0 \/ fexp64 (Zdigits2 M + E) = E) ->
  (let '(mrs, e) := shr_fexp prec emax M E loc_Exact in
   match shr_m mrs with
   | Z0 => S754_zero s
   | Zpos p => if e <=? emax - prec then S754_finite s p e else S754_infinity s
   | Zneg _ => S754_nan
   end) = mkfloat s M E
  /\ valid_binary prec emax (mkfloat s M E) = true.
Proof.
  intros HM HE HEmax Hcanon.
  unfold shr_fexp. cbn [shr_record_of_loc].
  change (fexp prec emax) with fexp64.
  assert (Hn : fexp64 (Zdigits2 M + E) - E <= 0).
  { destruct Hcanon as [-> | ->]; [| lia].
    cbn [Zdigits2]. rewrite fexp64_unfold. rewrite emin64_value in HE. lia. }
  assert (Hshr : shr (Build_shr_record M false false) E
                   (fexp64 (Zdigits2 M + E) - E)
                 = (Build_shr_record M false false, E)).
  { destruct (fexp64 (Zdigits2 M + E) - E); try reflexivity. lia. }
  rewrite Hshr. cbn [shr_m].
  destruct M as [| p | p]; [split; reflexivity | | lia].
  cbn [mkfloat valid_binary].
  apply Z.leb_le in HEmax. rewrite HEmax. split; [reflexivity |].
  unfold bounded, canonical_mantissa.
  destruct Hcanon as [H | H]; [discriminate |].
  change (fexp prec emax) with fexp64. cbn [Zdigits2] in H.
  rewrite H, Z.eqb_refl, HEmax. reflexivity.
Qed.

(** The end of [binary_round_aux] when rounding up produced one digit
    too many: the mantissa is halved, exactly. *)
Lemma round_finish_halve (s : bool) (M E : Z) :
  0 < M -> E + 1 <= emax - prec ->
  fexp64 (Zdigits2 (2 * M) + E) = E + 1 ->
  fexp64 (Zdigits2 M + (E + 1)) = E + 1 ->
  (let '(mrs, e) := shr_fexp prec emax (2 * M) E loc_Exact in
   match shr_m mrs with
   | Z0 => S754_zero s
   | Zpos p => if e <=? emax - prec then S754_finite s p e else S754_infinity s
   | Zneg _ => S754_nan
   end) = mkfloat s M (E + 1)
  /\ valid_binary prec emax (mkfloat s M (E + 1)) = true.
Proof.
  intros HM HEmax Hshift Hcanon.
  unfold shr_fexp. cbn [shr_record_of_loc].
  change (fexp prec emax) with fexp64.
  rewrite Hshift. replace (E + 1 - E) with 1 by lia.
  rewrite shr_exact; [| lia | lia | exists M; change (2 ^ 1) with 2; ring].
  change (2 ^ 1) with 2.
  replace (2 * M / 2) with M
    by (apply Z.div_unique with 0; lia).
  cbn [shr_m].
  destruct M as [| p | p]; try lia.
  cbn [mkfloat valid_binary].
  apply Z.leb_le in HEmax. rewrite HEmax. split; [reflexivity |].
  unfold bounded, canonical_mantissa.
  change (fexp prec emax) with fexp64. cbn [Zdigits2] in Hcanon.
  rewrite Hcanon, Z.eqb_refl, HEmax. reflexivity.
Qed.


(** The same two endings when the exponent is beyond the largest one:
    the result is an infinity. *)
Lemma round_finish_keep_over (s : bool) (M E : Z) :
  0 < M -> emax - prec < E ->
  fexp64 (Zdigits2 M + E) = E ->
  (let '(mrs, e) := shr_fexp prec emax M E loc_Exact in
   match shr_m mrs with
   | Z0 => S754_zero s
   | Zpos p => if e <=? emax - prec then S754_finite s p e else S754_infinity s
   | Zneg _ => S754_nan
   end) = S754_infinity s.
Proof.
  intros HM HE Hcanon.
  unfold shr_fexp. cbn [shr_record_of_loc].
  change (fexp prec emax) with fexp64.
  rewrite Hcanon, Z.sub_diag. cbn [shr shr_m].
  destruct M as [| p | p]; try lia.
  apply Z.leb_gt in HE. rewrite HE. reflexivity.
Qed.

Lemma round_finish_halve_over (s : bool) (M E : Z) :
  0 < M -> emax - prec < E + 1 ->
  fexp64 (Zdigits2 (2 * M) + E) = E + 1 ->
  (let '(mrs, e) := shr_fexp prec emax (2 * M) E loc_Exact in
   match shr_m mrs with
   | Z0 => S754_zero s
   | Zpos p => if e <=? emax - prec then S754_finite s p e else S754_infinity s
   | Zneg _ => S754_nan
   end) = S754_infinity s.
Proof.
  intros HM HE Hshift.
  unfold shr_fexp. cbn [shr_record_of_loc].
  change (fexp prec emax) with fexp64.
  rewrite Hshift. replace (E + 1 - E) with 1 by lia.
  rewrite shr_exact; [| lia | lia | exists M; change (2 ^ 1) with 2; ring].
  change (2 ^ 1) with 2.
  replace (2 * M / 2) with M by (apply Z.div_unique with 0; lia).
  cbn [shr_m].
  destruct M as [| p | p]; try lia.
  apply Z.leb_gt in HE. rewrite HE. reflexivity.
Qed.

(** [binary_round_aux] on an exact positive mantissa with at least the
    canonical number of digits.  Either the result overflows, or it is a
    valid finite float whose value, counted in units of [2^e], is within
    half of the last place [2^(E - e)] of [m], where [E] is the canonical
    exponent of [m * 2^e]. *)
Lemma binary_round_aux_spec (s : bool) (m e : Z) :
  0 < m ->
  e <= fexp64 (Zdigits2 m + e) ->
  (binary_round_aux prec emax s m e loc_Exact = S754_infinity s
   /\ emax <= Zdigits2 m + e)
  \/
  exists M E',
    binary_round_aux prec emax s m e loc_Exact = mkfloat s M E'
    /\ 0 <= M
    /\ fexp64 (Zdigits2 m + e) <= E'
    /\ valid_binary prec emax (mkfloat s M E') = true
    /\ 2 * Z.abs (M * 2 ^ (E' - e) - m) <= 2 ^ (fexp64 (Zdigits2 m + e) - e).
Proof.
  intros Hm Hn.
  pose proof (Zdigits2_bounds m Hm) as Hd.
  pose proof (Zdigits2_pos m Hm) as Hdpos.
  set (d := Zdigits2 m) in *.
  set (E := fexp64 (d + e)) in *.
  assert (HE : E = Z.max (d + e - 53) (-1074)) by apply fexp64_unfold.
  destruct (shr_spec m e (E - e) ltac:(lia) ltac:(lia))
    as (q & R & r & s0 & Hs & Hmq & HR & Hq & Hbits).
  assert (Hbra :
    binary_round_aux prec emax s m e loc_Exact
    = let '(mrs, e0) :=
        shr_fexp prec emax
          (round_nearest_even q (loc_of_shr_record (Build_shr_record q r s0)))
          E loc_Exact in
      match shr_m mrs with
      | Z0 => S754_zero s
      | Zpos p => if e0 <=? emax - prec then S754_finite s p e0 else S754_infinity s
      | Zneg _ => S754_nan
      end).
  { unfold binary_round_aux, shr_fexp at 1. cbn [shr_record_of_loc].
    change (fexp prec emax (Zdigits2 m + e)) with E.
    rewrite Hs. cbn [shr_m].
    replace (e + (E - e)) with E by lia. reflexivity. }
  rewrite Hbra. clear Hbra.
  assert (HP : 0 < 2 ^ (E - e)) by (apply pow2_pos; lia).
  pose proof (round_nearest_even_spec q R (2 ^ (E - e)) r s0 HP HR Hbits)
    as [Hq' Herr].
  cbn zeta in Hq', Herr.
  set (q' := round_nearest_even q (loc_of_shr_record (Build_shr_record q r s0))) in *.
  clearbody q'. rewrite <- Hmq in Herr.
  set (n := E - e) in *.
  set (P := 2 ^ n) in *.
  destruct (Z.le_gt_cases d n) as [Hdn | Hdn].
  - (* everything is shifted out: zero or the smallest subnormal *)
    right.
    assert (H2d : 2 ^ d <= P) by (apply Z.pow_le_mono_r; lia).
    assert (q = 0) by nia. subst q.
    assert (HEmin : E = -1074) by lia.
    assert (Hq01 : q' = 0 \/ q' = 1) by lia.
    destruct (round_finish_keep s q' E) as [Hres Hval];
      [lia | rewrite emin64_value; lia | unfold emax, prec; lia | |].
    { destruct Hq01 as [-> | ->]; [left; reflexivity | right].
      cbn [Zdigits2 digits2_pos]. rewrite fexp64_unfold. lia. }
    exists q', E. rewrite Hres.
    repeat split; try assumption; try lia.
  - (* the usual case: [d - n] digits are kept *)
    set (A := 2 ^ (d - 1 - n)).
    assert (HA : 0 < A) by (apply pow2_pos; lia).
    assert (HAP : 2 ^ (d - 1) = A * P).
    { unfold A, P. rewrite <- pow2_split by lia. f_equal. lia. }
    assert (H2AP : 2 ^ d = 2 * A * P).
    { replace d with (1 + (d - 1)) at 1 by lia.
      rewrite pow2_split by lia. change (2 ^ 1) with 2. lia. }
    assert (HqA : A <= q < 2 * A) by nia.
    assert (Hq'A : A <= q' <= 2 * A) by lia.
    assert (H2A : 2 ^ (d - n) = 2 * A).
    { replace (d - n) with (1 + (d - 1 - n)) by lia.
      rewrite pow2_split by lia. reflexivity. }
    destruct (Z.eq_dec q' (2 * A)) as [Htop | Htop].
    + (* rounding up reached the next power of two *)
      assert (Hdig : Zdigits2 q' = d - n + 1).
      { apply Zdigits2_unique; [| lia].
        replace (d - n + 1 - 1) with (d - n) by lia.
        replace (d - n + 1) with (1 + (d - n)) by lia.
        rewrite (pow2_split 1) by lia. change (2 ^ 1) with 2. lia. }
      destruct (Z.eq_dec (fexp64 (Zdigits2 q' + E)) E) as [Hsame | Hdiff].
      * (* subnormal range: the exponent stays *)
        assert (HEmin : E = -1074) by (rewrite Hdig, fexp64_unfold in Hsame; lia).
        right.
        destruct (round_finish_keep s q' E) as [Hres Hval];
          [lia | rewrite emin64_value; lia | unfold emax, prec; lia
          | right; assumption |].
        exists q', E. rewrite Hres.
        repeat split; try assumption; try lia.
      * assert (Hup : fexp64 (Zdigits2 q' + E) = E + 1).
        { rewrite Hdig, fexp64_unfold in *. lia. }
        assert (HdigA : Zdigits2 A = d - n).
        { apply Zdigits2_unique; [| lia].
          replace (d - n - 1) with (d - 1 - n) by lia. fold A. lia. }
        rewrite Htop in *.
        destruct (Z.le_gt_cases (E + 1) (emax - prec)) as [Hfit | Hover].
        -- right.
           destruct (round_finish_halve s A E) as [Hres Hval];
             [lia | assumption | assumption | |].
           { rewrite HdigA, fexp64_unfold.
             rewrite Hdig, fexp64_unfold in Hup. lia. }
           exists A, (E + 1). rewrite Hres.
           repeat split; try assumption; try lia.
           replace (E + 1 - e) with (1 + n) by lia.
           rewrite pow2_split by lia. change (2 ^ 1) with 2. fold P.
           replace (A * (2 * P)) with (2 * A * P) by ring. exact Herr.
        -- left. split.
           ++ apply round_finish_halve_over; [lia | lia | assumption].
           ++ unfold emax, prec in *.
              rewrite Hdig, fexp64_unfold in Hup. lia.
    + assert (Hdig : Zdigits2 q' = d - n).
      { apply Zdigits2_unique; [| lia].
        replace (d - n - 1) with (d - 1 - n) by lia. fold A. lia. }
      assert (Hcanon : fexp64 (Zdigits2 q' + E) = E).
      { rewrite Hdig. replace (d - n + E) with (d + e) by lia. reflexivity. }
      destruct (Z.le_gt_cases E (emax - prec)) as [Hfit | Hover].
      * right.
        destruct (round_finish_keep s q' E) as [Hres Hval];
          [lia | rewrite emin64_value; lia | assumption | right; assumption |].
        exists q', E. rewrite Hres.
        repeat split; try assumption; try lia.
      * left. split.
        -- apply round_finish_keep_over; [lia | assumption | assumption].
        -- unfold emax, prec in *. lia.
Qed.

End Rounding.

(** ** Dyadic rationals *)

Section Dyadic.
Local Open Scope Q_scope.

Lemma Q2_pos (e : Z) : 0 < 2 ^ e.
Proof. apply Qpower_0_lt. reflexivity. Qed.

Lemma Q2_add (a b : Z) : 2 ^ (a + b) == 2 ^ a * 2 ^ b.
Proof. apply Qpower_plus. discriminate. Qed.

Lemma Q2_Z (e : Z) : (0 <= e)%Z -> 2 ^ e == inject_Z (2 ^ e).
Proof. intros He. rewrite Zpower_Qpower by assumption. reflexivity. Qed.

Lemma Q2_le (a b : Z) : (a <= b)%Z -> 2 ^ a <= 2 ^ b.
Proof. intros H. apply Qpower_le_compat_l; [assumption | discriminate]. Qed.

Lemma Q2_lt (a b : Z) : (a < b)%Z -> 2 ^ a < 2 ^ b.
Proof. intros H. apply Qpower_lt_compat_l; [assumption | reflexivity]. Qed.

Lemma Q2_lt_inv (a b : Z) : 2 ^ a < 2 ^ b -> (a < b)%Z.
Proof. intros H. apply (Qpower_lt_compat_l_inv 2); [assumption | reflexivity]. Qed.

Lemma Q2_le_inv (a b : Z) : 2 ^ a <= 2 ^ b -> (a <= b)%Z.
Proof. intros H. apply (Qpower_le_compat_l_inv 2); [assumption | reflexivity]. Qed.

Lemma Q2_succ (e : Z) : 2 ^ (e + 1) == 2 ^ e * 2.
Proof. rewrite Q2_add. reflexivity. Qed.

Lemma Q2_pred (e : Z) : 2 ^ (e - 1) * 2 == 2 ^ e.
Proof.
  rewrite <- (Q2_succ (e - 1)). replace (e - 1 + 1)%Z with e by lia. reflexivity.
Qed.

Lemma F2Q_shift (m a b : Z) :
  (a <= b)%Z -> F2Q m b == F2Q (m * 2 ^ (b - a)) a.
Proof.
  intros H. unfold F2Q.
  rewrite inject_Z_mult, <- Q2_Z by lia.
  rewrite <- Qmult_assoc, <- Q2_add.
  replace (b - a + a)%Z with b by lia. reflexivity.
Qed.

Lemma F2Q_add (m m' e : Z) : F2Q m e + F2Q m' e == F2Q (m + m') e.
Proof. unfold F2Q. rewrite inject_Z_plus. ring. Qed.

Lemma F2Q_opp (m e : Z) : - F2Q m e == F2Q (- m) e.
Proof. unfold F2Q. rewrite inject_Z_opp. ring. Qed.

Lemma F2Q_sub (m m' e : Z) : F2Q m e - F2Q m' e == F2Q (m - m') e.
Proof. unfold F2Q, Z.sub. rewrite inject_Z_plus, inject_Z_opp. ring. Qed.

Lemma F2Q_0 (e : Z) : F2Q 0 e == 0.
Proof. unfold F2Q. ring. Qed.

Lemma F2Q_1 (e : Z) : F2Q 1 e == 2 ^ e.
Proof. unfold F2Q. ring. Qed.

Lemma F2Q_le (m m' e : Z) : (m <= m')%Z <-> F2Q m e <= F2Q m' e.
Proof.
  unfold F2Q. pose proof (Q2_pos e) as Hp. split; intros H.
  - apply Qmult_le_compat_r; [| lra]. rewrite <- Zle_Qle. assumption.
  - apply Qmult_le_r in H; [| assumption]. rewrite <- Zle_Qle in H. assumption.
Qed.

Lemma F2Q_lt (m m' e : Z) : (m < m')%Z <-> F2Q m e < F2Q m' e.
Proof.
  unfold F2Q. pose proof (Q2_pos e) as Hp. split; intros H.
  - apply Qmult_lt_compat_r; [assumption |]. rewrite <- Zlt_Qlt. assumption.
  - apply Qmult_lt_r in H; [| assumption]. rewrite <- Zlt_Qlt in H. assumption.
Qed.

Lemma F2Q_eq (m m' e : Z) : m = m' <-> F2Q m e == F2Q m' e.
Proof.
  split; [intros ->; reflexivity |]. intros H.
  assert (m <= m')%Z by (apply (F2Q_le m m' e); rewrite H; apply Qle_refl).
  assert (m' <= m)%Z by (apply (F2Q_le m' m e); rewrite H; apply Qle_refl).
  lia.
Qed.

Lemma F2Q_abs (m e : Z) : Qabs (F2Q m e) == F2Q (Z.abs m) e.
Proof.
  unfold F2Q. rewrite Qabs_Qmult, (Qabs_pos (2 ^ e)).
  - apply Qmult_comp; [| reflexivity].
    destruct m; reflexivity.
  - apply Qlt_le_weak, Q2_pos.
Qed.

(** ** Multiples of a power of two *)

Lemma multiple_F2Q (z g : Z) : multiple_of_pow2 (F2Q z g) g.
Proof. exists z. reflexivity. Qed.

Lemma multiple_wd (x y : Q) (g : Z) :
  x == y -> multiple_of_pow2 x g -> multiple_of_pow2 y g.
Proof. intros H [z Hz]. exists z. rewrite <- H. assumption. Qed.

#[global] Instance multiple_of_pow2_proper :
  Proper (Qeq ==> eq ==> iff) multiple_of_pow2.
Proof.
  intros x y Hxy g g' <-. split; apply multiple_wd; [| symmetry]; assumption.
Qed.

Lemma multiple_finer (x : Q) (g g' : Z) :
  (g' <= g)%Z -> multiple_of_pow2 x g -> multiple_of_pow2 x g'.
Proof.
  intros H [z Hz]. exists (z * 2 ^ (g - g'))%Z.
  rewrite Hz. apply F2Q_shift. assumption.
Qed.

Lemma multiple_0 (g : Z) : multiple_of_pow2 0 g.
Proof. exists 0%Z. symmetry. apply F2Q_0. Qed.

Lemma multiple_plus (x y : Q) (g : Z) :
  multiple_of_pow2 x g -> multiple_of_pow2 y g -> multiple_of_pow2 (x + y) g.
Proof.
  intros [a Ha] [b Hb]. exists (a + b)%Z. rewrite Ha, Hb. apply F2Q_add.
Qed.

Lemma multiple_opp (x : Q) (g : Z) :
  multiple_of_pow2 x g -> multiple_of_pow2 (- x) g.
Proof. intros [a Ha]. exists (- a)%Z. rewrite Ha. apply F2Q_opp. Qed.

Lemma multiple_minus (x y : Q) (g : Z) :
  multiple_of_pow2 x g -> multiple_of_pow2 y g -> multiple_of_pow2 (x - y) g.
Proof.
  intros Hx Hy. unfold Qminus. apply multiple_plus; [| apply multiple_opp]; assumption.
Qed.

Lemma multiple_abs (x : Q) (g : Z) :
  multiple_of_pow2 x g -> multiple_of_pow2 (Qabs x) g.
Proof.
  intros [a Ha]. exists (Z.abs a). rewrite Ha. apply F2Q_abs.
Qed.

Lemma multiple_pow2 (j g : Z) : (g <= j)%Z -> multiple_of_pow2 (2 ^ j) g.
Proof.
  intros H. apply multiple_finer with j; [assumption |].
  exists 1%Z. symmetry. apply F2Q_1.
Qed.

Lemma multiple_inject_Z (z g : Z) : (g <= 0)%Z -> multiple_of_pow2 (inject_Z z) g.
Proof.
  intros H. apply multiple_finer with 0%Z; [assumption |].
  exists z. unfold F2Q. change (2 ^ 0) with 1. ring.
Qed.

(** A multiple of [2^g] strictly between [-2^g] and [2^g] is zero. *)
Lemma multiple_small (x : Q) (g : Z) :
  multiple_of_pow2 x g -> Qabs x < 2 ^ g -> x == 0.
Proof.
  intros [z Hz] Hx. rewrite Hz in *.
  rewrite F2Q_abs, <- F2Q_1 in Hx. apply F2Q_lt in Hx.
  assert (z = 0%Z) by lia. subst z. apply F2Q_0.
Qed.

(** A multiple of [2^g] above [-2^g] is not negative. *)
Lemma multiple_nonneg (x : Q) (g : Z) :
  multiple_of_pow2 x g -> - 2 ^ g < x -> 0 <= x.
Proof.
  intros [z Hz] Hx. rewrite Hz in *.
  rewrite <- F2Q_1, F2Q_opp in Hx. apply F2Q_lt in Hx.
  rewrite <- (F2Q_0 g). apply F2Q_le. lia.
Qed.

End Dyadic.

(** ** Consequences of [rounds_to] *)

Section RoundsTo.
Local Open Scope Q_scope.

Lemma Qabs_cases (x : Q) :
  (0 <= x /\ Qabs x == x) \/ (x <= 0 /\ Qabs x == - x).
Proof.
  destruct (Qlt_le_dec x 0) as [H | H].
  - right. split; [lra |]. apply Qabs_neg. lra.
  - left. split; [assumption |]. apply Qabs_pos. assumption.
Qed.

Lemma rounds_to_wd (v v' : Q) (f : float) :
  v == v' -> rounds_to v f -> rounds_to v' f.
Proof.
  intros Hv [Hfin Hval (E & HE & Hgrid & Herr & Hub & Hlb)].
  split; [assumption | assumption |].
  exists E. rewrite <- Hv. repeat split; assumption.
Qed.

Variables (v : Q) (f : float).
Hypothesis Hround : rounds_to v f.

(** The grid exponent is the one the magnitude of [v] calls for. *)
Lemma rounds_to_exponent (k : Z) :
  (emin64 + prec <= k)%Z -> Qabs v < 2 ^ k ->
  exists E : Z,
    (emin64 <= E <= k - prec)%Z
    /\ multiple_of_pow2 (SF2Q f) E
    /\ Qabs (SF2Q f - v) * 2 <= 2 ^ E.
Proof.
  intros Hk Hv.
  destruct (rt_round _ _ Hround) as (E & HE & Hgrid & Herr & Hub & Hlb).
  exists E. repeat split; try assumption.
  destruct Hlb as [-> | Hlb]; [lia |].
  assert (2 ^ (E + prec - 1) < 2 ^ k) by lra.
  apply Q2_lt_inv in H. lia.
Qed.

Lemma rounds_to_error (k : Z) :
  (emin64 + prec <= k)%Z -> Qabs v < 2 ^ k ->
  Qabs (SF2Q f - v) <= 2 ^ (k - prec - 1).
Proof.
  intros Hk Hv.
  destruct (rounds_to_exponent k Hk Hv) as (E & HE & _ & Herr).
  pose proof (Q2_le E (k - prec) ltac:(lia)).
  pose proof (Q2_pred (k - prec)).
  lra.
Qed.

Lemma rounds_to_exact (k : Z) :
  (emin64 + prec <= k)%Z -> Qabs v < 2 ^ k ->
  multiple_of_pow2 v (k - prec) ->
  SF2Q f == v.
Proof.
  intros Hk Hv Hmul.
  destruct (rounds_to_exponent k Hk Hv) as (E & HE & Hgrid & Herr).
  assert (Hd : SF2Q f - v == 0).
  { apply multiple_small with E.
    - apply multiple_minus; [assumption |].
      apply multiple_finer with (k - prec)%Z; [lia | assumption].
    - pose proof (Q2_pos E). pose proof (Qabs_nonneg (SF2Q f - v)). lra. }
  lra.
Qed.

Lemma rounds_to_grid (g : Z) :
  multiple_of_pow2 v g -> multiple_of_pow2 (SF2Q f) g.
Proof.
  intros Hmul.
  destruct (rt_round _ _ Hround) as (E & HE & Hgrid & Herr & Hub & Hlb).
  destruct (Z.le_gt_cases g E) as [Hg | Hg].
  - apply multiple_finer with E; assumption.
  - assert (Hd : SF2Q f - v == 0).
    { apply multiple_small with E.
      - apply multiple_minus; [assumption |].
        apply multiple_finer with g; [lia | assumption].
      - pose proof (Q2_pos E). pose proof (Qabs_nonneg (SF2Q f - v)). lra. }
    apply multiple_wd with v; [lra | assumption].
Qed.

Lemma rounds_to_lower (j : Z) :
  (emin64 <= j)%Z -> 2 ^ j <= Qabs v -> 2 ^ j <= Qabs (SF2Q f).
Proof.
  intros Hj Hv.
  destruct (rt_round _ _ Hround) as (E & HE & Hgrid & Herr & Hub & Hlb).
  assert (HJ : exists J, (j <= J)%Z /\ (E <= J)%Z /\ 2 ^ J <= Qabs v).
  { destruct (Z.le_gt_cases E j) as [HEj | HEj].
    - exists j. repeat split; [lia | assumption | assumption].
    - exists E. repeat split; [lia | lia |].
      destruct Hlb as [-> | Hlb]; [lia |].
      pose proof (Q2_le E (E + prec - 1) ltac:(unfold prec; lia)). lra. }
  destruct HJ as (J & HjJ & HEJ & HJv).
  assert (Hnn : 0 <= Qabs (SF2Q f) - 2 ^ J).
  { apply multiple_nonneg with E.
    - apply multiple_minus; [apply multiple_abs; assumption |].
      apply multiple_pow2. assumption.
    - pose proof (Q2_pos E).
      destruct (Qabs_cases (SF2Q f - v)) as [[? Ha] | [? Ha]];
      destruct (Qabs_cases (SF2Q f)) as [[? Hb] | [? Hb]];
      destruct (Qabs_cases v) as [[? Hc] | [? Hc]]; lra. }
  pose proof (Q2_le j J HjJ). lra.
Qed.

Lemma rounds_to_nonneg : 0 <= v -> 0 <= SF2Q f.
Proof.
  intros Hv.
  destruct (rt_round _ _ Hround) as (E & HE & Hgrid & Herr & Hub & Hlb).
  apply multiple_nonneg with E; [assumption |].
  pose proof (Q2_pos E).
  destruct (Qabs_cases (SF2Q f - v)) as [[? Ha] | [? Ha]]; lra.
Qed.

Lemma rounds_to_nonpos : v <= 0 -> SF2Q f <= 0.
Proof.
  intros Hv.
  destruct (rt_round _ _ Hround) as (E & HE & Hgrid & Herr & Hub & Hlb).
  assert (0 <= - SF2Q f); [| lra].
  apply multiple_nonneg with E; [apply multiple_opp; assumption |].
  pose proof (Q2_pos E).
  destruct (Qabs_cases (SF2Q f - v)) as [[? Ha] | [? Ha]]; lra.
Qed.

End RoundsTo.

(** ** The operations round *)

Section Operations.
Local Open Scope Q_scope.

Lemma cond_Zopp_abs (s : bool) (m : Z) : Z.abs (cond_Zopp s m) = Z.abs m.
Proof. destruct s; cbn [cond_Zopp]; lia. Qed.

Lemma cond_Zopp_mul (s : bool) (m k : Z) :
  (cond_Zopp s m * k)%Z = cond_Zopp s (m * k).
Proof. destruct s; cbn [cond_Zopp]; lia. Qed.

Lemma cond_Zopp_sub (s : bool) (a b : Z) :
  (cond_Zopp s a - cond_Zopp s b)%Z = cond_Zopp s (a - b).
Proof. destruct s; cbn [cond_Zopp]; lia. Qed.

Lemma F2Q_pow2 (a e : Z) : (0 <= a)%Z -> F2Q (2 ^ a) e == 2 ^ (a + e).
Proof.
  intros Ha. unfold F2Q. rewrite <- Q2_Z by assumption.
  rewrite Q2_add. reflexivity.
Qed.

Lemma SF2Q_mkfloat (s : bool) (M E : Z) :
  (0 <= M)%Z -> SF2Q (mkfloat s M E) == F2Q (cond_Zopp s M) E.
Proof.
  intros HM. destruct M as [| p | p]; [| reflexivity | lia].
  cbn [mkfloat SF2Q]. destruct s; cbn [cond_Zopp Z.opp]; symmetry; apply F2Q_0.
Qed.

Lemma is_finite_mkfloat (s : bool) (M E : Z) : is_finite (mkfloat s M E) = true.
Proof. destruct M; reflexivity. Qed.

(** The magnitude of [m * 2^e] by the number of digits of [m]. *)
Lemma F2Q_digits_bounds (m e : Z) :
  (0 < m)%Z ->
  2 ^ (Zdigits2 m + e - 1) <= F2Q m e /\ F2Q m e < 2 ^ (Zdigits2 m + e).
Proof.
  intros Hm. pose proof (Zdigits2_bounds m Hm) as [Hlo Hhi].
  pose proof (Zdigits2_pos m Hm).
  split.
  - replace (Zdigits2 m + e - 1)%Z with (Zdigits2 m - 1 + e)%Z by lia.
    rewrite <- F2Q_pow2 by lia. apply F2Q_le. assumption.
  - rewrite <- F2Q_pow2 by lia. apply F2Q_lt. assumption.
Qed.

Lemma rounds_to_zero (s : bool) : rounds_to 0 (S754_zero s).
Proof.
  split; [reflexivity | reflexivity |].
  exists emin64. split; [lia |]. split; [apply multiple_0 |].
  cbn [SF2Q]. split; [| split].
  - pose proof (Q2_pos emin64). setoid_replace (0 - 0) with 0 by ring.
    cbn [Qabs]. change (Qabs 0) with 0. lra.
  - change (Qabs 0) with 0. apply Q2_pos.
  - left. reflexivity.
Qed.

Lemma binary_round_aux_rounds (s : bool) (m e : Z) :
  (0 < m)%Z ->
  (e <= fexp64 (Zdigits2 m + e))%Z ->
  rounds_or_overflows (F2Q (cond_Zopp s m) e)
    (binary_round_aux prec emax s m e loc_Exact).
Proof.
  intros Hm Hn.
  pose proof (F2Q_digits_bounds m e Hm) as [Hlo Hhi].
  assert (Habs : Qabs (F2Q (cond_Zopp s m) e) == F2Q m e).
  { rewrite F2Q_abs, cond_Zopp_abs, Z.abs_eq by lia. reflexivity. }
  set (d := Zdigits2 m) in *.
  assert (HE : fexp64 (d + e) = Z.max (d + e - 53) (-1074)) by apply fexp64_unfold.
  destruct (binary_round_aux_spec s m e Hm Hn)
    as [[Hinf Hbig] | (M & E' & Hres & HM & HE' & Hval & Herr)].
  - left. rewrite Hinf. split; [reflexivity |].
    rewrite Habs. fold d in Hbig.
    pose proof (Q2_le (emax - 1) (d + e - 1) ltac:(lia)). lra.
  - right. rewrite Hres. fold d in HE', Herr.
    set (E := fexp64 (d + e)) in *.
    split; [apply is_finite_mkfloat | exact Hval |].
    exists E. split; [rewrite emin64_value; lia |].
    rewrite SF2Q_mkfloat by assumption.
    split; [| split; [| split]].
    + exists (cond_Zopp s M * 2 ^ (E' - E))%Z. apply F2Q_shift. assumption.
    + rewrite (F2Q_shift (cond_Zopp s M) e E') by lia.
      rewrite F2Q_sub, cond_Zopp_mul, cond_Zopp_sub, F2Q_abs, cond_Zopp_abs.
      assert (H2 : F2Q (Z.abs (M * 2 ^ (E' - e) - m)) e * 2
                   == F2Q (2 * Z.abs (M * 2 ^ (E' - e) - m)) e).
      { unfold F2Q. rewrite inject_Z_mult. change (inject_Z 2) with 2. ring. }
      rewrite H2.
      assert (HpE : 2 ^ E == F2Q (2 ^ (E - e)) e).
      { rewrite F2Q_pow2 by lia.
        replace (E - e + e)%Z with E by lia. reflexivity. }
      rewrite HpE. apply F2Q_le. assumption.
    + rewrite Habs.
      pose proof (Q2_le (d + e) (E + prec) ltac:(unfold prec; lia)). lra.
    + destruct (Z.eq_dec E emin64) as [He | He]; [left; assumption | right].
      rewrite Habs. rewrite emin64_value in He.
      replace (E + prec - 1)%Z with (d + e - 1)%Z by (unfold prec; lia).
      assumption.
Qed.

Lemma Pos_iter_xO (p d : positive) :
  Zpos (Pos.iter xO p d) = (Zpos p * 2 ^ Zpos d)%Z.
Proof.
  induction d as [| d IH] using Pos.peano_ind.
  - cbn [Pos.iter]. lia.
  - rewrite Pos.iter_succ, Pos2Z.inj_xO, IH, Pos2Z.inj_succ.
    rewrite Z.pow_succ_r by lia. ring.
Qed.

Lemma shl_align_spec (mx : positive) (ex ex' : Z) :
  snd (shl_align mx ex ex') = Z.min ex ex'
  /\ Zpos (fst (shl_align mx ex ex'))
     = (Zpos mx * 2 ^ (ex - Z.min ex ex'))%Z.
Proof.
  unfold shl_align.
  destruct (ex' - ex)%Z as [| d | d] eqn:Hd; cbn [fst snd].
  - replace (Z.min ex ex') with ex by lia. rewrite Z.sub_diag. lia.
  - replace (Z.min ex ex') with ex by lia. rewrite Z.sub_diag. lia.
  - replace (Z.min ex ex') with ex' by lia.
    rewrite Pos_iter_xO. replace (ex - ex')%Z with (Zpos d) by lia.
    split; reflexivity.
Qed.

Lemma Zdigits2_mul_pow2 (m k : Z) :
  (0 < m)%Z -> (0 <= k)%Z -> Zdigits2 (m * 2 ^ k) = (Zdigits2 m + k)%Z.
Proof.
  intros Hm Hk. pose proof (Zdigits2_bounds m Hm) as [Hlo Hhi].
  pose proof (Zdigits2_pos m Hm).
  assert (0 < 2 ^ k)%Z by (apply pow2_pos; assumption).
  apply Zdigits2_unique; [| nia].
  replace (Zdigits2 m + k - 1)%Z with (Zdigits2 m - 1 + k)%Z by lia.
  rewrite !pow2_split by lia. nia.
Qed.

Lemma binary_round_rounds (s : bool) (mx : positive) (ex : Z) :
  rounds_or_overflows (F2Q (cond_Zopp s (Zpos mx)) ex)
    (binary_round prec emax s mx ex).
Proof.
  unfold binary_round.
  pose proof (shl_align_spec mx ex (fexp prec emax (Zpos (digits2_pos mx) + ex)))
    as [Hez Hmz].
  destruct (shl_align mx ex (fexp prec emax (Zpos (digits2_pos mx) + ex)))
    as [mz ez].
  cbn [fst snd] in Hez, Hmz.
  rewrite <- Hez in Hmz.
  change (Zpos (digits2_pos mx)) with (Zdigits2 (Zpos mx)) in Hez.
  change (fexp prec emax) with fexp64 in Hez.
  assert (Hdig : (Zdigits2 (Zpos mz) + ez = Zdigits2 (Zpos mx) + ex)%Z).
  { rewrite Hmz, Zdigits2_mul_pow2 by lia. lia. }
  assert (Hv : F2Q (cond_Zopp s (Zpos mx)) ex == F2Q (cond_Zopp s (Zpos mz)) ez).
  { rewrite (F2Q_shift _ ez ex) by lia.
    rewrite cond_Zopp_mul, Hmz. reflexivity. }
  assert (Hr : rounds_or_overflows (F2Q (cond_Zopp s (Zpos mz)) ez)
                 (binary_round_aux prec emax s (Zpos mz) ez loc_Exact)).
  { apply binary_round_aux_rounds; [lia |]. rewrite Hdig. lia. }
  destruct Hr as [[Hinf Hbig] | Hr].
  - left. split; [assumption |]. rewrite Hv. assumption.
  - right. apply rounds_to_wd with (F2Q (cond_Zopp s (Zpos mz)) ez);
      [symmetry; assumption | assumption].
Qed.

Lemma binary_normalize_rounds (m e : Z) :
  rounds_or_overflows (F2Q m e) (binary_normalize prec emax m e false).
Proof.
  destruct m as [| p | p]; cbn [binary_normalize].
  - right. apply rounds_to_wd with 0; [symmetry; apply F2Q_0 |].
    apply rounds_to_zero.
  - apply (binary_round_rounds false p e).
  - apply (binary_round_rounds true p e).
Qed.


Lemma rounds_no_overflow (v : Q) (f : float) (k : Z) :
  rounds_or_overflows v f -> Qabs v < 2 ^ k -> (k <= emax - 1)%Z ->
  rounds_to v f.
Proof.
  intros [[_ Hbig] | H] Hv Hk; [| assumption].
  pose proof (Q2_le k (emax - 1) Hk). lra.
Qed.

Lemma rounds_finite (v : Q) (f : float) :
  rounds_or_overflows v f -> is_finite f = true -> rounds_to v f.
Proof. intros [[Hinf _] | H] Hfin; [congruence | assumption]. Qed.

(** What validity says of a finite float: its exponent is the canonical
    one, so its mantissa has at most [prec] digits, and exactly [prec]
    above the subnormal range. *)
Lemma valid_finite (s : bool) (m : positive) (e : Z) :
  is_float64 (S754_finite s m e) = true ->
  e = fexp64 (Zdigits2 (Zpos m) + e) /\ (e <= emax - prec)%Z.
Proof.
  unfold is_float64. cbn [valid_binary]. unfold bounded, canonical_mantissa.
  rewrite andb_true_iff, Z.eqb_eq, Z.leb_le. intros [H1 H2].
  split; [symmetry; exact H1 | exact H2].
Qed.

Lemma rounds_to_self (x : float) :
  is_finite x = true -> is_float64 x = true -> rounds_to (SF2Q x) x.
Proof.
  intros Hfin Hval. destruct x as [s | s | | s m e]; try discriminate.
  - apply rounds_to_zero.
  - destruct (valid_finite s m e Hval) as [Hcanon Hmax].
    rewrite fexp64_unfold in Hcanon.
    pose proof (F2Q_digits_bounds (Zpos m) e ltac:(lia)) as [Hlo Hhi].
    assert (Habs : Qabs (F2Q (cond_Zopp s (Zpos m)) e) == F2Q (Zpos m) e).
    { rewrite F2Q_abs, cond_Zopp_abs. reflexivity. }
    split; [assumption | assumption |].
    exists e. cbn [SF2Q]. split; [rewrite emin64_value; lia |].
    split; [apply multiple_F2Q |]. split; [| split].
    + setoid_replace (F2Q (cond_Zopp s (Zpos m)) e - F2Q (cond_Zopp s (Zpos m)) e)
        with 0 by ring.
      change (Qabs 0) with 0. pose proof (Q2_pos e). lra.
    + rewrite Habs.
      pose proof (Q2_le (Zdigits2 (Zpos m) + e) (e + prec) ltac:(unfold prec; lia)).
      lra.
    + destruct (Z.eq_dec e emin64) as [He | He]; [left; assumption | right].
      rewrite Habs. rewrite emin64_value in He.
      replace (e + prec - 1)%Z with (Zdigits2 (Zpos m) + e - 1)%Z
        by (unfold prec; lia).
      assumption.
Qed.

Lemma SF2Q_aligned (s : bool) (m : positive) (e ez : Z) :
  (ez <= e)%Z ->
  F2Q (cond_Zopp s (Zpos m)) e
  == F2Q (cond_Zopp s (Zpos (fst (shl_align m e ez)))) ez.
Proof.
  intros H. destruct (shl_align_spec m e ez) as [_ Hm].
  rewrite Z.min_r in Hm by assumption.
  rewrite Hm, <- cond_Zopp_mul. apply F2Q_shift. assumption.
Qed.

Lemma float_add_rounds (x y : float) :
  is_finite x = true -> is_finite y = true ->
  is_float64 x = true -> is_float64 y = true ->
  rounds_or_overflows (SF2Q x + SF2Q y) (float_add x y).
Proof.
  intros Hfx Hfy Hvx Hvy.
  destruct x as [sx | sx | | sx mx ex]; try discriminate;
    destruct y as [sy | sy | | sy my ey]; try discriminate;
    unfold float_add; cbn [SFadd].
  - right. apply rounds_to_wd with 0; [cbn [SF2Q]; ring |].
    destruct sx, sy; apply rounds_to_zero.
  - right. apply rounds_to_wd with (SF2Q (S754_finite sy my ey));
      [cbn [SF2Q]; ring | apply rounds_to_self; assumption].
  - right. apply rounds_to_wd with (SF2Q (S754_finite sx mx ex));
      [cbn [SF2Q]; ring | apply rounds_to_self; assumption].
  - cbn [SF2Q].
    set (ez := Z.min ex ey).
    pose proof (binary_normalize_rounds
      (cond_Zopp sx (Zpos (fst (shl_align mx ex ez)))
       + cond_Zopp sy (Zpos (fst (shl_align my ey ez)))) ez) as Hr.
    assert (Hv : F2Q (cond_Zopp sx (Zpos mx)) ex + F2Q (cond_Zopp sy (Zpos my)) ey
                 == F2Q (cond_Zopp sx (Zpos (fst (shl_align mx ex ez)))
                         + cond_Zopp sy (Zpos (fst (shl_align my ey ez)))) ez).
    { rewrite <- F2Q_add.
      rewrite <- (SF2Q_aligned sx mx ex ez) by (unfold ez; lia).
      rewrite <- (SF2Q_aligned sy my ey ez) by (unfold ez; lia).
      reflexivity. }
    destruct Hr as [[Hinf Hbig] | Hr].
    + left. split; [assumption |]. rewrite Hv. assumption.
    + right. eapply rounds_to_wd; [symmetry; exact Hv | exact Hr].
Qed.

Lemma float_sub_add_opp (x y : float) :
  is_finite x = true -> is_finite y = true ->
  float_sub x y = float_add x (SFopp y).
Proof.
  intros Hfx Hfy.
  destruct x as [sx | sx | | sx mx ex]; try discriminate;
    destruct y as [sy | sy | | sy my ey]; try discriminate;
    unfold float_sub, float_add; cbn [SFsub SFadd SFopp].
  - destruct sx, sy; reflexivity.
  - reflexivity.
  - reflexivity.
  - f_equal. destruct sy; cbn [negb cond_Zopp]; lia.
Qed.

Lemma SF2Q_opp (y : float) : SF2Q (SFopp y) == - SF2Q y.
Proof.
  destruct y as [s | s | | s m e]; cbn [SFopp SF2Q]; try ring.
  rewrite F2Q_opp. destruct s; reflexivity.
Qed.

Lemma float_sub_rounds (x y : float) :
  is_finite x = true -> is_finite y = true ->
  is_float64 x = true -> is_float64 y = true ->
  rounds_or_overflows (SF2Q x - SF2Q y) (float_sub x y).
Proof.
  intros Hfx Hfy Hvx Hvy.
  rewrite float_sub_add_opp by assumption.
  assert (Hr : rounds_or_overflows (SF2Q x + SF2Q (SFopp y))
                 (float_add x (SFopp y))).
  { apply float_add_rounds; try assumption; destruct y; assumption. }
  assert (Hv : SF2Q x + SF2Q (SFopp y) == SF2Q x - SF2Q y)
    by (rewrite SF2Q_opp; ring).
  destruct Hr as [[Hinf Hbig] | Hr].
  - left. split; [assumption |]. rewrite <- Hv. assumption.
  - right. eapply rounds_to_wd; [exact Hv | exact Hr].
Qed.

Lemma inject_Z_F2Q (z : Z) : inject_Z z == F2Q z 0.
Proof. unfold F2Q. change (2 ^ 0) with 1. ring. Qed.

(** An [int] below [2^(emax-1)] in magnitude converts to a float. *)
Lemma float_of_int_rounds (z k : Z) :
  (Z.abs z < 2 ^ k)%Z -> (0 <= k <= emax - 1)%Z ->
  exists f, float_of_int z = Ok f /\ rounds_to (inject_Z z) f.
Proof.
  intros Hz Hk.
  assert (Hr : rounds_to (inject_Z z) (binary_normalize prec emax z 0 false)).
  { apply rounds_no_overflow with k; [| | lia].
    - destruct (binary_normalize_rounds z 0) as [[Hinf Hbig] | Hr].
      + left. split; [assumption |]. rewrite inject_Z_F2Q. assumption.
      + right. eapply rounds_to_wd; [symmetry; apply inject_Z_F2Q | exact Hr].
    - assert (Hpk : 2 ^ k == F2Q (2 ^ k) 0)
        by (rewrite F2Q_pow2, Z.add_0_r by lia; reflexivity).
      rewrite inject_Z_F2Q, F2Q_abs, Hpk. apply F2Q_lt. assumption. }
  exists (binary_normalize prec emax z 0 false). split; [| assumption].
  unfold float_of_int. pose proof (rt_finite _ _ Hr) as Hfin.
  destruct (binary_normalize prec emax z 0 false); try reflexivity; discriminate.
Qed.

(** Below [2^53] the conversion is exact. *)
Lemma float_of_int_exact (z : Z) :
  (Z.abs z < 2 ^ 53)%Z ->
  exists f, float_of_int z = Ok f
            /\ is_finite f = true /\ is_float64 f = true
            /\ SF2Q f == inject_Z z.
Proof.
  intros Hz.
  destruct (float_of_int_rounds z 53 Hz ltac:(unfold emax; lia)) as (f & Hf & Hr).
  exists f. split; [assumption |].
  split; [apply (rt_finite _ _ Hr) |]. split; [apply (rt_valid _ _ Hr) |].
  apply (rounds_to_exact _ _ Hr 53).
  - rewrite emin64_value. unfold prec. lia.
  - assert (Hpk : 2 ^ 53 == F2Q (2 ^ 53) 0)
      by (rewrite F2Q_pow2 by lia; reflexivity).
    rewrite inject_Z_F2Q, F2Q_abs, Hpk. apply F2Q_lt. assumption.
  - apply multiple_inject_Z. unfold prec. lia.
Qed.

End Operations.

(** ** Scaling by a power of two, and truncation *)

Section Scaling.
Local Open Scope Q_scope.

(** The float [2^(52 + ey)]: mantissa [2^52], exponent [ey]. *)
Lemma two_pow_52 : Zpos 4503599627370496 = (2 ^ 52)%Z.
Proof. reflexivity. Qed.

Lemma float_of_int_two32 :
  float_of_int (2 ^ 32) = Ok (S754_finite false 4503599627370496 (-20)).
Proof. reflexivity. Qed.

Lemma float_of_int_two :
  float_of_int 2 = Ok (S754_finite false 4503599627370496 (-51)).
Proof. reflexivity. Qed.

Lemma Zdigits2_le_prec (s : bool) (m : positive) (e : Z) :
  is_float64 (S754_finite s m e) = true ->
  (Zdigits2 (Zpos m) <= prec)%Z /\ (emin64 <= e)%Z.
Proof.
  intros Hval. destruct (valid_finite s m e Hval) as [Hc _].
  rewrite fexp64_unfold in Hc. rewrite emin64_value. unfold prec. lia.
Qed.

(** A valid float of magnitude [2^j] at least has an exponent of
    [j - 52] at least. *)
Lemma valid_exponent_lower (s : bool) (m : positive) (e j : Z) :
  is_float64 (S754_finite s m e) = true ->
  2 ^ j <= Qabs (SF2Q (S754_finite s m e)) ->
  (j - 52 <= e)%Z.
Proof.
  intros Hval Hj. destruct (Zdigits2_le_prec s m e Hval) as [Hd _].
  cbn [SF2Q] in Hj. rewrite F2Q_abs, cond_Zopp_abs in Hj. cbn [Z.abs] in Hj.
  pose proof (F2Q_digits_bounds (Zpos m) e ltac:(lia)) as [_ Hhi].
  assert (H : 2 ^ j < 2 ^ (Zdigits2 (Zpos m) + e)) by lra.
  apply Q2_lt_inv in H. unfold prec in Hd. lia.
Qed.

Lemma float_mul_pow2_rounds (x : float) (ey : Z) :
  is_finite x = true ->
  rounds_or_overflows (SF2Q x * 2 ^ (52 + ey))
    (float_mul x (S754_finite false 4503599627370496 ey)).
Proof.
  intros Hfx. destruct x as [sx | sx | | sx mx ex]; try discriminate;
    unfold float_mul; cbn [SFmul].
  - right. apply rounds_to_wd with 0; [cbn [SF2Q]; ring | apply rounds_to_zero].
  - rewrite xorb_false_r, Pos2Z.inj_mul, two_pow_52.
    assert (Hr : rounds_or_overflows
                   (F2Q (cond_Zopp sx (Zpos mx * 2 ^ 52)) (ex + ey))
                   (binary_round_aux prec emax sx (Zpos mx * 2 ^ 52) (ex + ey)
                      loc_Exact)).
    { apply binary_round_aux_rounds; [lia |].
      rewrite Zdigits2_mul_pow2 by lia.
      pose proof (Zdigits2_pos (Zpos mx) ltac:(lia)).
      rewrite fexp64_unfold. lia. }
    assert (Hv : F2Q (cond_Zopp sx (Zpos mx * 2 ^ 52)) (ex + ey)
                 == SF2Q (S754_finite sx mx ex) * 2 ^ (52 + ey)).
    { cbn [SF2Q]. rewrite <- cond_Zopp_mul. unfold F2Q.
      rewrite inject_Z_mult, <- Q2_Z, !Q2_add by lia. ring. }
    destruct Hr as [[Hinf Hbig] | Hr].
    + left. split; [assumption |]. rewrite <- Hv. assumption.
    + right. eapply rounds_to_wd; [exact Hv | exact Hr].
Qed.

(** Multiplying a valid float by [2^(52 + ey) >= 1] is exact, short of
    overflow. *)
Lemma float_mul_pow2_exact (x : float) (ey k : Z) :
  is_finite x = true -> is_float64 x = true ->
  (0 <= 52 + ey)%Z ->
  Qabs (SF2Q x * 2 ^ (52 + ey)) < 2 ^ k -> (k <= emax - 1)%Z ->
  let r := float_mul x (S754_finite false 4503599627370496 ey) in
  is_finite r = true /\ is_float64 r = true
  /\ SF2Q r == SF2Q x * 2 ^ (52 + ey).
Proof.
  intros Hfx Hvx Hey Hk Hkmax r.
  assert (Hr : rounds_to (SF2Q x * 2 ^ (52 + ey)) r).
  { apply rounds_no_overflow with k; try assumption.
    apply float_mul_pow2_rounds. assumption. }
  split; [apply (rt_finite _ _ Hr) |]. split; [apply (rt_valid _ _ Hr) |].
  destruct x as [sx | sx | | sx mx ex]; try discriminate.
  - apply (rounds_to_exact _ _ Hr (emin64 + prec)); [lia | |].
    + cbn [SF2Q]. setoid_replace (0 * 2 ^ (52 + ey)) with 0 by ring.
      change (Qabs 0) with 0. apply Q2_pos.
    + cbn [SF2Q]. setoid_replace (0 * 2 ^ (52 + ey)) with 0 by ring.
      apply multiple_0.
  - destruct (Zdigits2_le_prec sx mx ex Hvx) as [Hd He].
    assert (Hv : SF2Q (S754_finite sx mx ex) * 2 ^ (52 + ey)
                 == F2Q (cond_Zopp sx (Zpos mx)) (ex + (52 + ey))).
    { cbn [SF2Q]. unfold F2Q. rewrite !Q2_add. ring. }
    apply (rounds_to_exact _ _ Hr (prec + (ex + (52 + ey)))).
    + lia.
    + rewrite Hv, F2Q_abs, cond_Zopp_abs. cbn [Z.abs].
      pose proof (F2Q_digits_bounds (Zpos mx) (ex + (52 + ey)) ltac:(lia))
        as [_ Hhi].
      pose proof (Q2_le (Zdigits2 (Zpos mx) + (ex + (52 + ey)))
                    (prec + (ex + (52 + ey))) ltac:(lia)).
      lra.
    + rewrite Hv.
      replace (prec + (ex + (52 + ey)) - prec)%Z with (ex + (52 + ey))%Z by lia.
      apply multiple_F2Q.
Qed.


(** Division by the float [2^(52 + ey)]: the quotient of the mantissas is
    exact as soon as the result is not subnormal. *)
Lemma float_div_pow2_rounds (sx : bool) (mx : positive) (ex ey : Z) :
  is_float64 (S754_finite sx mx ex) = true ->
  (-1022 <= ex - ey)%Z ->
  rounds_or_overflows (SF2Q (S754_finite sx mx ex) * 2 ^ (- (52 + ey)))
    (float_div (S754_finite sx mx ex) (S754_finite false 4503599627370496 ey)).
Proof.
  intros Hvx Hex.
  destruct (Zdigits2_le_prec sx mx ex Hvx) as [Hd He].
  pose proof (Zdigits2_pos (Zpos mx) ltac:(lia)) as Hdpos.
  unfold prec in Hd. rewrite emin64_value in He.
  unfold float_div. cbn [SFdiv]. unfold SFdiv_core_binary.
  change (Zdigits2 (Zpos 4503599627370496)) with 53%Z.
  change (fexp prec emax) with fexp64.
  set (d := Zdigits2 (Zpos mx)) in *.
  set (e' := Z.min (fexp64 (d + ex - (53 + ey))) (ex - ey)).
  assert (He' : (e' <= ex - ey - 52)%Z)
    by (unfold e'; rewrite fexp64_unfold; lia).
  set (sh := (ex - ey - e')%Z).
  assert (Hm' : match sh with
                | Zpos _ => Z.shiftl (Zpos mx) sh
                | Z0 => Zpos mx
                | Zneg _ => 0%Z
                end = (Zpos mx * 2 ^ sh)%Z).
  { assert (0 < sh)%Z by (unfold sh; lia).
    destruct sh; try lia. apply Z.shiftl_mul_pow2. lia. }
  rewrite Hm'.
  assert (Hsh : (2 ^ sh = 2 ^ (sh - 52) * 2 ^ 52)%Z).
  { rewrite <- pow2_split by (unfold sh; lia). f_equal. lia. }
  assert (Hdiv : Z.div_eucl (Zpos mx * 2 ^ sh) (Zpos 4503599627370496)
                 = ((Zpos mx * 2 ^ (sh - 52))%Z, 0%Z)).
  { rewrite two_pow_52.
    pose proof (Z_div_mod_full (Zpos mx * 2 ^ sh) (2 ^ 52) ltac:(lia)) as H.
    destruct (Z.div_eucl (Zpos mx * 2 ^ sh) (2 ^ 52)) as [q r].
    destruct H as [Hq Hr]. destruct Hr as [Hr | Hr]; [| lia].
    rewrite Hsh in Hq.
    set (T := (2 ^ (sh - 52))%Z) in *. clearbody T.
    change (2 ^ 52)%Z with 4503599627370496%Z in *.
    set (w := (Zpos mx * T - q)%Z).
    assert (Hw : (r = 4503599627370496 * w)%Z) by (unfold w; lia).
    assert (w = 0)%Z by lia.
    assert (r = 0)%Z by lia.
    assert (q = Zpos mx * T)%Z by (unfold w in *; lia).
    congruence. }
  rewrite Hdiv.
  change (new_location (Z.pos 4503599627370496) 0) with loc_Exact.
  rewrite xorb_false_r.
  assert (Hpos : (0 < 2 ^ (sh - 52))%Z) by (apply pow2_pos; unfold sh; lia).
  assert (Hr : rounds_or_overflows
                 (F2Q (cond_Zopp sx (Zpos mx * 2 ^ (sh - 52))) e')
                 (binary_round_aux prec emax sx (Zpos mx * 2 ^ (sh - 52)) e'
                    loc_Exact)).
  { apply binary_round_aux_rounds; [nia |].
    rewrite Zdigits2_mul_pow2 by (unfold sh; lia). fold d.
    unfold sh, e'. rewrite !fexp64_unfold. lia. }
  assert (Hv : F2Q (cond_Zopp sx (Zpos mx * 2 ^ (sh - 52))) e'
               == SF2Q (S754_finite sx mx ex) * 2 ^ (- (52 + ey))).
  { cbn [SF2Q]. rewrite <- cond_Zopp_mul. unfold F2Q.
    rewrite inject_Z_mult, <- Q2_Z by (unfold sh; lia).
    rewrite <- !Qmult_assoc, <- !Q2_add.
    replace (sh - 52 + e')%Z with (ex + - (52 + ey))%Z by (unfold sh; lia).
    reflexivity. }
  destruct Hr as [[Hinf Hbig] | Hr].
  - left. split; [assumption |]. rewrite <- Hv. assumption.
  - right. eapply rounds_to_wd; [exact Hv | exact Hr].
Qed.


Lemma multiple_zero_or_big (x : Q) (g : Z) :
  multiple_of_pow2 x g -> x == 0 \/ 2 ^ g <= Qabs x.
Proof.
  intros [z Hz]. destruct (Z.eq_dec z 0) as [-> | Hnz].
  - left. rewrite Hz. apply F2Q_0.
  - right. rewrite Hz, F2Q_abs, <- F2Q_1. apply F2Q_le. lia.
Qed.

Lemma SF2Q_finite_nonzero (s : bool) (m : positive) (e : Z) :
  ~ SF2Q (S754_finite s m e) == 0.
Proof.
  cbn [SF2Q]. rewrite <- (F2Q_0 e). intros H. apply F2Q_eq in H.
  destruct s; cbn [cond_Zopp] in H; lia.
Qed.

Lemma float_div_pow2_exact (x : float) (ey j k : Z) :
  is_finite x = true -> is_float64 x = true ->
  (SF2Q x == 0 \/ 2 ^ j <= Qabs (SF2Q x)) ->
  (-970 <= j - ey)%Z ->
  Qabs (SF2Q x * 2 ^ (- (52 + ey))) < 2 ^ k -> (k <= emax - 1)%Z ->
  let r := float_div x (S754_finite false 4503599627370496 ey) in
  is_finite r = true /\ is_float64 r = true
  /\ SF2Q r == SF2Q x * 2 ^ (- (52 + ey)).
Proof.
  intros Hfx Hvx Hbig Hj Hk Hkmax r.
  destruct x as [sx | sx | | sx mx ex]; try discriminate.
  - subst r. unfold float_div. cbn [SFdiv SF2Q].
    split; [reflexivity |]. split; [reflexivity |]. ring.
  - destruct Hbig as [H0 | Hbig]; [elim (SF2Q_finite_nonzero _ _ _ H0) |].
    pose proof (valid_exponent_lower sx mx ex j Hvx Hbig) as Hex.
    destruct (Zdigits2_le_prec sx mx ex Hvx) as [Hd He].
    assert (Hr : rounds_to (SF2Q (S754_finite sx mx ex) * 2 ^ (- (52 + ey))) r).
    { apply rounds_no_overflow with k; try assumption.
      apply float_div_pow2_rounds; [assumption | lia]. }
    split; [apply (rt_finite _ _ Hr) |]. split; [apply (rt_valid _ _ Hr) |].
    assert (Hv : SF2Q (S754_finite sx mx ex) * 2 ^ (- (52 + ey))
                 == F2Q (cond_Zopp sx (Zpos mx)) (ex + - (52 + ey))).
    { cbn [SF2Q]. unfold F2Q. rewrite !Q2_add. ring. }
    apply (rounds_to_exact _ _ Hr (prec + (ex + - (52 + ey)))).
    + rewrite emin64_value. lia.
    + rewrite Hv, F2Q_abs, cond_Zopp_abs. cbn [Z.abs].
      pose proof (F2Q_digits_bounds (Zpos mx) (ex + - (52 + ey)) ltac:(lia))
        as [_ Hhi].
      pose proof (Q2_le (Zdigits2 (Zpos mx) + (ex + - (52 + ey)))
                    (prec + (ex + - (52 + ey))) ltac:(lia)).
      lra.
    + rewrite Hv.
      replace (prec + (ex + - (52 + ey)) - prec)%Z
        with (ex + - (52 + ey))%Z by lia.
      apply multiple_F2Q.
Qed.

(** ** Truncation *)

Lemma Qfloor_unique (x : Q) (z : Z) :
  inject_Z z <= x -> x < inject_Z (z + 1) -> Qfloor x = z.
Proof.
  intros Hlo Hhi.
  pose proof (Qfloor_le x) as H1. pose proof (Qlt_floor x) as H2.
  assert (inject_Z z < inject_Z (Qfloor x + 1)) by lra.
  assert (inject_Z (Qfloor x) < inject_Z (z + 1)) by lra.
  rewrite <- Zlt_Qlt in *. lia.
Qed.

Lemma Qfloor_F2Q (m e : Z) : Qfloor (F2Q m e) = Z.shiftl m e.
Proof.
  destruct (Z.le_gt_cases 0 e) as [He | He].
  - rewrite Z.shiftl_mul_pow2 by assumption.
    apply Qfloor_unique.
    + rewrite inject_Z_F2Q, (F2Q_shift m 0 e), Z.sub_0_r by assumption.
      apply Qle_refl.
    + rewrite (inject_Z_F2Q (_ + 1)), (F2Q_shift m 0 e), Z.sub_0_r by assumption.
      apply F2Q_lt. lia.
  - rewrite <- (Z.opp_involutive e) at 2.
    rewrite Z.shiftl_opp_r, Z.shiftr_div_pow2 by lia.
    assert (HP : (0 < 2 ^ (- e))%Z) by (apply pow2_pos; lia).
    pose proof (Z.div_mod m (2 ^ (- e)) ltac:(lia)) as Hdm.
    pose proof (Z.mod_pos_bound m (2 ^ (- e)) HP) as Hmod.
    set (q := (m / 2 ^ (- e))%Z) in *.
    apply Qfloor_unique.
    + rewrite inject_Z_F2Q, (F2Q_shift q e 0) by lia.
      apply F2Q_le. rewrite Z.sub_0_l. nia.
    + rewrite inject_Z_F2Q, (F2Q_shift (q + 1) e 0) by lia.
      apply F2Q_lt. rewrite Z.sub_0_l. nia.
Qed.

(** [int(x)] of a finite float that is not negative is the floor of its
    value. *)
Lemma int_of_float_floor (x : float) :
  is_finite x = true -> 0 <= SF2Q x ->
  int_of_float x = Ok (Qfloor (SF2Q x)).
Proof.
  intros Hfx Hx. destruct x as [s | s | | s m e]; try discriminate.
  - reflexivity.
  - cbn [int_of_float SF2Q] in *.
    destruct s.
    + exfalso. cbn [cond_Zopp] in Hx.
      rewrite <- (F2Q_0 e) in Hx. apply F2Q_le in Hx. lia.
    + cbn [cond_Zopp]. rewrite Qfloor_F2Q. reflexivity.
Qed.

End Scaling.

(** * Timestamps *)

Section Timestamps.
Local Open Scope Q_scope.

Lemma offset_finite : is_finite get_ntp_timestamp_offset = true.
Proof. reflexivity. Qed.

Lemma offset_valid : is_float64 get_ntp_timestamp_offset = true.
Proof. reflexivity. Qed.

(** The epoch offset is the whole number -2208988800. *)
Lemma offset_value : SF2Q get_ntp_timestamp_offset == - inject_Z 2208988800.
Proof. vm_compute. reflexivity. Qed.

Lemma float_sub_finite_l (x y : float) :
  is_finite (float_sub x y) = true -> is_finite y = true -> is_finite x = true.
Proof.
  destruct x as [sx | sx | | sx mx ex], y as [sy | sy | | sy my ey];
    try reflexivity; try discriminate.
  all: unfold float_sub; cbn [SFsub]; try discriminate.
  all: destruct sx, sy; discriminate.
Qed.

(** A value that a valid float holds is kept by rounding. *)
Lemma rounds_to_float (v : Q) (f g : float) :
  rounds_to v f -> is_finite g = true -> is_float64 g = true ->
  v == SF2Q g -> SF2Q f == v.
Proof.
  intros Hr Hfg Hvg Hv.
  destruct g as [s | s | | s m e]; try discriminate.
  - apply (rounds_to_exact _ _ Hr (emin64 + prec)); [lia | |].
    + rewrite Hv. cbn [SF2Q]. change (Qabs 0) with 0. apply Q2_pos.
    + rewrite Hv. apply multiple_0.
  - destruct (Zdigits2_le_prec s m e Hvg) as [Hd He].
    apply (rounds_to_exact _ _ Hr (prec + e)); [lia | |].
    + rewrite Hv. cbn [SF2Q]. rewrite F2Q_abs, cond_Zopp_abs. cbn [Z.abs].
      pose proof (F2Q_digits_bounds (Zpos m) e ltac:(lia)) as [_ Hhi].
      pose proof (Q2_le (Zdigits2 (Zpos m) + e) (prec + e) ltac:(lia)).
      lra.
    + rewrite Hv. replace (prec + e - prec)%Z with e by lia.
      apply multiple_F2Q.
Qed.

(** The grid of a valid float of magnitude [2^j] at least. *)
Lemma valid_grid (g : float) (j : Z) :
  is_finite g = true -> is_float64 g = true ->
  2 ^ j <= Qabs (SF2Q g) ->
  multiple_of_pow2 (SF2Q g) (j - 52).
Proof.
  intros Hfg Hvg Hj. destruct g as [s | s | | s m e]; try discriminate.
  - apply multiple_0.
  - pose proof (valid_exponent_lower s m e j Hvg Hj).
    apply multiple_finer with e; [assumption | apply multiple_F2Q].
Qed.

Lemma Qfloor_frac (v : Q) :
  0 <= v - inject_Z (Qfloor v) /\ v - inject_Z (Qfloor v) < 1.
Proof.
  pose proof (Qfloor_le v). pose proof (Qlt_floor v) as H1.
  rewrite inject_Z_plus in H1. change (inject_Z 1) with 1 in H1.
  split; lra.
Qed.

Lemma Qfloor_nonneg (v : Q) : 0 <= v -> (0 <= Qfloor v)%Z.
Proof.
  intros Hv. pose proof (Qlt_floor v) as H1.
  assert (H : inject_Z 0 < inject_Z (Qfloor v + 1))
    by (apply Qle_lt_trans with v; assumption).
  rewrite <- Zlt_Qlt in H. lia.
Qed.

(** The fractional part of a float is a float: [ntp - float(int(ntp))]
    is computed exactly. *)
Lemma float_frac_exact (ntp sf : float) :
  is_finite ntp = true -> is_float64 ntp = true -> 0 <= SF2Q ntp ->
  is_finite sf = true -> is_float64 sf = true ->
  SF2Q sf == inject_Z (Qfloor (SF2Q ntp)) ->
  let d := float_sub ntp sf in
  is_finite d = true /\ is_float64 d = true
  /\ SF2Q d == SF2Q ntp - inject_Z (Qfloor (SF2Q ntp)).
Proof.
  intros Hfn Hvn Hpos Hfs Hvs Hs d.
  pose proof (Qfloor_frac (SF2Q ntp)) as [Hlo Hhi].
  pose proof (Qfloor_nonneg _ Hpos) as Hfl.
  set (v := SF2Q ntp) in *. set (z := Qfloor v) in *.
  assert (Hz : 0 <= inject_Z z)
    by (change 0 with (inject_Z 0); rewrite <- Zle_Qle; assumption).
  assert (Habs : Qabs (v - inject_Z z) == v - inject_Z z)
    by (apply Qabs_pos; assumption).
  assert (Hr : rounds_to (v - inject_Z z) d).
  { apply rounds_to_wd with (SF2Q ntp - SF2Q sf); [rewrite Hs; reflexivity |].
    apply rounds_no_overflow with 0%Z.
    - apply float_sub_rounds; assumption.
    - rewrite Hs. fold v z. rewrite Habs. exact Hhi.
    - unfold emax. lia. }
  split; [apply (rt_finite _ _ Hr) |]. split; [apply (rt_valid _ _ Hr) |].
  destruct ntp as [sn | sn | | sn m e]; try discriminate.
  - apply (rounds_to_exact _ _ Hr 0).
    + rewrite emin64_value. unfold prec. lia.
    + rewrite Habs. exact Hhi.
    + apply multiple_minus; [apply multiple_0 | apply multiple_inject_Z].
      unfold prec. lia.
  - destruct (Zdigits2_le_prec sn m e Hvn) as [Hd He].
    assert (Hvgrid : multiple_of_pow2 v e) by apply multiple_F2Q.
    destruct (Z.lt_ge_cases e (- 53)) as [Hsmall | Hbig].
    + apply (rounds_to_exact _ _ Hr (prec + e)); [lia | |].
      * rewrite Habs.
        assert (Hv : v < 2 ^ (prec + e)).
        { unfold v. cbn [SF2Q] in *.
          assert (Hsn : sn = false).
          { destruct sn; [| reflexivity]. exfalso. unfold v in Hpos.
            cbn [SF2Q cond_Zopp] in Hpos.
            rewrite <- (F2Q_0 e) in Hpos. apply F2Q_le in Hpos. lia. }
          subst sn. cbn [cond_Zopp].
          pose proof (F2Q_digits_bounds (Zpos m) e ltac:(lia)) as [_ Hh].
          pose proof (Q2_le (Zdigits2 (Zpos m) + e) (prec + e) ltac:(lia)).
          lra. }
        lra.
      * replace (prec + e - prec)%Z with e by lia.
        apply multiple_minus; [assumption |].
        apply multiple_inject_Z. lia.
    + apply (rounds_to_exact _ _ Hr 0).
      * rewrite emin64_value. unfold prec. lia.
      * rewrite Habs. exact Hhi.
      * apply multiple_finer with (Z.min e 0); [unfold prec; lia |].
        apply multiple_minus.
        -- apply multiple_finer with e; [lia | assumption].
        -- apply multiple_inject_Z. lia.
Qed.


(** The NTP time that [encode_ntp_timestamp] computes first is the exact
    shift of the calendar time, rounded. *)
Lemma ntp_time_rounds (t : float) :
  is_float64 t = true ->
  is_finite (float_sub t get_ntp_timestamp_offset) = true ->
  rounds_to (SF2Q t - SF2Q get_ntp_timestamp_offset)
    (float_sub t get_ntp_timestamp_offset).
Proof.
  intros Hvt Hfin.
  apply rounds_finite; [| assumption].
  apply float_sub_rounds;
    [eapply float_sub_finite_l; [eassumption | reflexivity]
    | reflexivity | assumption | reflexivity].
Qed.

(** What [encode_ntp_timestamp] returns, in terms of the NTP time it
    computes first. *)
Lemma encode_ntp_timestamp_spec (t : float) :
  let ntp := float_sub t get_ntp_timestamp_offset in
  is_float64 t = true -> is_finite ntp = true ->
  0 <= SF2Q ntp -> (Qfloor (SF2Q ntp) < 2 ^ 32)%Z ->
  encode_ntp_timestamp t
  = Ok (Qfloor (SF2Q ntp),
        Qfloor ((SF2Q ntp - inject_Z (Qfloor (SF2Q ntp))) * 2 ^ 32)).
Proof.
  intros ntp Hvt Hfin Hpos Hlt.
  pose proof (ntp_time_rounds t Hvt Hfin) as Hr. fold ntp in Hr.
  pose proof (rt_valid _ _ Hr) as Hvn.
  pose proof (Qfloor_nonneg _ Hpos) as Hfl.
  pose proof (Qfloor_frac (SF2Q ntp)) as [Hlo Hhi].
  unfold encode_ntp_timestamp. fold ntp.
  rewrite (int_of_float_floor ntp Hfin Hpos). cbn [bind].
  destruct (float_of_int_exact (Qfloor (SF2Q ntp)) ltac:(lia))
    as (sf & Hsf & Hfs & Hvs & Hs).
  rewrite Hsf, float_of_int_two32. cbn [bind].
  destruct (float_frac_exact ntp sf Hfin Hvn Hpos Hfs Hvs Hs) as (Hfd & Hvd & Hd).
  destruct (float_mul_pow2_exact (float_sub ntp sf) (-20) 32 Hfd Hvd
              ltac:(lia)) as (Hfm & Hvm & Hm).
  { rewrite Hd. change (52 + -20)%Z with 32%Z.
    rewrite Qabs_pos by (pose proof (Q2_pos 32); nra).
    pose proof (Q2_pos 32). nra. }
  { unfold emax. lia. }
  change (52 + -20)%Z with 32%Z in Hm.
  rewrite int_of_float_floor; [| assumption |].
  - cbn [bind]. rewrite Hm, Hd. reflexivity.
  - rewrite Hm, Hd. pose proof (Q2_pos 32). nra.
Qed.

End Timestamps.

Section Decoding.
Local Open Scope Q_scope.

Lemma two32Q_value : two32Q == inject_Z 4294967296.
Proof. reflexivity. Qed.

Lemma Q2_neg32 : 2 ^ (- (32)) == / two32Q.
Proof. reflexivity. Qed.

(** [a / 2**32] for an [int] below [2^32] in magnitude: exact. *)
Lemma int_truediv_two32 (a : Z) :
  (Z.abs a < 2 ^ 32)%Z ->
  exists fr,
    int_truediv a (2 ^ 32) = Ok fr
    /\ is_finite fr = true /\ is_float64 fr = true
    /\ SF2Q fr == inject_Z a / two32Q.
Proof.
  intros Ha. unfold int_truediv.
  change (2 ^ 32 =? 0)%Z with false. cbv iota.
  destruct (float_of_int_exact a ltac:(lia)) as (fa & Hfa & Hfin & Hval & Hv).
  rewrite Hfa, float_of_int_two32. cbn [bind].
  assert (Hbig : SF2Q fa == 0 \/ 2 ^ 0 <= Qabs (SF2Q fa)).
  { rewrite Hv. destruct (Z.eq_dec a 0) as [-> | Hnz]; [left; reflexivity | right].
    rewrite inject_Z_F2Q, F2Q_abs, <- (F2Q_1 0). apply F2Q_le. lia. }
  assert (Hlt : Qabs (SF2Q fa * 2 ^ (- (52 + -20))) < 2 ^ 0).
  { rewrite Hv. change (2 ^ (- (52 + -20))) with (1 # 4294967296).
    change (2 ^ 0) with 1.
    assert (Hlo : inject_Z (- 4294967296) < inject_Z a)
      by (rewrite <- Zlt_Qlt; change (2 ^ 32)%Z with 4294967296%Z in Ha; lia).
    assert (Hhi : inject_Z a < inject_Z 4294967296)
      by (rewrite <- Zlt_Qlt; change (2 ^ 32)%Z with 4294967296%Z in Ha; lia).
    change (inject_Z (- 4294967296)) with (- (4294967296 # 1)) in Hlo.
    change (inject_Z 4294967296) with (4294967296 # 1) in Hhi.
    destruct (Qabs_cases (inject_Z a * (1 # 4294967296))) as [[? Hq] | [? Hq]];
      rewrite Hq; lra. }
  destruct (float_div_pow2_exact fa (-20) 0 0 Hfin Hval Hbig ltac:(lia) Hlt
              ltac:(unfold emax; lia)) as (Hfd & Hvd & Hd).
  eexists. split; [reflexivity |]. split; [exact Hfd |]. split; [exact Hvd |].
  rewrite Hd, Hv. change (2 ^ (- (52 + -20))) with (1 # 4294967296).
  unfold two32Q. change (2 ^ 32) with (4294967296 # 1). field.
Qed.

(** Truncating a multiple of [2^-32] to 32 fraction bits loses nothing. *)
Lemma trunc32_exact (v : Q) :
  multiple_of_pow2 v (- (32)) ->
  inject_Z (Qfloor v)
  + inject_Z (Qfloor ((v - inject_Z (Qfloor v)) * 2 ^ 32)) / two32Q == v.
Proof.
  intros Hv.
  assert (Hfrac : multiple_of_pow2 (v - inject_Z (Qfloor v)) (- (32))).
  { apply multiple_minus; [assumption | apply multiple_inject_Z; lia]. }
  destruct Hfrac as [z Hz].
  assert (Hint : (v - inject_Z (Qfloor v)) * 2 ^ 32 == inject_Z z).
  { rewrite Hz. unfold F2Q. rewrite Q2_neg32. change (2 ^ 32) with two32Q.
    field. rewrite two32Q_value. discriminate. }
  rewrite (Qfloor_comp _ _ Hint), Qfloor_Z.
  assert (Hz' : inject_Z z == (v - inject_Z (Qfloor v)) * two32Q)
    by (rewrite <- Hint; reflexivity).
  rewrite Hz'. field. rewrite two32Q_value. discriminate.
Qed.


(** [decode_ntp_timestamp] on a pair whose value [s + f / 2^32] some float
    holds: the sum of the two parts is exact, and only the shift by the
    epoch offset is left to round. *)
Lemma decode_ntp_timestamp_spec (s f : Z) (g : float) :
  (0 <= s < 2 ^ 32)%Z -> (0 <= f < 2 ^ 32)%Z ->
  is_finite g = true -> is_float64 g = true ->
  inject_Z s + inject_Z f / two32Q == SF2Q g ->
  exists y,
    decode_ntp_timestamp s f = Ok (float_add y get_ntp_timestamp_offset)
    /\ is_finite y = true /\ is_float64 y = true
    /\ SF2Q y == SF2Q g.
Proof.
  intros Hs Hf Hfg Hvg Hx.
  unfold decode_ntp_timestamp.
  destruct (int_truediv_two32 f ltac:(lia)) as (fr & Hfr & Hffr & Hvfr & Hqfr).
  destruct (float_of_int_exact s ltac:(lia)) as (sf & Hsf & Hfsf & Hvsf & Hqsf).
  rewrite Hfr, Hsf. cbn [bind].
  assert (Hr : rounds_to (inject_Z s + inject_Z f / two32Q) (float_add sf fr)).
  { apply rounds_to_wd with (SF2Q sf + SF2Q fr); [rewrite Hqsf, Hqfr; reflexivity |].
    apply rounds_finite.
    - apply float_add_rounds; assumption.
    - pose proof (float_add_rounds sf fr Hfsf Hffr Hvsf Hvfr) as Hro.
      destruct Hro as [[Hinf Hbig] | Hro]; [| apply (rt_finite _ _ Hro)].
      exfalso. rewrite Hqsf, Hqfr in Hbig.
      assert (H1 : inject_Z s < inject_Z 4294967296)
        by (rewrite <- Zlt_Qlt; change (2 ^ 32)%Z with 4294967296%Z in Hs; lia).
      assert (H2 : inject_Z 0 <= inject_Z s) by (rewrite <- Zle_Qle; lia).
      assert (H3 : inject_Z f < inject_Z 4294967296)
        by (rewrite <- Zlt_Qlt; change (2 ^ 32)%Z with 4294967296%Z in Hf; lia).
      assert (H4 : inject_Z 0 <= inject_Z f) by (rewrite <- Zle_Qle; lia).
      change (inject_Z 4294967296) with (4294967296 # 1) in *.
      change (inject_Z 0) with 0 in *.
      unfold two32Q in Hbig. change (2 ^ 32) with (4294967296 # 1) in Hbig.
      assert (Hp : 2 ^ 33 <= 2 ^ (emax - 1)) by (apply Q2_le; unfold emax; lia).
      change (2 ^ 33) with (8589934592 # 1) in Hp.
      assert (Hfq : inject_Z f / (4294967296 # 1) == inject_Z f * (1 # 4294967296))
        by (field).
      rewrite Hfq in Hbig.
      destruct (Qabs_cases (inject_Z s + inject_Z f * (1 # 4294967296)))
        as [[? Hq] | [? Hq]]; rewrite Hq in Hbig; lra. }
  exists (float_add sf fr). split; [reflexivity |].
  split; [apply (rt_finite _ _ Hr) |]. split; [apply (rt_valid _ _ Hr) |].
  rewrite <- Hx. apply rounds_to_float with g; assumption.
Qed.

(** A float below [2^j] is the rounding of an exact value below [2^j]. *)
Lemma rounds_to_below (v : Q) (f : float) (j : Z) :
  rounds_to v f -> (emin64 <= j)%Z -> Qabs (SF2Q f) < 2 ^ j -> Qabs v < 2 ^ j.
Proof.
  intros Hr Hj Hf.
  destruct (Qlt_le_dec (Qabs v) (2 ^ j)) as [H | H]; [assumption |].
  pose proof (rounds_to_lower _ _ Hr j Hj H). lra.
Qed.

End Decoding.

Section RoundTrip.
Local Open Scope Q_scope.

Lemma offset_value_lit : SF2Q get_ntp_timestamp_offset == - (2208988800 # 1).
Proof. vm_compute. reflexivity. Qed.

(** The three situations of an NTP time [v] in [0, 2^32) computed from
    the calendar time [t]: in the two upper binades the time is on a
    coarse grid and at most [2^-22] from the exact shift [t + K]; below
    them the shift is exact. *)
Lemma ntp_time_cases (t : float) :
  let ntp := float_sub t get_ntp_timestamp_offset in
  let v := SF2Q ntp in
  let v1 := SF2Q t + (2208988800 # 1) in
  is_float64 t = true -> is_finite ntp = true ->
  0 <= v -> v < 4294967296 # 1 ->
  (2147483648 # 1 <= v /\ multiple_of_pow2 v (- (21))
   /\ Qabs (v - v1) <= 1 # 4194304)
  \/ (1073741824 # 1 <= v /\ v < 2147483648 # 1 /\ multiple_of_pow2 v (- (22))
      /\ Qabs (v - v1) <= 1 # 4194304)
  \/ (v < 1073741824 # 1 /\ v == v1 /\ multiple_of_pow2 v (- (22))).
Proof.
  intros ntp v v1 Hvt Hfin Hpos Hlt.
  pose proof (ntp_time_rounds t Hvt Hfin) as Hr. fold ntp in Hr.
  pose proof (rt_valid _ _ Hr) as Hvn.
  assert (Hft : is_finite t = true)
    by (eapply float_sub_finite_l; [exact Hfin | reflexivity]).
  assert (Hr1 : rounds_to v1 ntp).
  { eapply rounds_to_wd; [| exact Hr]. unfold v1.
    rewrite offset_value_lit. ring. }
  assert (Habsv : Qabs v == v) by (apply Qabs_pos; assumption).
  assert (Hv1lt : Qabs v1 < 2 ^ 32).
  { apply (rounds_to_below _ _ 32 Hr1); [rewrite emin64_value; lia |].
    fold v. rewrite Habsv. exact Hlt. }
  assert (Herr : Qabs (v - v1) <= 1 # 4194304).
  { apply (rounds_to_error _ _ Hr1 32); [rewrite emin64_value; unfold prec; lia |].
    exact Hv1lt. }
  destruct (Qlt_le_dec v (1073741824 # 1)) as [Hlow | Hhigh].
  - (* below 2^30: the calendar time is below -2^30, on the grid 2^-22 *)
    right. right.
    assert (Hv1lt30 : Qabs v1 < 2 ^ 30).
    { apply (rounds_to_below _ _ 30 Hr1); [rewrite emin64_value; lia |].
      fold v. rewrite Habsv. exact Hlow. }
    assert (Htbig : 2 ^ 30 <= Qabs (SF2Q t)).
    { change (2 ^ 30) with (1073741824 # 1) in *.
      unfold v1 in Hv1lt30.
      destruct (Qabs_cases (SF2Q t + (2208988800 # 1))) as [[? Ha] | [? Ha]];
        rewrite Ha in Hv1lt30;
        destruct (Qabs_cases (SF2Q t)) as [[? Hb] | [? Hb]]; rewrite Hb; lra. }
    pose proof (valid_grid t 30 Hft Hvt Htbig) as Htgrid.
    change (30 - 52)%Z with (- (22))%Z in Htgrid.
    assert (Hv1grid : multiple_of_pow2 v1 (- (22))).
    { unfold v1. apply multiple_plus; [assumption |].
      apply (multiple_inject_Z 2208988800). lia. }
    assert (Hexact : v == v1).
    { apply (rounds_to_exact _ _ Hr1 30);
        [rewrite emin64_value; unfold prec; lia | assumption |].
      apply multiple_finer with (- (22))%Z; [unfold prec; lia | assumption]. }
    split; [assumption |]. split; [assumption |].
    rewrite Hexact. assumption.
  - destruct (Qlt_le_dec v (2147483648 # 1)) as [Hmid | Htop].
    + right. left. split; [assumption |]. split; [assumption |].
      split; [| assumption].
      apply (valid_grid ntp 30 Hfin Hvn). fold v. rewrite Habsv. exact Hhigh.
    + left. split; [assumption |]. split; [| assumption].
      apply (valid_grid ntp 31 Hfin Hvn). fold v. rewrite Habsv. exact Htop.
Qed.


(** Decoding the encoding of a calendar time in range gives a float at
    most [2^-22] from it. *)
Lemma decode_encode_error (t : float) :
  let ntp := float_sub t get_ntp_timestamp_offset in
  is_float64 t = true -> is_finite ntp = true ->
  0 <= SF2Q ntp -> (Qfloor (SF2Q ntp) < 2 ^ 32)%Z ->
  exists r,
    (p <- encode_ntp_timestamp t ;; decode_ntp_timestamp (fst p) (snd p)) = Ok r
    /\ is_finite r = true
    /\ Qabs (SF2Q r - SF2Q t) <= 1 # 4194304.
Proof.
  intros ntp Hvt Hfin Hpos Hfl.
  pose proof (ntp_time_rounds t Hvt Hfin) as Hr. fold ntp in Hr.
  pose proof (rt_valid _ _ Hr) as Hvn.
  assert (Hft : is_finite t = true)
    by (eapply float_sub_finite_l; [exact Hfin | reflexivity]).
  rewrite (encode_ntp_timestamp_spec t Hvt Hfin Hpos Hfl). fold ntp.
  cbn [bind fst snd].
  set (v := SF2Q ntp) in *.
  pose proof (Qfloor_frac v) as [Hlo Hhi].
  pose proof (Qfloor_nonneg v Hpos) as Hs0.
  assert (Hlt : v < 4294967296 # 1).
  { assert (inject_Z (Qfloor v) <= inject_Z 4294967295)
      by (rewrite <- Zle_Qle; change (2 ^ 32)%Z with 4294967296%Z in Hfl; lia).
    change (inject_Z 4294967295) with (4294967295 # 1) in *. lra. }
  pose proof (ntp_time_cases t Hvt Hfin Hpos Hlt) as Hcases.
  cbv zeta in Hcases. fold ntp in Hcases. fold v in Hcases.
  assert (Hgrid : multiple_of_pow2 v (- (32))).
  { destruct Hcases as [(_ & Hg & _) | [(_ & _ & Hg & _) | (_ & _ & Hg)]];
      (eapply multiple_finer; [| exact Hg]); lia. }
  set (f := Qfloor ((v - inject_Z (Qfloor v)) * 2 ^ 32)).
  assert (Hf : (0 <= f < 2 ^ 32)%Z).
  { assert (Hfr0 : 0 <= (v - inject_Z (Qfloor v)) * 2 ^ 32)
      by (change (2 ^ 32) with (4294967296 # 1); lra).
    split; [apply Qfloor_nonneg; assumption |].
    pose proof (Qfloor_le ((v - inject_Z (Qfloor v)) * 2 ^ 32)) as Hle.
    fold f in Hle.
    assert (inject_Z f < inject_Z 4294967296).
    { change (inject_Z 4294967296) with (4294967296 # 1).
      change (2 ^ 32) with (4294967296 # 1) in Hle. lra. }
    rewrite <- Zlt_Qlt in H. exact H. }
  destruct (decode_ntp_timestamp_spec (Qfloor v) f ntp ltac:(lia) Hf Hfin Hvn)
    as (y & Hdec & Hfy & Hvy & Hqy).
  { apply trunc32_exact. assumption. }
  rewrite Hdec.
  assert (Hr2 : rounds_to (v - (2208988800 # 1))
                  (float_add y get_ntp_timestamp_offset)).
  { apply rounds_to_wd with (SF2Q y + SF2Q get_ntp_timestamp_offset).
    - rewrite Hqy, offset_value_lit. fold v. ring.
    - apply rounds_no_overflow with 32%Z;
        [apply float_add_rounds; try assumption; reflexivity | | unfold emax; lia].
      rewrite Hqy, offset_value_lit. fold v.
      change (2 ^ 32) with (4294967296 # 1).
      destruct (Qabs_cases (v + - (2208988800 # 1))) as [[? Ha] | [? Ha]];
        rewrite Ha; lra. }
  exists (float_add y get_ntp_timestamp_offset).
  split; [reflexivity |]. split; [apply (rt_finite _ _ Hr2) |].
  assert (HK : multiple_of_pow2 (2208988800 # 1) (- (22)))
    by (apply (multiple_inject_Z 2208988800); lia).
  destruct Hcases as [(Htop & Hg & Herr) | [(Hmid & Hmid' & Hg & Herr) | (Hlow & Hex & Hg)]].
  - (* [2^31, 2^32): v - K is on the grid 2^-21 and below 2^32 *)
    assert (Hexact : SF2Q (float_add y get_ntp_timestamp_offset)
                     == v - (2208988800 # 1)).
    { apply (rounds_to_exact _ _ Hr2 32).
      - rewrite emin64_value. unfold prec. lia.
      - change (2 ^ 32) with (4294967296 # 1).
        destruct (Qabs_cases (v - (2208988800 # 1))) as [[? Ha] | [? Ha]];
          rewrite Ha; lra.
      - change (32 - prec)%Z with (- (21))%Z.
        apply multiple_minus; [assumption |].
        apply (multiple_inject_Z 2208988800). lia. }
    rewrite Hexact.
    setoid_replace (v - (2208988800 # 1) - SF2Q t)
      with (v - (SF2Q t + (2208988800 # 1))) by ring.
    assumption.
  - (* [2^30, 2^31): v - K is on the grid 2^-22 and below 2^31 *)
    assert (Hexact : SF2Q (float_add y get_ntp_timestamp_offset)
                     == v - (2208988800 # 1)).
    { apply (rounds_to_exact _ _ Hr2 31).
      - rewrite emin64_value. unfold prec. lia.
      - change (2 ^ 31) with (2147483648 # 1).
        destruct (Qabs_cases (v - (2208988800 # 1))) as [[? Ha] | [? Ha]];
          rewrite Ha; lra.
      - change (31 - prec)%Z with (- (22))%Z.
        apply multiple_minus; assumption. }
    rewrite Hexact.
    setoid_replace (v - (2208988800 # 1) - SF2Q t)
      with (v - (SF2Q t + (2208988800 # 1))) by ring.
    assumption.
  - (* below 2^30: nothing was lost, and the result is the calendar time *)
    assert (Hexact : SF2Q (float_add y get_ntp_timestamp_offset)
                     == v - (2208988800 # 1)).
    { apply rounds_to_float with t; try assumption. rewrite Hex. ring. }
    rewrite Hexact, Hex.
    setoid_replace (SF2Q t + (2208988800 # 1) - (2208988800 # 1) - SF2Q t)
      with 0 by ring.
    change (Qabs 0) with 0. discriminate.
Qed.

End RoundTrip.

(** * The clock offset *)

Section Offset.
Local Open Scope Q_scope.

(** One addition of the offset formula: both operands on the grid
    [2^-32], the sum below [2^k]. *)
Lemma float_add_step (x y : float) (k : Z) :
  is_finite x = true -> is_float64 x = true ->
  is_finite y = true -> is_float64 y = true ->
  multiple_of_pow2 (SF2Q x) (- (32)) -> multiple_of_pow2 (SF2Q y) (- (32)) ->
  Qabs (SF2Q x + SF2Q y) < 2 ^ k -> (emin64 + prec <= k <= emax - 1)%Z ->
  let z := float_add x y in
  is_finite z = true /\ is_float64 z = true
  /\ multiple_of_pow2 (SF2Q z) (- (32))
  /\ Qabs (SF2Q z - (SF2Q x + SF2Q y)) <= 2 ^ (k - prec - 1)
  /\ ((k <= 21)%Z -> SF2Q z == SF2Q x + SF2Q y).
Proof.
  intros Hfx Hvx Hfy Hvy Hgx Hgy Hlt Hk z.
  assert (Hr : rounds_to (SF2Q x + SF2Q y) z).
  { apply rounds_no_overflow with k; [| assumption | lia].
    apply float_add_rounds; assumption. }
  assert (Hg : multiple_of_pow2 (SF2Q x + SF2Q y) (- (32)))
    by (apply multiple_plus; assumption).
  split; [apply (rt_finite _ _ Hr) |]. split; [apply (rt_valid _ _ Hr) |].
  split; [apply (rounds_to_grid _ _ Hr); assumption |].
  split; [apply (rounds_to_error _ _ Hr); [lia | assumption] |].
  intros Hk21. apply (rounds_to_exact _ _ Hr k); [lia | assumption |].
  apply multiple_finer with (- (32))%Z; [unfold prec; lia | assumption].
Qed.

(** Halving a float on the grid [2^-32] is exact. *)
Lemma float_half_exact (x : float) :
  is_finite x = true -> is_float64 x = true ->
  multiple_of_pow2 (SF2Q x) (- (32)) -> Qabs (SF2Q x) < 2 ^ 35 ->
  let r := float_div x (S754_finite false 4503599627370496 (-51)) in
  is_finite r = true /\ SF2Q r == SF2Q x / 2.
Proof.
  intros Hfx Hvx Hgx Hlt r.
  destruct (float_div_pow2_exact x (-51) (- (32)) 35 Hfx Hvx)
    as (Hfr & _ & Hqr).
  - apply multiple_zero_or_big. assumption.
  - lia.
  - change (2 ^ (- (52 + -51))) with (1 # 2).
    change (2 ^ 35) with (34359738368 # 1) in *.
    destruct (Qabs_cases (SF2Q x)) as [[? Ha] | [? Ha]]; rewrite Ha in Hlt;
      destruct (Qabs_cases (SF2Q x * (1 # 2))) as [[? Hb] | [? Hb]]; rewrite Hb;
      lra.
  - unfold emax. lia.
  - split; [assumption |]. fold r in Hqr. rewrite Hqr.
    change (2 ^ (- (52 + -51))) with (1 # 2). field.
Qed.


Lemma inject_Z_abs_le (z B : Z) :
  (Z.abs z <= B)%Z -> - inject_Z B <= inject_Z z /\ inject_Z z <= inject_Z B.
Proof.
  intros H. rewrite <- inject_Z_opp, <- !Zle_Qle. lia.
Qed.

Lemma frac32_facts (n : Z) :
  (Z.abs n < 2 ^ 32)%Z ->
  - (1) < inject_Z n / two32Q /\ inject_Z n / two32Q < 1
  /\ multiple_of_pow2 (inject_Z n / two32Q) (- (32)).
Proof.
  intros Hn. change (2 ^ 32)%Z with 4294967296%Z in Hn.
  destruct (inject_Z_abs_le n 4294967295 ltac:(lia)) as [Hlo Hhi].
  change (inject_Z 4294967295) with (4294967295 # 1) in *.
  assert (Hq : inject_Z n / two32Q == inject_Z n * (1 # 4294967296)).
  { unfold two32Q. change (2 ^ 32) with (4294967296 # 1). field. }
  rewrite Hq. split; [lra |]. split; [lra |].
  exists n. unfold F2Q. reflexivity.
Qed.

(** [compute_offset] on 32-bit components, its arguments in the order of
    its parameters: client transmit [t1], client receive [t4], server
    transmit [t3], server receive [t2]. *)
Lemma compute_offset_error (t1 t2 t3 t4 : Z * Z) :
  timestamp_in_range t1 = true -> timestamp_in_range t2 = true ->
  timestamp_in_range t3 = true -> timestamp_in_range t4 = true ->
  exists r,
    compute_offset t1 t4 t3 t2 = Ok r
    /\ is_finite r = true
    /\ Qabs (SF2Q r - offset_formula t1 t2 t3 t4) <= 2 ^ (- 20)
    /\ ((Z.abs (fst t2 - fst t1) < 2 ^ 20)%Z ->
        (Z.abs (fst t3 - fst t4) < 2 ^ 20)%Z ->
        SF2Q r == offset_formula t1 t2 t3 t4).
Proof.
  unfold timestamp_in_range. rewrite !andb_true_iff, !in_bits_spec.
  change (2 ^ 32)%Z with 4294967296%Z.
  intros [H1s H1f] [H2s H2f] [H3s H3f] [H4s H4f].
  unfold compute_offset, offset_formula.
  set (S1 := (fst t2 - fst t1)%Z). set (N1 := (snd t2 - snd t1)%Z).
  set (S2 := (fst t3 - fst t4)%Z). set (N2 := (snd t3 - snd t4)%Z).
  destruct (int_truediv_two32 N1 ltac:(unfold N1; change (2 ^ 32)%Z with 4294967296%Z; lia))
    as (fr1 & Hfr1 & Hffr1 & Hvfr1 & Hqfr1).
  destruct (int_truediv_two32 N2 ltac:(unfold N2; change (2 ^ 32)%Z with 4294967296%Z; lia))
    as (fr2 & Hfr2 & Hffr2 & Hvfr2 & Hqfr2).
  destruct (float_of_int_exact S1 ltac:(unfold S1; change (2 ^ 53)%Z with 9007199254740992%Z; lia))
    as (sf1 & Hsf1 & Hfsf1 & Hvsf1 & Hqsf1).
  destruct (float_of_int_exact S2 ltac:(unfold S2; change (2 ^ 53)%Z with 9007199254740992%Z; lia))
    as (sf2 & Hsf2 & Hfsf2 & Hvsf2 & Hqsf2).
  rewrite Hfr1, Hfr2, Hsf1, Hsf2, float_of_int_two. cbn [bind].
  destruct (frac32_facts N1 ltac:(unfold N1; change (2 ^ 32)%Z with 4294967296%Z; lia))
    as (HF1lo & HF1hi & HF1g).
  destruct (frac32_facts N2 ltac:(unfold N2; change (2 ^ 32)%Z with 4294967296%Z; lia))
    as (HF2lo & HF2hi & HF2g).
  destruct (inject_Z_abs_le S1 4294967295 ltac:(unfold S1; lia)) as [HS1lo HS1hi].
  destruct (inject_Z_abs_le S2 4294967295 ltac:(unfold S2; lia)) as [HS2lo HS2hi].
  change (inject_Z 4294967295) with (4294967295 # 1) in *.
  set (F1 := inject_Z N1 / two32Q) in *. set (F2 := inject_Z N2 / two32Q) in *.
  set (q1 := inject_Z S1) in *. set (q2 := inject_Z S2) in *.
  assert (Hgq1 : multiple_of_pow2 q1 (- (32))) by (apply multiple_inject_Z; lia).
  assert (Hgq2 : multiple_of_pow2 q2 (- (32))) by (apply multiple_inject_Z; lia).
  rewrite <- Hqsf1 in Hgq1. rewrite <- Hqsf2 in Hgq2.
  rewrite <- Hqfr1 in HF1g. rewrite <- Hqfr2 in HF2g.
  (* first addition *)
  destruct (float_add_step sf1 fr1 32 Hfsf1 Hvsf1 Hffr1 Hvfr1 Hgq1 HF1g)
    as (Hfa1 & Hva1 & Hga1 & Hea1 & _).
  { rewrite Hqsf1, Hqfr1. change (2 ^ 32) with (4294967296 # 1).
    destruct (Qabs_cases (q1 + F1)) as [[? Ha] | [? Ha]]; rewrite Ha; lra. }
  { rewrite emin64_value. unfold prec, emax. lia. }
  set (a1 := float_add sf1 fr1) in *.
  change (2 ^ (32 - prec - 1)) with (1 # 4194304) in Hea1.
  rewrite Hqsf1, Hqfr1 in Hea1. apply Qabs_Qle_condition in Hea1.
  (* second addition *)
  destruct (float_add_step a1 sf2 33 Hfa1 Hva1 Hfsf2 Hvsf2 Hga1 Hgq2)
    as (Hfa2 & Hva2 & Hga2 & Hea2 & _).
  { rewrite Hqsf2. change (2 ^ 33) with (8589934592 # 1).
    destruct (Qabs_cases (SF2Q a1 + q2)) as [[? Ha] | [? Ha]]; rewrite Ha; lra. }
  { rewrite emin64_value. unfold prec, emax. lia. }
  set (a2 := float_add a1 sf2) in *.
  change (2 ^ (33 - prec - 1)) with (1 # 2097152) in Hea2.
  rewrite Hqsf2 in Hea2. apply Qabs_Qle_condition in Hea2.
  (* third addition *)
  destruct (float_add_step a2 fr2 34 Hfa2 Hva2 Hffr2 Hvfr2 Hga2 HF2g)
    as (Hfa3 & Hva3 & Hga3 & Hea3 & _).
  { rewrite Hqfr2. change (2 ^ 34) with (17179869184 # 1).
    destruct (Qabs_cases (SF2Q a2 + F2)) as [[? Ha] | [? Ha]]; rewrite Ha; lra. }
  { rewrite emin64_value. unfold prec, emax. lia. }
  set (a3 := float_add a2 fr2) in *.
  change (2 ^ (34 - prec - 1)) with (1 # 1048576) in Hea3.
  rewrite Hqfr2 in Hea3. apply Qabs_Qle_condition in Hea3.
  (* the division by two *)
  destruct (float_half_exact a3 Hfa3 Hva3 Hga3) as (Hfr & Hqr).
  { change (2 ^ 35) with (34359738368 # 1).
    destruct (Qabs_cases (SF2Q a3)) as [[? Ha] | [? Ha]]; rewrite Ha; lra. }
  eexists. split; [reflexivity |]. split; [exact Hfr |].
  rewrite Hqr. split.
  - change (2 ^ (- 20)) with (1 # 1048576).
    apply Qabs_Qle_condition.
    assert (Hd : SF2Q a3 / 2 - (q1 + F1 + (q2 + F2)) / 2
                 == (SF2Q a3 - (q1 + F1 + q2 + F2)) * (1 # 2)) by field.
    rewrite Hd. split; lra.
  - intros Hs1 Hs2.
    change (2 ^ 20)%Z with 1048576%Z in Hs1, Hs2.
    destruct (inject_Z_abs_le S1 1048575 ltac:(lia)) as [Hq1lo Hq1hi].
    destruct (inject_Z_abs_le S2 1048575 ltac:(lia)) as [Hq2lo Hq2hi].
    change (inject_Z 1048575) with (1048575 # 1) in *. fold q1 q2 in Hq1lo, Hq1hi, Hq2lo, Hq2hi.
    destruct (float_add_step sf1 fr1 21 Hfsf1 Hvsf1 Hffr1 Hvfr1 Hgq1 HF1g)
      as (_ & _ & _ & _ & Hx1).
    { rewrite Hqsf1, Hqfr1. change (2 ^ 21) with (2097152 # 1).
      destruct (Qabs_cases (q1 + F1)) as [[? Ha] | [? Ha]]; rewrite Ha; lra. }
    { rewrite emin64_value. unfold prec, emax. lia. }
    specialize (Hx1 ltac:(lia)). fold a1 in Hx1. rewrite Hqsf1, Hqfr1 in Hx1.
    destruct (float_add_step a1 sf2 21 Hfa1 Hva1 Hfsf2 Hvsf2 Hga1 Hgq2)
      as (_ & _ & _ & _ & Hx2).
    { rewrite Hqsf2, Hx1. change (2 ^ 21) with (2097152 # 1).
      destruct (Qabs_cases (q1 + F1 + q2)) as [[? Ha] | [? Ha]]; rewrite Ha; lra. }
    { rewrite emin64_value. unfold prec, emax. lia. }
    specialize (Hx2 ltac:(lia)). fold a2 in Hx2. rewrite Hqsf2, Hx1 in Hx2.
    destruct (float_add_step a2 fr2 21 Hfa2 Hva2 Hffr2 Hvfr2 Hga2 HF2g)
      as (_ & _ & _ & _ & Hx3).
    { rewrite Hqfr2, Hx2. change (2 ^ 21) with (2097152 # 1).
      destruct (Qabs_cases (q1 + F1 + q2 + F2)) as [[? Ha] | [? Ha]]; rewrite Ha; lra. }
    { rewrite emin64_value. unfold prec, emax. lia. }
    specialize (Hx3 ltac:(lia)). fold a3 in Hx3. rewrite Hqfr2, Hx2 in Hx3.
    rewrite Hx3. field.
Qed.

End Offset.

(** * The NTP time, exact and computed *)

Section ExactTime.
Local Open Scope Q_scope.

(** The two floors of [encode_ntp_timestamp], for every NTP time from 0
    up to [2^53]: the seconds are not checked against the 32 bits of the
    wire format. *)
Lemma encode_ntp_timestamp_wide (t : float) :
  let ntp := float_sub t get_ntp_timestamp_offset in
  is_float64 t = true -> is_finite ntp = true ->
  0 <= SF2Q ntp -> (Qfloor (SF2Q ntp) < 2 ^ 53)%Z ->
  encode_ntp_timestamp t
  = Ok (Qfloor (SF2Q ntp),
        Qfloor ((SF2Q ntp - inject_Z (Qfloor (SF2Q ntp))) * 2 ^ 32)).
Proof.
  intros ntp Hvt Hfin Hpos Hlt.
  pose proof (ntp_time_rounds t Hvt Hfin) as Hr. fold ntp in Hr.
  pose proof (rt_valid _ _ Hr) as Hvn.
  pose proof (Qfloor_nonneg _ Hpos) as Hfl.
  pose proof (Qfloor_frac (SF2Q ntp)) as [Hlo Hhi].
  unfold encode_ntp_timestamp. fold ntp.
  rewrite (int_of_float_floor ntp Hfin Hpos). cbn [bind].
  destruct (float_of_int_exact (Qfloor (SF2Q ntp)) ltac:(lia))
    as (sf & Hsf & Hfs & Hvs & Hs).
  rewrite Hsf, float_of_int_two32. cbn [bind].
  destruct (float_frac_exact ntp sf Hfin Hvn Hpos Hfs Hvs Hs) as (Hfd & Hvd & Hd).
  destruct (float_mul_pow2_exact (float_sub ntp sf) (-20) 32 Hfd Hvd
              ltac:(lia)) as (Hfm & Hvm & Hm).
  { rewrite Hd. change (52 + -20)%Z with 32%Z.
    rewrite Qabs_pos by (pose proof (Q2_pos 32); nra).
    pose proof (Q2_pos 32). nra. }
  { unfold emax. lia. }
  change (52 + -20)%Z with 32%Z in Hm.
  rewrite int_of_float_floor; [| assumption |].
  - cbn [bind]. rewrite Hm, Hd. reflexivity.
  - rewrite Hm, Hd. pose proof (Q2_pos 32). nra.
Qed.

(** The fraction that the encoder computes is below [2^32], whatever the
    seconds are. *)
Lemma fraction_in_bits (v : Q) :
  in_bits 32 (Qfloor ((v - inject_Z (Qfloor v)) * 2 ^ 32)) = true.
Proof.
  pose proof (Qfloor_frac v) as [Hlo Hhi].
  apply in_bits_spec.
  assert (Hfr0 : 0 <= (v - inject_Z (Qfloor v)) * 2 ^ 32)
    by (change (2 ^ 32) with (4294967296 # 1); lra).
  split; [apply Qfloor_nonneg; assumption |].
  pose proof (Qfloor_le ((v - inject_Z (Qfloor v)) * 2 ^ 32)) as Hle.
  set (f := Qfloor ((v - inject_Z (Qfloor v)) * 2 ^ 32)) in *.
  assert (H : inject_Z f < inject_Z 4294967296).
  { change (inject_Z 4294967296) with (4294967296 # 1).
    change (2 ^ 32) with (4294967296 # 1) in Hle. lra. }
  rewrite <- Zlt_Qlt in H. exact H.
Qed.

(** The exact NTP time is the calendar time plus 2208988800. *)
Lemma exact_ntp_time_value (t : float) :
  exact_ntp_time t == SF2Q t + inject_Z 2208988800.
Proof.
  unfold exact_ntp_time. rewrite offset_value. ring.
Qed.

(** On [0, 2^32) the subtraction of the epoch offset rounds the exact NTP
    time to a float that is not negative and at most [2^-22] away. *)
Lemma computed_ntp_time (t : float) :
  let ntp := float_sub t get_ntp_timestamp_offset in
  is_float64 t = true -> is_finite t = true ->
  0 <= exact_ntp_time t -> exact_ntp_time t < 2 ^ 32 ->
  rounds_to (exact_ntp_time t) ntp
  /\ is_finite ntp = true
  /\ 0 <= SF2Q ntp
  /\ Qabs (SF2Q ntp - exact_ntp_time t) <= 2 ^ (- 22).
Proof.
  intros ntp Hvt Hft Hpos Hlt.
  assert (Hr : rounds_to (exact_ntp_time t) ntp).
  { apply rounds_no_overflow with 32%Z;
      [apply float_sub_rounds;
         [assumption | reflexivity | assumption | reflexivity]
      | | unfold emax; lia].
    rewrite Qabs_pos by assumption. assumption. }
  split; [assumption |]. split; [apply (rt_finite _ _ Hr) |].
  split; [apply (rounds_to_nonneg _ _ Hr Hpos) |].
  apply (rounds_to_error _ _ Hr 32).
  - rewrite emin64_value. unfold prec. lia.
  - rewrite Qabs_pos by assumption. assumption.
Qed.

(** Below [2^32 - 2^-22] the computed seconds fit their 32 bits. *)
Lemma computed_ntp_time_fits (t : float) :
  let ntp := float_sub t get_ntp_timestamp_offset in
  is_float64 t = true -> is_finite t = true ->
  0 <= exact_ntp_time t -> exact_ntp_time t + 2 ^ (- 22) < 2 ^ 32 ->
  is_finite ntp = true /\ 0 <= SF2Q ntp /\ (Qfloor (SF2Q ntp) < 2 ^ 32)%Z.
Proof.
  intros ntp Hvt Hft Hpos Hlt.
  change (2 ^ (- 22)) with (1 # 4194304) in Hlt.
  change (2 ^ 32) with (4294967296 # 1) in Hlt.
  destruct (computed_ntp_time t Hvt Hft Hpos) as (_ & Hfin & Hw0 & Herr).
  { change (2 ^ 32) with (4294967296 # 1). lra. }
  fold ntp in Hfin, Hw0, Herr.
  split; [assumption |]. split; [assumption |].
  change (2 ^ (- 22)) with (1 # 4194304) in Herr.
  apply Qabs_Qle_condition in Herr. destruct Herr as [_ Hhi].
  pose proof (Qfloor_le (SF2Q ntp)) as Hfl.
  assert (H : inject_Z (Qfloor (SF2Q ntp)) < inject_Z (2 ^ 32)).
  { change (inject_Z (2 ^ 32)) with (4294967296 # 1). lra. }
  rewrite <- Zlt_Qlt in H. exact H.
Qed.

(** From [2^32] on (and below [2^52]) the computed seconds do not fit. *)
Lemma computed_ntp_time_late (t : float) :
  let ntp := float_sub t get_ntp_timestamp_offset in
  is_float64 t = true -> is_finite t = true ->
  2 ^ 32 <= exact_ntp_time t -> exact_ntp_time t < 2 ^ 52 ->
  is_finite ntp = true
  /\ (2 ^ 32 <= Qfloor (SF2Q ntp) < 2 ^ 53)%Z.
Proof.
  intros ntp Hvt Hft Hlo Hhi.
  assert (Hpos : 0 <= exact_ntp_time t)
    by (change (2 ^ 32) with (4294967296 # 1) in Hlo; lra).
  assert (Hr : rounds_to (exact_ntp_time t) ntp).
  { apply rounds_no_overflow with 52%Z;
      [apply float_sub_rounds;
         [assumption | reflexivity | assumption | reflexivity]
      | | unfold emax; lia].
    rewrite Qabs_pos by assumption. assumption. }
  split; [apply (rt_finite _ _ Hr) |].
  pose proof (rounds_to_nonneg _ _ Hr Hpos) as Hw0.
  pose proof (rounds_to_lower _ _ Hr 32
                ltac:(rewrite emin64_value; lia)) as Hlow.
  rewrite !Qabs_pos in Hlow by assumption.
  specialize (Hlow Hlo).
  pose proof (rounds_to_error _ _ Hr 52
                ltac:(rewrite emin64_value; unfold prec; lia)) as Herr.
  rewrite Qabs_pos in Herr by assumption.
  specialize (Herr Hhi).
  change (2 ^ (52 - prec - 1)) with (1 # 4) in Herr.
  apply Qabs_Qle_condition in Herr. destruct Herr as [_ Herr].
  change (2 ^ 52) with (4503599627370496 # 1) in Hhi.
  change (2 ^ 32) with (inject_Z (2 ^ 32)) in Hlow.
  split.
  - apply Qfloor_resp_le in Hlow. rewrite Qfloor_Z in Hlow. exact Hlow.
  - pose proof (Qfloor_le (SF2Q ntp)) as Hfl.
    assert (H : inject_Z (Qfloor (SF2Q ntp)) < inject_Z (2 ^ 53)).
    { change (inject_Z (2 ^ 53)) with (9007199254740992 # 1). lra. }
    rewrite <- Zlt_Qlt in H. exact H.
Qed.

(** What [encode_ntp_timestamp] returns on the whole of [0, 2^32): the
    two floors of the computed NTP time, which are those of the exact
    one when the exact one is on the grid of step [2^-21]. *)
Lemma encode_ntp_timestamp_exact_time (t : float) :
  let ntp := float_sub t get_ntp_timestamp_offset in
  is_float64 t = true -> is_finite t = true ->
  0 <= exact_ntp_time t -> exact_ntp_time t < 2 ^ 32 ->
  encode_ntp_timestamp t = Ok (ntp_floors (SF2Q ntp))
  /\ (Qfloor (SF2Q ntp) <= 2 ^ 32)%Z
  /\ (multiple_of_pow2 (exact_ntp_time t) (- (21)) ->
      encode_ntp_timestamp t = Ok (ntp_floors (exact_ntp_time t))).
Proof.
  intros ntp Hvt Hft Hpos Hlt.
  destruct (computed_ntp_time t Hvt Hft Hpos Hlt) as (Hr & Hfin & Hw0 & Herr).
  fold ntp in Hr, Hfin, Hw0, Herr.
  change (2 ^ (- 22)) with (1 # 4194304) in Herr.
  apply Qabs_Qle_condition in Herr. destruct Herr as [_ Hhi].
  pose proof (Qfloor_le (SF2Q ntp)) as Hfl.
  assert (Hfloor : (Qfloor (SF2Q ntp) < 2 ^ 32 + 1)%Z).
  { assert (H : inject_Z (Qfloor (SF2Q ntp)) < inject_Z (2 ^ 32 + 1)).
    { change (inject_Z (2 ^ 32 + 1)) with (4294967297 # 1).
      change (2 ^ 32) with (4294967296 # 1) in Hlt. lra. }
    rewrite <- Zlt_Qlt in H. exact H. }
  assert (Henc : encode_ntp_timestamp t = Ok (ntp_floors (SF2Q ntp))).
  { apply (encode_ntp_timestamp_wide t Hvt Hfin Hw0). fold ntp. lia. }
  split; [assumption |]. split; [lia |].
  intros Hgrid. rewrite Henc.
  assert (Hex : SF2Q ntp == exact_ntp_time t).
  { apply (rounds_to_exact _ _ Hr 32).
    - rewrite emin64_value. unfold prec. lia.
    - rewrite Qabs_pos by assumption. assumption.
    - exact Hgrid. }
  unfold ntp_floors.
  rewrite (Qfloor_comp _ _ Hex).
  assert (Hfr : (SF2Q ntp - inject_Z (Qfloor (exact_ntp_time t))) * 2 ^ 32
                == (exact_ntp_time t - inject_Z (Qfloor (exact_ntp_time t)))
                   * 2 ^ 32)
    by (rewrite Hex; reflexivity).
  rewrite (Qfloor_comp _ _ Hfr). reflexivity.
Qed.

End ExactTime.

(** * The claims on timestamps and on the client packet *)

Section TimeClaims.

(** C6, as the code has it: for every finite calendar time whose NTP
    time [ntp_time = calendar_time - epoch_offset] is in [0, 2^32), with
    the epoch offset -2208988800, [encode_ntp_timestamp] first rounds
    [ntp_time] to a binary64 number, at most [2^-22] away, and returns
    the floor of that number and the floor of its fractional part times
    [2^32]: truncated, not rounded.  These are the two floors of
    [ntp_time] itself when [ntp_time] is a multiple of [2^-21]. *)
Theorem encode_ntp_timestamp_floor (calendar_time : float) :
  let ntp_time := exact_ntp_time calendar_time in
  let computed := float_sub calendar_time get_ntp_timestamp_offset in
  is_float64 calendar_time = true ->
  is_finite calendar_time = true ->
  (0 <= ntp_time)%Q ->
  (ntp_time < 2 ^ 32)%Q ->
  (SF2Q get_ntp_timestamp_offset == - inject_Z 2208988800)%Q
  /\ (ntp_time == SF2Q calendar_time + inject_Z 2208988800)%Q
  /\ is_finite computed = true
  /\ (0 <= SF2Q computed)%Q
  /\ (Qabs (SF2Q computed - ntp_time) <= 2 ^ (- 22))%Q
  /\ encode_ntp_timestamp calendar_time = Ok (ntp_floors (SF2Q computed))
  /\ (multiple_of_pow2 ntp_time (- (21)) ->
      encode_ntp_timestamp calendar_time = Ok (ntp_floors ntp_time)).
Proof.
  intros ntp_time computed Hvalid Hfinite Hpos Hfit.
  destruct (computed_ntp_time calendar_time Hvalid Hfinite Hpos Hfit)
    as (_ & Hfin & Hw0 & Herr).
  destruct (encode_ntp_timestamp_exact_time calendar_time
              Hvalid Hfinite Hpos Hfit) as (Henc & _ & Hexact).
  split; [apply offset_value |].
  split; [apply exact_ntp_time_value |].
  repeat (split; [assumption |]).
  exact Hexact.
Qed.

(** At calendar time 1700000000.5 the NTP time is 3908988800.5, the
    seconds are 3908988800 and the fraction is 2147483648, half of
    [2^32]. *)
Lemma encode_ntp_timestamp_floor_witness :
  is_float64 time_1700000000_5 = true
  /\ (SF2Q time_1700000000_5 == 3400000001 # 2)%Q
  /\ (exact_ntp_time time_1700000000_5 == 7817977601 # 2)%Q
  /\ encode_ntp_timestamp time_1700000000_5 = Ok (3908988800, 2147483648).
Proof.
  split; [reflexivity |]. split; [reflexivity |].
  split; [vm_compute; reflexivity |].
  destruct (encode_ntp_timestamp_floor time_1700000000_5)
    as (_ & _ & _ & _ & _ & _ & H);
    [reflexivity | reflexivity | vm_compute; discriminate
    | vm_compute; reflexivity |].
  rewrite H; [reflexivity |].
  exists 8197743680946176. vm_compute. reflexivity.
Defined.

(** C6, as stated, fails: the subtraction of the epoch offset rounds
    before anything is floored.  At 1700000000 + 3 * 2^-22 the NTP time
    is 3908988800 + 3 * 2^-22, whose floors are (3908988800, 3072), and
    the code returns (3908988800, 4096).  At the last float before
    2085978496 the NTP time is 2^32 - 2^-22, whose integer part fits in
    32 bits, and the code returns the seconds [2^32]. *)
Lemma encode_ntp_timestamp_rounds_first :
  (is_float64 time_1700000000_3ulp = true
   /\ (exact_ntp_time time_1700000000_3ulp == 16395487359795203 # 4194304)%Q
   /\ ntp_floors (exact_ntp_time time_1700000000_3ulp) = (3908988800, 3072)
   /\ encode_ntp_timestamp time_1700000000_3ulp = Ok (3908988800, 4096))
  /\
  (is_float64 time_2036_minus_ulp = true
   /\ (exact_ntp_time time_2036_minus_ulp == 18014398509481983 # 4194304)%Q
   /\ ntp_floors (exact_ntp_time time_2036_minus_ulp)
      = (4294967295, 4294966272)
   /\ encode_ntp_timestamp time_2036_minus_ulp = Ok (4294967296, 0)).
Proof.
  repeat split; vm_compute; reflexivity.
Qed.

(** C8: for any reading [now] of the clock that [encode_ntp_timestamp]
    converts, [client_packet] builds a packet with li = 0, vn = 4,
    mode = 3, every other scalar field zero, the reference, originate and
    receive timestamps (0, 0), and the transmit timestamp
    [encode_ntp_timestamp now]. *)
Theorem client_packet_fields (now : float) (ts : Z * Z) :
  encode_ntp_timestamp now = Ok ts ->
  exists p,
    client_packet now = Ok p
    /\ li p = 0 /\ vn p = 4 /\ mode p = 3
    /\ stratum p = 0 /\ poll p = 0 /\ precision p = 0
    /\ root_delay p = 0 /\ root_dispersion p = 0
    /\ reference_identifier p = 0
    /\ reference_timestamp p = (0, 0)
    /\ originate_timestamp p = (0, 0)
    /\ receive_timestamp p = (0, 0)
    /\ transmit_timestamp p = ts.
Proof.
  intros Hts. unfold client_packet. rewrite Hts. cbn [bind].
  eexists. split; [reflexivity |].
  repeat split.
Qed.

Lemma client_packet_fields_witness :
  exists p,
    client_packet time_1700000000_5 = Ok p
    /\ li p = 0 /\ vn p = 4 /\ mode p = 3
    /\ stratum p = 0 /\ poll p = 0 /\ precision p = 0
    /\ root_delay p = 0 /\ root_dispersion p = 0
    /\ reference_identifier p = 0
    /\ reference_timestamp p = (0, 0)
    /\ originate_timestamp p = (0, 0)
    /\ receive_timestamp p = (0, 0)
    /\ transmit_timestamp p = (3908988800, 2147483648).
Proof.
  apply (client_packet_fields time_1700000000_5 (3908988800, 2147483648)).
  reflexivity.
Defined.

(** The only exception of [client_packet] is that of the conversion. *)
Lemma client_packet_raises (now : float) (e : exn) :
  encode_ntp_timestamp now = Raise e -> client_packet now = Raise e.
Proof.
  intros He. unfold client_packet. rewrite He. reflexivity.
Qed.

(** C7, as the code has it: for every calendar time [t] (a float) within
    the representable range - [t - epoch_offset], as computed, a number
    that is not negative with seconds fitting in 32 bits - decoding the
    encoding of [t] returns a float within [2^-22] seconds of [t].  The
    fraction's truncation costs nothing more: what is lost is lost when
    the shift by the epoch offset is rounded to binary64. *)
Theorem decode_encode_within_2_22 (t : float) :
  let ntp_time := float_sub t get_ntp_timestamp_offset in
  is_float64 t = true ->
  is_finite ntp_time = true ->
  (0 <= SF2Q ntp_time)%Q ->
  Qfloor (SF2Q ntp_time) < 2 ^ 32 ->
  exists r,
    (p <- encode_ntp_timestamp t ;; decode_ntp_timestamp (fst p) (snd p)) = Ok r
    /\ is_finite r = true
    /\ (Qabs (SF2Q r - SF2Q t) <= 2 ^ (- 22))%Q.
Proof.
  intros ntp_time Hvalid Hfinite Hpos Hfit.
  apply decode_encode_error; assumption.
Qed.

Lemma decode_encode_within_2_22_witness :
  exists r,
    (p <- encode_ntp_timestamp time_1700000000_5 ;;
     decode_ntp_timestamp (fst p) (snd p)) = Ok r
    /\ is_finite r = true
    /\ (Qabs (SF2Q r - SF2Q time_1700000000_5) <= 2 ^ (- 22))%Q.
Proof.
  apply (decode_encode_within_2_22 time_1700000000_5);
    [reflexivity | reflexivity | vm_compute; discriminate
    | vm_compute; reflexivity].
Defined.

(** C7, as stated, fails: 1700000000 + 2^-22 is a float, its NTP time
    3908988800 + 2^-22 is not (floats that large are 2^-21 apart) and
    rounds to 3908988800; the round trip returns 1700000000.0, which is
    2^-22 seconds away, more than 2^-32. *)
Lemma decode_encode_loses_2_22 :
  is_float64 time_1700000000_ulp = true
  /\ (SF2Q time_1700000000_ulp == inject_Z 1700000000 + 2 ^ (- 22))%Q
  /\ encode_ntp_timestamp time_1700000000_ulp = Ok (3908988800, 0)
  /\ decode_ntp_timestamp 3908988800 0 = Ok time_1700000000
  /\ (SF2Q time_1700000000 == inject_Z 1700000000)%Q
  /\ (2 ^ (- 32) < Qabs (SF2Q time_1700000000 - SF2Q time_1700000000_ulp))%Q.
Proof.
  repeat split; vm_compute; reflexivity.
Qed.

End TimeClaims.

(** * The claim on the clock offset *)

Section OffsetClaim.

(** C3, as the code has it: the parameters of [compute_offset] are, in
    order, the client transmit time [t1], the client receive time [t4],
    the server transmit time [t3] and the server receive time [t2].
    Called that way on 32-bit components it always returns a finite
    float, within [2^-20] seconds of
    [((t2.s - t1.s) + (t2.f - t1.f)/2^32 + (t3.s - t4.s) + (t3.f - t4.f)/2^32) / 2]
    with the fraction differences signed, and equal to it when both
    differences of seconds are below [2^20] in magnitude. *)
Theorem compute_offset_formula (t1 t2 t3 t4 : Z * Z) :
  timestamp_in_range t1 = true -> timestamp_in_range t2 = true ->
  timestamp_in_range t3 = true -> timestamp_in_range t4 = true ->
  exists r,
    compute_offset t1 t4 t3 t2 = Ok r
    /\ is_finite r = true
    /\ (Qabs (SF2Q r - offset_formula t1 t2 t3 t4) <= 2 ^ (- 20))%Q
    /\ (Z.abs (fst t2 - fst t1) < 2 ^ 20 ->
        Z.abs (fst t3 - fst t4) < 2 ^ 20 ->
        (SF2Q r == offset_formula t1 t2 t3 t4)%Q).
Proof.
  intros H1 H2 H3 H4. apply compute_offset_error; assumption.
Qed.

(** With t1 = (0,0), t2 = (1,0), t3 = (1,0), t4 = (0,0) in the order of
    the parameters, the offset is 1.0 second. *)
Lemma compute_offset_formula_witness :
  exists r,
    compute_offset ts_0_0 ts_0_0 ts_1_0 ts_1_0 = Ok r
    /\ is_finite r = true
    /\ (Qabs (SF2Q r - offset_formula ts_0_0 ts_1_0 ts_1_0 ts_0_0) <= 2 ^ (- 20))%Q
    /\ (Z.abs (fst ts_1_0 - fst ts_0_0) < 2 ^ 20 ->
        Z.abs (fst ts_1_0 - fst ts_0_0) < 2 ^ 20 ->
        (SF2Q r == offset_formula ts_0_0 ts_1_0 ts_1_0 ts_0_0)%Q).
Proof.
  apply (compute_offset_formula ts_0_0 ts_1_0 ts_1_0 ts_0_0); reflexivity.
Defined.

Example compute_offset_one_second :
  compute_offset ts_0_0 ts_0_0 ts_1_0 ts_1_0
  = Ok (S754_finite false 4503599627370496 (-52))
  /\ (SF2Q (S754_finite false 4503599627370496 (-52)) == 1)%Q.
Proof. split; vm_compute; reflexivity. Qed.

(** C3, as stated, fails: with the four pairs passed in the order t1, t2,
    t3, t4 the scenario of the specification gives 0.0, not 1.0, since the
    second parameter is the client receive time. *)
Lemma compute_offset_positional_order :
  compute_offset ts_0_0 ts_1_0 ts_1_0 ts_0_0 = Ok (S754_zero false)
  /\ (SF2Q (S754_zero false) == 0)%Q
  /\ (offset_formula ts_0_0 ts_1_0 ts_1_0 ts_0_0 == 1)%Q.
Proof. repeat split; vm_compute; reflexivity. Qed.

(** Far apart clocks: the offset is rounded.  Here the exact value is
    [(2^32 - 1 + (1 - 2^-32)) / 2] and the float returned is [2^31]. *)
Example compute_offset_rounds :
  compute_offset ts_0_0 ts_0_0 ts_0_0 ts_max
  = Ok (S754_finite false 4503599627370496 (-21))
  /\ (SF2Q (S754_finite false 4503599627370496 (-21))
      - offset_formula ts_0_0 ts_max ts_0_0 ts_0_0
      == 1 # 8589934592)%Q.
Proof. split; vm_compute; reflexivity. Qed.

End OffsetClaim.

(** * Further properties of the codec *)

Section CodecMore.
Import Struct StructFacts.

(** ** The composite byte outside its ranges *)

(** X1: [decode_li_vn_mode] reads the low eight bits of its argument and
    nothing else, whatever the integer (negative numbers included, with
    the two's complement reading that [&] gives them). *)
Theorem decode_li_vn_mode_low_byte (val : Z) :
  decode_li_vn_mode val = decode_li_vn_mode (val mod 256).
Proof.
  rewrite !decode_li_vn_mode_arith.
  pose proof (Z.div_mod val 256 ltac:(lia)) as Hdm.
  set (q := val / 256) in *. set (r := val mod 256) in *.
  assert (H64 : val / 64 = q * 4 + r / 64).
  { rewrite Hdm. replace (256 * q + r) with (r + (q * 4) * 64) by ring.
    rewrite Z.div_add by lia. ring. }
  assert (H8 : val / 8 = q * 32 + r / 8).
  { rewrite Hdm. replace (256 * q + r) with (r + (q * 32) * 8) by ring.
    rewrite Z.div_add by lia. ring. }
  assert (Hm : val mod 8 = r mod 8).
  { rewrite Hdm. replace (256 * q + r) with (r + (q * 32) * 8) by ring.
    apply Z.mod_add. lia. }
  rewrite H64, H8, Hm.
  replace (q * 4 + r / 64) with (r / 64 + q * 4) by ring.
  replace (q * 32 + r / 8) with (r / 8 + (q * 4) * 8) by ring.
  rewrite !Z.mod_add by lia.
  reflexivity.
Qed.

(** X2: [encode_li_vn_mode] adds its three terms, so a field that is too
    large carries into its neighbour: a mode of [m + 8] is packed as the
    version number [vn + 1] with mode [m], and a version number of
    [v + 8] as the leap indicator [li + 1] with version [v].  The
    datagrams are the same, and so are the exceptions. *)
Theorem to_bytes_carry (p : SNTP_Packet) :
  to_bytes (set_mode p (mode p + 8)) = to_bytes (set_vn p (vn p + 1))
  /\ to_bytes (set_vn p (vn p + 8)) = to_bytes (set_li p (li p + 1)).
Proof.
  rewrite !to_bytes_pack_codes.
  unfold get_packet_value.
  rewrite !encode_li_vn_mode_arith.
  cbn [li vn mode stratum poll precision root_delay root_dispersion
       reference_identifier reference_timestamp originate_timestamp
       receive_timestamp transmit_timestamp
       set_li set_vn set_mode app].
  split; apply f_equal; (apply (f_equal2 cons); [ring | reflexivity]).
Qed.

(** ** Packets are determined by what is packed *)

(** Two packets with the same li, vn and mode and the same packed values
    are the same packet. *)
Lemma packet_ext (p q : SNTP_Packet) :
  (li p, vn p, mode p) = (li q, vn q, mode q) ->
  get_packet_value p = get_packet_value q ->
  p = q.
Proof.
  destruct p as [l v m s po pr rd rp ri [r1 r2] [o1 o2] [c1 c2] [t1 t2]].
  destruct q as [l' v' m' s' po' pr' rd' rp' ri' [r1' r2'] [o1' o2'] [c1' c2'] [t1' t2']].
  unfold get_packet_value, splat. simpl_fields.
  intros H1 H2. injection H1 as -> -> ->.
  list_inj H2. subst. reflexivity.
Qed.

(** What a successful [to_bytes] leaves in the datagram. *)
Lemma to_bytes_values (p : SNTP_Packet) (buff : list byte) :
  to_bytes p = Ok buff ->
  List.length buff = 48%nat
  /\ unpack_codes packet_codes buff = get_packet_value p.
Proof.
  rewrite to_bytes_pack_codes. intros Hto.
  split.
  - rewrite (length_pack_codes _ _ _ Hto). apply calcsize_packet_codes.
  - apply unpack_pack_codes. assumption.
Qed.

Lemma decode_li_vn_mode_bounds (val : Z) :
  0 <= fst (fst (decode_li_vn_mode val)) <= 3
  /\ 0 <= snd (fst (decode_li_vn_mode val)) <= 7
  /\ 0 <= snd (decode_li_vn_mode val) <= 7.
Proof.
  rewrite decode_li_vn_mode_arith. cbn [fst snd].
  pose proof (Z.mod_pos_bound (val / 64) 4 ltac:(lia)).
  pose proof (Z.mod_pos_bound (val / 8) 8 ltac:(lia)).
  pose proof (Z.mod_pos_bound val 8 ltac:(lia)).
  lia.
Qed.

(** A buffer that [from_bytes] accepts has 48 bytes. *)
Lemma from_bytes_Ok_length (self p : SNTP_Packet) (buff : list byte) :
  from_bytes self buff = Ok p -> List.length buff = 48%nat.
Proof.
  intros H.
  destruct (Nat.eq_dec (List.length buff) 48) as [Hlen | Hlen];
    [assumption |].
  rewrite (from_bytes_bad_length self buff Hlen) in H. discriminate.
Qed.

Lemma from_bytes_Ok_values (self p : SNTP_Packet) (buff : list byte) :
  from_bytes self buff = Ok p ->
  get_packet_value p = unpack_codes packet_codes buff
  /\ decode_li_vn_mode (u8_at buff 0) = (li p, vn p, mode p).
Proof.
  intros H.
  destruct (from_bytes_ok self buff (from_bytes_Ok_length _ _ _ H))
    as (q & Hq & Hval & Hdec).
  rewrite Hq in H. injection H as <-. split; assumption.
Qed.

(** ** The wire layout *)

(** X3: the datagram that [to_bytes] returns holds the composite byte at
    offset 0, stratum, poll and precision in the next three bytes, and
    then eleven big-endian 32-bit words: root delay at 4, root
    dispersion at 8, the reference identifier at 12, and the seconds and
    the fraction of the four timestamps from 16, 24, 32 and 40 on. *)
Theorem to_bytes_layout (p : SNTP_Packet) (buff : list byte) :
  to_bytes p = Ok buff ->
  List.length buff = 48%nat
  /\ u8_at buff 0 = Z.shiftl (li p) 6 + Z.shiftl (vn p) 3 + mode p
  /\ u8_at buff 1 = stratum p
  /\ u8_at buff 2 = poll p
  /\ u8_at buff 3 = precision p
  /\ u32_at buff 4 = root_delay p
  /\ u32_at buff 8 = root_dispersion p
  /\ u32_at buff 12 = reference_identifier p
  /\ (u32_at buff 16, u32_at buff 20) = reference_timestamp p
  /\ (u32_at buff 24, u32_at buff 28) = originate_timestamp p
  /\ (u32_at buff 32, u32_at buff 36) = receive_timestamp p
  /\ (u32_at buff 40, u32_at buff 44) = transmit_timestamp p.
Proof.
  intros Hto.
  destruct (to_bytes_values p buff Hto) as [Hlen Hval].
  rewrite (unpack_codes_offsets buff Hlen) in Hval.
  unfold get_packet_value, splat in Hval. simpl_fields.
  list_inj Hval.
  split; [assumption |].
  repeat split; try assumption;
    apply injective_projections; assumption.
Qed.

Lemma to_bytes_layout_witness :
  exists buff,
    to_bytes sample_reply = Ok buff
    /\ List.length buff = 48%nat
    /\ u8_at buff 0 = 36
    /\ u32_at buff 12 = 3232235777
    /\ (u32_at buff 40, u32_at buff 44) = (3908988800, 2155872256).
Proof.
  eexists. split; [reflexivity |].
  pose proof (to_bytes_layout sample_reply _ eq_refl) as H.
  cbv beta in H.
  destruct H as (Hl & H0 & _ & _ & _ & _ & _ & H12 & _ & _ & _ & H40).
  repeat split; assumption.
Defined.

(** ** Round trips beyond the declared ranges *)

Lemma from_bytes_to_bytes_fields (p self : SNTP_Packet) (buff : list byte) :
  to_bytes p = Ok buff ->
  exists q,
    from_bytes self buff = Ok q
    /\ (li q, vn q, mode q) = decode_li_vn_mode (encode_li_vn_mode p)
    /\ stratum q = stratum p /\ poll q = poll p /\ precision q = precision p
    /\ root_delay q = root_delay p
    /\ root_dispersion q = root_dispersion p
    /\ reference_identifier q = reference_identifier p
    /\ reference_timestamp q = reference_timestamp p
    /\ originate_timestamp q = originate_timestamp p
    /\ receive_timestamp q = receive_timestamp p
    /\ transmit_timestamp q = transmit_timestamp p
    /\ (q = p <-> 0 <= li p <= 3 /\ 0 <= vn p <= 7 /\ 0 <= mode p <= 7).
Proof.
  intros Hto.
  destruct (to_bytes_values p buff Hto) as [Hlen Hval].
  destruct (from_bytes_ok self buff Hlen) as (q & Hq & Hqval & Hdec).
  exists q. split; [assumption |].
  rewrite Hval in Hqval.
  assert (H0 : u8_at buff 0 = encode_li_vn_mode p).
  { rewrite (unpack_codes_offsets buff Hlen) in Hval.
    unfold get_packet_value in Hval. cbn [app] in Hval.
    injection Hval as H0 _. exact H0. }
  rewrite H0 in Hdec.
  assert (Hfields :
    stratum q = stratum p /\ poll q = poll p /\ precision q = precision p
    /\ root_delay q = root_delay p
    /\ root_dispersion q = root_dispersion p
    /\ reference_identifier q = reference_identifier p
    /\ reference_timestamp q = reference_timestamp p
    /\ originate_timestamp q = originate_timestamp p
    /\ receive_timestamp q = receive_timestamp p
    /\ transmit_timestamp q = transmit_timestamp p).
  { clear - Hqval.
    destruct p as [l v m s po pr rd rp ri [r1 r2] [o1 o2] [c1 c2] [t1 t2]].
    destruct q as [l' v' m' s' po' pr' rd' rp' ri' [r1' r2'] [o1' o2'] [c1' c2'] [t1' t2']].
    unfold get_packet_value, splat in Hqval. simpl_fields.
    list_inj Hqval. subst. repeat split. }
  split; [symmetry; assumption |].
  destruct Hfields as (F1 & F2 & F3 & F4 & F5 & F6 & F7 & F8 & F9 & F10).
  repeat (split; [assumption |]).
  split.
  - intros ->.
    pose proof (decode_li_vn_mode_bounds (encode_li_vn_mode p)) as Hb.
    rewrite Hdec in Hb. cbn [fst snd] in Hb. exact Hb.
  - intros (Hl & Hv & Hm).
    rewrite (decode_encode_li_vn_mode p Hl Hv Hm) in Hdec.
    apply packet_ext; [symmetry; assumption |].
    clear - Hdec F1 F2 F3 F4 F5 F6 F7 F8 F9 F10.
    injection Hdec as Dl Dv Dm.
    unfold get_packet_value, encode_li_vn_mode.
    congruence.
Qed.

(** X4: whenever [to_bytes] succeeds, [from_bytes] reads the datagram back
    into the same packet except for li, vn and mode, which come back as
    the three bit fields of the composite byte.  The packet itself comes
    back exactly when its li, vn and mode are within their two and three
    bits. *)
Theorem from_bytes_to_bytes_packable (p self : SNTP_Packet) (buff : list byte) :
  to_bytes p = Ok buff ->
  exists q,
    from_bytes self buff = Ok q
    /\ (li q, vn q, mode q) = decode_li_vn_mode (encode_li_vn_mode p)
    /\ stratum q = stratum p /\ poll q = poll p /\ precision q = precision p
    /\ root_delay q = root_delay p
    /\ root_dispersion q = root_dispersion p
    /\ reference_identifier q = reference_identifier p
    /\ reference_timestamp q = reference_timestamp p
    /\ originate_timestamp q = originate_timestamp p
    /\ receive_timestamp q = receive_timestamp p
    /\ transmit_timestamp q = transmit_timestamp p
    /\ (q = p <-> 0 <= li p <= 3 /\ 0 <= vn p <= 7 /\ 0 <= mode p <= 7).
Proof. exact (from_bytes_to_bytes_fields p self buff). Qed.

Lemma from_bytes_to_bytes_packable_witness :
  exists buff q,
    to_bytes (set_vn sample_reply 12) = Ok buff
    /\ from_bytes init buff = Ok q
    /\ (li q, vn q, mode q) = (1, 4, 4)
    /\ transmit_timestamp q = (3908988800, 2155872256).
Proof.
  eexists.
  destruct (from_bytes_to_bytes_packable (set_vn sample_reply 12) init _ eq_refl)
    as (q & Hq & Hlvm & _ & _ & _ & _ & _ & _ & _ & _ & _ & Htx & _).
  exists q. split; [reflexivity |]. repeat split; assumption.
Defined.

(** ** What [from_bytes] returns *)

Lemma from_bytes_in_wire_ranges (self p : SNTP_Packet) (buff : list byte) :
  from_bytes self buff = Ok p ->
  wire_ranges p = true /\ packable p = true.
Proof.
  intros H.
  pose proof (from_bytes_Ok_length _ _ _ H) as Hlen.
  destruct (from_bytes_Ok_values _ _ _ H) as [Hval Hdec].
  assert (Hpack : packable p = true).
  { apply packable_Forall2. rewrite Hval.
    apply unpack_codes_in_range. rewrite Hlen. reflexivity. }
  split; [| assumption].
  pose proof (decode_li_vn_mode_bounds (u8_at buff 0)) as Hb.
  rewrite Hdec in Hb. cbn [fst snd] in Hb.
  unfold packable in Hpack. unfold wire_ranges.
  rewrite !andb_true_iff in *.
  rewrite !in_bits_spec in *.
  change (2 ^ 2) with 4. change (2 ^ 3) with 8.
  intuition lia.
Qed.

(** X5: every packet that [from_bytes] returns is within the ranges of the
    wire format, so [to_bytes] accepts it. *)
Theorem from_bytes_wire_ranges (self p : SNTP_Packet) (buff : list byte) :
  from_bytes self buff = Ok p ->
  wire_ranges p = true /\ packable p = true.
Proof. exact (from_bytes_in_wire_ranges self p buff). Qed.

Lemma from_bytes_wire_ranges_witness :
  wire_ranges init = true /\ packable init = true.
Proof.
  apply (from_bytes_wire_ranges sample_reply init zero_buffer). reflexivity.
Defined.

(** X6: [from_bytes] assigns every data attribute: what it returns, or
    raises, does not depend on the packet it is called on. *)
Theorem from_bytes_overwrites (self self' : SNTP_Packet) (buff : list byte) :
  from_bytes self buff = from_bytes self' buff.
Proof.
  destruct (Nat.eq_dec (List.length buff) 48) as [Hlen | Hlen].
  - destruct (from_bytes_ok self buff Hlen) as (p & Hp & Hpv & Hpd).
    destruct (from_bytes_ok self' buff Hlen) as (q & Hq & Hqv & Hqd).
    rewrite Hp, Hq. f_equal.
    apply packet_ext; congruence.
  - rewrite !from_bytes_bad_length by assumption. reflexivity.
Qed.

(** X7: two datagrams that [from_bytes] reads as the same packet are the
    same datagram: every bit of the 48 bytes ends up in a field. *)
Theorem from_bytes_injective
    (self self' p : SNTP_Packet) (buff buff' : list byte) :
  from_bytes self buff = Ok p -> from_bytes self' buff' = Ok p ->
  buff = buff'.
Proof.
  intros H H'.
  pose proof (from_bytes_Ok_length _ _ _ H) as Hlen.
  pose proof (from_bytes_Ok_length _ _ _ H') as Hlen'.
  destruct (from_bytes_Ok_values _ _ _ H) as [Hval _].
  destruct (from_bytes_Ok_values _ _ _ H') as [Hval' _].
  pose proof (pack_unpack_codes packet_codes buff
                ltac:(rewrite Hlen; reflexivity)) as Hb.
  pose proof (pack_unpack_codes packet_codes buff'
                ltac:(rewrite Hlen'; reflexivity)) as Hb'.
  rewrite <- Hval in Hb. rewrite <- Hval' in Hb'.
  rewrite Hb in Hb'. injection Hb' as ->. reflexivity.
Qed.

Lemma from_bytes_injective_witness : zero_buffer = zero_buffer.
Proof.
  apply (from_bytes_injective init sample_reply init zero_buffer zero_buffer);
    reflexivity.
Defined.

End CodecMore.

(** * Further properties of the timestamp conversion *)

Section TimestampsMore.
Import Struct StructFacts.
Local Open Scope Q_scope.

(** ** What the encoder returns, and when it raises *)

Lemma encode_ntp_timestamp_range (t : float) :
  let ntp := float_sub t get_ntp_timestamp_offset in
  is_float64 t = true -> is_finite ntp = true ->
  0 <= SF2Q ntp -> (Qfloor (SF2Q ntp) < 2 ^ 32)%Z ->
  exists ts,
    encode_ntp_timestamp t = Ok ts /\ timestamp_in_range ts = true.
Proof.
  intros ntp Hvt Hfin Hpos Hlt.
  rewrite (encode_ntp_timestamp_spec t Hvt Hfin Hpos Hlt). fold ntp.
  eexists. split; [reflexivity |].
  unfold timestamp_in_range. cbn [fst snd].
  rewrite fraction_in_bits, andb_true_r.
  apply in_bits_spec. split; [apply Qfloor_nonneg; assumption | assumption].
Qed.

(** X8: for every calendar time whose NTP time is in [0, 2^32),
    [encode_ntp_timestamp] returns a pair of unsigned 32-bit numbers:
    what it returns always fits the two words of a wire timestamp. *)
Theorem encode_ntp_timestamp_fits (t : float) :
  let ntp := float_sub t get_ntp_timestamp_offset in
  is_float64 t = true -> is_finite ntp = true ->
  0 <= SF2Q ntp -> (Qfloor (SF2Q ntp) < 2 ^ 32)%Z ->
  exists ts,
    encode_ntp_timestamp t = Ok ts /\ timestamp_in_range ts = true.
Proof. exact (encode_ntp_timestamp_range t). Qed.

Lemma encode_ntp_timestamp_fits_witness :
  exists ts,
    encode_ntp_timestamp time_1700000000_5 = Ok ts
    /\ timestamp_in_range ts = true.
Proof.
  apply (encode_ntp_timestamp_fits time_1700000000_5).
  - reflexivity.
  - reflexivity.
  - vm_compute. discriminate.
  - vm_compute. reflexivity.
Defined.

(** X9: a clock reading that is not a number makes [int] raise [ValueError],
    and an infinite one [OverflowError]: the encoder has no handler. *)
Theorem encode_ntp_timestamp_not_finite :
  encode_ntp_timestamp S754_nan = Raise ValueError
  /\ forall s, encode_ntp_timestamp (S754_infinity s) = Raise OverflowError.
Proof.
  split; [reflexivity |]. intros [|]; reflexivity.
Qed.

(** ** The client packet on the wire *)

Lemma pack_codes_app (cs1 cs2 : list code) : forall vs1 vs2 b1 b2,
  pack_codes cs1 vs1 = Ok b1 -> pack_codes cs2 vs2 = Ok b2 ->
  pack_codes (cs1 ++ cs2) (vs1 ++ vs2) = Ok (b1 ++ b2).
Proof.
  induction cs1 as [| c cs1 IH]; intros [| v vs1] vs2 b1 b2 H1 H2;
    cbn [pack_codes app] in *; try discriminate.
  - injection H1 as <-. exact H2.
  - destruct (in_range c v); [| discriminate].
    destruct (pack_codes cs1 vs1) as [r1 |] eqn:E1; [| discriminate].
    cbn [bind] in H1. injection H1 as <-.
    rewrite (IH vs1 vs2 r1 b2 E1 H2). cbn [bind].
    rewrite app_assoc. reflexivity.
Qed.

Lemma to_bytes_not_packable (p : SNTP_Packet) :
  packable p = false -> to_bytes p = Raise struct_error.
Proof.
  intros Hp. rewrite to_bytes_pack_codes.
  destruct (pack_codes packet_codes (get_packet_value p)) as [b | e] eqn:E.
  - assert (Hok : packable p = true).
    { apply packable_Forall2, pack_codes_ok_iff. exists b. exact E. }
    rewrite Hok in Hp. discriminate.
  - rewrite (pack_codes_raise _ _ _ E). reflexivity.
Qed.

(** X10: the datagram of a client packet built at a finite clock reading
    whose NTP time [now + 2208988800] is in [0, 2^32 - 2^-22): the byte
    0x23 (li 0, vn 4, mode 3), thirty-nine zero bytes, and the seconds
    and the fraction of [encode_ntp_timestamp now] as two big-endian
    words. *)
Theorem client_packet_to_bytes (now : float) :
  is_float64 now = true -> is_finite now = true ->
  0 <= exact_ntp_time now -> exact_ntp_time now + 2 ^ (- 22) < 2 ^ 32 ->
  exists s f,
    encode_ntp_timestamp now = Ok (s, f)
    /\ (p <- client_packet now ;; to_bytes p)
       = Ok ((x23 :: repeat x00 39) ++ be_bytes 4 s ++ be_bytes 4 f).
Proof.
  intros Hvt Hft Hpos Hlt.
  destruct (computed_ntp_time_fits now Hvt Hft Hpos Hlt)
    as (Hfin & Hw0 & Hfloor).
  destruct (encode_ntp_timestamp_range now Hvt Hfin Hw0 Hfloor)
    as ([s f] & Henc & Hrange).
  exists s, f. split; [assumption |].
  unfold client_packet. rewrite Henc. cbn [bind].
  rewrite to_bytes_pack_codes.
  unfold timestamp_in_range in Hrange. cbn [fst snd] in Hrange.
  apply andb_true_iff in Hrange. destruct Hrange as [Hs Hf].
  change (pack_codes (firstn 13 packet_codes ++ [code_I; code_I])
            ((35%Z :: repeat 0%Z 12) ++ [s; f])
          = Ok ((x23 :: repeat x00 39) ++ be_bytes 4 s ++ be_bytes 4 f)).
  apply pack_codes_app; [reflexivity |].
  cbn [pack_codes]. rewrite !in_range_in_bits.
  change (8 * Z.of_nat (code_size code_I))%Z with 32%Z.
  rewrite Hs, Hf. cbn [bind code_size].
  rewrite app_nil_r. reflexivity.
Qed.

Lemma client_packet_to_bytes_witness :
  exists s f,
    encode_ntp_timestamp time_1700000000_5 = Ok (s, f)
    /\ (p <- client_packet time_1700000000_5 ;; to_bytes p)
       = Ok ((x23 :: repeat x00 39) ++ be_bytes 4 s ++ be_bytes 4 f).
Proof.
  apply (client_packet_to_bytes time_1700000000_5).
  - reflexivity.
  - reflexivity.
  - vm_compute. discriminate.
  - vm_compute. reflexivity.
Defined.

(** The bound is the last one: at the float before 2085978496.0 the NTP
    time is [2^32 - 2^-22], the subtraction rounds it to [2^32], and
    [to_bytes] raises. *)
Example client_packet_last_float_raises :
  (exact_ntp_time time_2036_minus_ulp + 2 ^ (- 22) == 2 ^ 32)
  /\ (p <- client_packet time_2036_minus_ulp ;; to_bytes p)
     = Raise struct_error.
Proof. split; vm_compute; reflexivity. Qed.

(** X11: from 2036-02-07T06:28:16Z on, when the NTP time
    [now + 2208988800] of a finite clock reading is [2^32] at least (and
    below [2^52]), [client_packet] still builds a packet.  Its transmit
    seconds are the floor of the binary64 difference that the encoder
    computes, [2^32] or more: they are not wrapped, and [to_bytes]
    raises [struct.error] on the packet. *)
Theorem client_packet_era_end (now : float) :
  is_float64 now = true -> is_finite now = true ->
  2 ^ 32 <= exact_ntp_time now -> exact_ntp_time now < 2 ^ 52 ->
  exists p,
    client_packet now = Ok p
    /\ fst (transmit_timestamp p)
       = Qfloor (SF2Q (float_sub now get_ntp_timestamp_offset))
    /\ (2 ^ 32 <= fst (transmit_timestamp p))%Z
    /\ to_bytes p = Raise struct_error.
Proof.
  intros Hvt Hft Hlo Hhi.
  destruct (computed_ntp_time_late now Hvt Hft Hlo Hhi) as (Hfin & Hl & Hh).
  set (ntp := float_sub now get_ntp_timestamp_offset) in *.
  assert (Hpos : 0 <= SF2Q ntp).
  { pose proof (Qfloor_le (SF2Q ntp)) as Hle.
    assert (H0 : inject_Z 0 <= inject_Z (Qfloor (SF2Q ntp)))
      by (rewrite <- Zle_Qle; lia).
    change (inject_Z 0) with 0 in H0. lra. }
  unfold client_packet.
  rewrite (encode_ntp_timestamp_wide now Hvt Hfin Hpos Hh). fold ntp.
  cbn [bind]. eexists. split; [reflexivity |].
  split; [reflexivity |].
  split; [exact Hl |].
  apply to_bytes_not_packable.
  unfold packable, timestamp_in_range.
  cbn [transmit_timestamp set_transmit_timestamp fst snd].
  assert (Hs : in_bits 32 (Qfloor (SF2Q ntp)) = false).
  { unfold in_bits. apply andb_false_iff. right. apply Z.ltb_ge. exact Hl. }
  rewrite Hs. rewrite !andb_false_r. cbn [andb]. rewrite ?andb_false_r.
  reflexivity.
Qed.

Lemma client_packet_era_end_witness :
  exists p,
    client_packet time_2036_rollover = Ok p
    /\ fst (transmit_timestamp p) = 4294967296%Z
    /\ (2 ^ 32 <= fst (transmit_timestamp p))%Z
    /\ to_bytes p = Raise struct_error.
Proof.
  apply (client_packet_era_end time_2036_rollover).
  - reflexivity.
  - reflexivity.
  - vm_compute. discriminate.
  - vm_compute. reflexivity.
Defined.

(** ** Before the NTP epoch *)

(** [int(x)] of a finite float that is not positive truncates toward
    zero. *)
Lemma int_of_float_toward_zero (x : float) :
  is_finite x = true -> SF2Q x <= 0 ->
  int_of_float x = Ok (- Qfloor (- SF2Q x))%Z.
Proof.
  intros Hfx Hx. destruct x as [s | s | | s m e]; try discriminate.
  - reflexivity.
  - cbn [int_of_float SF2Q] in *.
    destruct s; cbn [cond_Zopp] in *.
    + assert (Ho : - F2Q (- Z.pos m) e == F2Q (Zpos m) e)
        by (rewrite F2Q_opp; reflexivity).
      rewrite (Qfloor_comp _ _ Ho), Qfloor_F2Q. reflexivity.
    + exfalso. rewrite <- (F2Q_0 e) in Hx. apply F2Q_le in Hx. lia.
Qed.

(** [x - float(n)] is computed exactly when [n] is an integer less than
    one away from [x] and no larger than it in magnitude. *)
Lemma float_sub_int_exact (x nf : float) (n : Z) :
  is_finite x = true -> is_float64 x = true ->
  is_finite nf = true -> is_float64 nf = true ->
  SF2Q nf == inject_Z n ->
  Qabs (SF2Q x - inject_Z n) < 1 ->
  Qabs (SF2Q x - inject_Z n) <= Qabs (SF2Q x) ->
  let d := float_sub x nf in
  is_finite d = true /\ is_float64 d = true
  /\ SF2Q d == SF2Q x - inject_Z n.
Proof.
  intros Hfx Hvx Hfn Hvn Hn Hlt1 Hle d.
  set (v := SF2Q x) in *.
  assert (Hr : rounds_to (v - inject_Z n) d).
  { apply rounds_to_wd with (SF2Q x - SF2Q nf); [rewrite Hn; reflexivity |].
    apply rounds_no_overflow with 0%Z.
    - apply float_sub_rounds; assumption.
    - rewrite Hn. fold v. exact Hlt1.
    - unfold emax. lia. }
  split; [apply (rt_finite _ _ Hr) |]. split; [apply (rt_valid _ _ Hr) |].
  destruct x as [sn | sn | | sn m e]; try discriminate.
  - apply (rounds_to_exact _ _ Hr 0).
    + rewrite emin64_value. unfold prec. lia.
    + exact Hlt1.
    + apply multiple_minus; [apply multiple_0 | apply multiple_inject_Z].
      unfold prec. lia.
  - destruct (Zdigits2_le_prec sn m e Hvx) as [Hd He].
    assert (Hvgrid : multiple_of_pow2 v e) by apply multiple_F2Q.
    destruct (Z.lt_ge_cases e (- 53)) as [Hsmall | Hbig].
    + apply (rounds_to_exact _ _ Hr (prec + e)); [lia | |].
      * apply Qle_lt_trans with (Qabs v); [assumption |].
        unfold v. cbn [SF2Q]. rewrite F2Q_abs, cond_Zopp_abs. cbn [Z.abs].
        pose proof (F2Q_digits_bounds (Zpos m) e ltac:(lia)) as [_ Hh].
        pose proof (Q2_le (Zdigits2 (Zpos m) + e) (prec + e) ltac:(lia)).
        lra.
      * replace (prec + e - prec)%Z with e by lia.
        apply multiple_minus; [assumption |].
        apply multiple_inject_Z. lia.
    + apply (rounds_to_exact _ _ Hr 0).
      * rewrite emin64_value. unfold prec. lia.
      * exact Hlt1.
      * apply multiple_finer with (Z.min e 0); [unfold prec; lia |].
        apply multiple_minus.
        -- apply multiple_finer with e; [lia | assumption].
        -- apply multiple_inject_Z. lia.
Qed.

Lemma encode_ntp_timestamp_negative (t : float) :
  let ntp := float_sub t get_ntp_timestamp_offset in
  let u := - SF2Q ntp in
  is_float64 t = true -> is_finite ntp = true ->
  SF2Q ntp <= 0 -> (Qfloor u < 2 ^ 53)%Z ->
  encode_ntp_timestamp t
  = Ok (- Qfloor u, - Qfloor ((u - inject_Z (Qfloor u)) * 2 ^ 32))%Z.
Proof.
  intros ntp u Hvt Hfin Hneg Hlt.
  pose proof (ntp_time_rounds t Hvt Hfin) as Hr. fold ntp in Hr.
  pose proof (rt_valid _ _ Hr) as Hvn.
  assert (Hu : 0 <= u) by (unfold u; lra).
  pose proof (Qfloor_nonneg _ Hu) as Hfl.
  pose proof (Qfloor_frac u) as [Hlo Hhi].
  pose proof (Qfloor_le u) as Hfle.
  set (a := Qfloor u) in *.
  assert (Ha0 : 0 <= inject_Z a)
    by (change 0 with (inject_Z 0); rewrite <- Zle_Qle; assumption).
  unfold encode_ntp_timestamp. fold ntp.
  rewrite (int_of_float_toward_zero ntp Hfin Hneg). fold u a. cbn [bind].
  destruct (float_of_int_exact (- a) ltac:(lia))
    as (sf & Hsf & Hfs & Hvs & Hs).
  rewrite Hsf, float_of_int_two32. cbn [bind].
  assert (Hdiff : SF2Q ntp - inject_Z (- a) == - (u - inject_Z a))
    by (rewrite inject_Z_opp; unfold u; ring).
  destruct (float_sub_int_exact ntp sf (- a) Hfin Hvn Hfs Hvs Hs)
    as (Hfd & Hvd & Hd).
  { rewrite Hdiff, Qabs_opp, Qabs_pos by assumption. assumption. }
  { rewrite Hdiff, Qabs_opp, Qabs_pos by assumption.
    rewrite Qabs_neg by assumption. fold u. lra. }
  rewrite Hdiff in Hd.
  destruct (float_mul_pow2_exact (float_sub ntp sf) (-20) 32 Hfd Hvd
              ltac:(lia)) as (Hfm & Hvm & Hm).
  { rewrite Hd. change (52 + -20)%Z with 32%Z.
    change (2 ^ 32) with (4294967296 # 1).
    apply Qabs_Qlt_condition. split; lra. }
  { unfold emax. lia. }
  change (52 + -20)%Z with 32%Z in Hm.
  rewrite int_of_float_toward_zero; [| assumption |].
  - cbn [bind]. do 3 f_equal. apply Qfloor_comp.
    rewrite Hm, Hd. ring.
  - rewrite Hm, Hd. change (2 ^ 32) with (4294967296 # 1). lra.
Qed.

(** X12: for a calendar time at or before the NTP epoch of 1900 (down to
    [2^53] seconds before it) the encoder raises nothing and wraps
    nothing: [int] truncates toward zero, so the pair is the negation of
    the pair of the time as far after the epoch, both components zero or
    negative.  Unless both are zero (less than [2^-32] seconds before
    the epoch), [to_bytes] raises [struct.error] on the client packet
    that holds the pair. *)
Theorem encode_ntp_timestamp_before_1900 (t : float) :
  let ntp := float_sub t get_ntp_timestamp_offset in
  let u := - SF2Q ntp in
  is_float64 t = true -> is_finite ntp = true ->
  SF2Q ntp <= 0 -> (Qfloor u < 2 ^ 53)%Z ->
  exists a b : Z,
    encode_ntp_timestamp t = Ok (- a, - b)%Z
    /\ a = Qfloor u
    /\ b = Qfloor ((u - inject_Z (Qfloor u)) * 2 ^ 32)
    /\ (0 <= a)%Z /\ (0 <= b < 2 ^ 32)%Z
    /\ ((a, b) <> (0, 0)%Z ->
        (p <- client_packet t ;; to_bytes p) = Raise struct_error).
Proof.
  intros ntp u Hvt Hfin Hneg Hlt.
  assert (Hu : 0 <= u) by (unfold u; lra).
  pose proof (encode_ntp_timestamp_negative t Hvt Hfin Hneg Hlt) as Henc.
  cbv zeta in Henc. fold ntp in Henc. fold u in Henc.
  pose proof (Qfloor_nonneg _ Hu) as Ha.
  pose proof (fraction_in_bits u) as Hb. apply in_bits_spec in Hb.
  set (a := Qfloor u) in *.
  set (b := Qfloor ((u - inject_Z a) * 2 ^ 32)) in *.
  exists a, b. split; [assumption |].
  repeat (split; [reflexivity || lia |]).
  intros Hnz.
  unfold client_packet. rewrite Henc. cbn [bind].
  apply to_bytes_not_packable.
  unfold packable, timestamp_in_range.
  cbn [transmit_timestamp set_transmit_timestamp fst snd].
  assert (Hs : in_bits 32 (- a) && in_bits 32 (- b) = false).
  { apply andb_false_iff. unfold in_bits.
    destruct (Z.eq_dec a 0) as [Ha0 | Ha0].
    - right. apply andb_false_iff. left. apply Z.leb_gt.
      assert (b <> 0%Z) by (intros Hb0; apply Hnz; congruence). lia.
    - left. apply andb_false_iff. left. apply Z.leb_gt. lia. }
  rewrite Hs. apply andb_false_r.
Qed.

Lemma encode_ntp_timestamp_before_1900_witness :
  exists a b : Z,
    encode_ntp_timestamp time_1899 = Ok (- a, - b)%Z
    /\ a = 1%Z
    /\ b = 1073741824%Z
    /\ (0 <= a)%Z /\ (0 <= b < 2 ^ 32)%Z
    /\ ((a, b) <> (0, 0)%Z ->
        (p <- client_packet time_1899 ;; to_bytes p) = Raise struct_error).
Proof.
  apply (encode_ntp_timestamp_before_1900 time_1899).
  - reflexivity.
  - reflexivity.
  - vm_compute. discriminate.
  - vm_compute. reflexivity.
Defined.

End TimestampsMore.

(** * Further properties of the timestamp decoder *)

Section DecodingMore.
Local Open Scope Q_scope.

(** ** The decoder on every wire timestamp *)

Lemma ntp_value_bounds (s f : Z) :
  (0 <= s < 2 ^ 32)%Z -> (0 <= f < 2 ^ 32)%Z ->
  inject_Z s <= ntp_value (s, f) /\ ntp_value (s, f) < inject_Z s + 1
  /\ 0 <= ntp_value (s, f) /\ ntp_value (s, f) < 4294967296 # 1.
Proof.
  intros Hs Hf. unfold ntp_value, two32Q. cbn [fst snd].
  change (2 ^ 32) with (4294967296 # 1).
  change (2 ^ 32)%Z with 4294967296%Z in *.
  assert (Hf0 : inject_Z 0 <= inject_Z f) by (rewrite <- Zle_Qle; lia).
  assert (Hf1 : inject_Z f < inject_Z 4294967296) by (rewrite <- Zlt_Qlt; lia).
  assert (Hs0 : inject_Z 0 <= inject_Z s) by (rewrite <- Zle_Qle; lia).
  assert (Hs1 : inject_Z s <= inject_Z 4294967295) by (rewrite <- Zle_Qle; lia).
  change (inject_Z 0) with 0 in *.
  change (inject_Z 4294967296) with (4294967296 # 1) in *.
  change (inject_Z 4294967295) with (4294967295 # 1) in *.
  setoid_replace (inject_Z f / (4294967296 # 1))
    with (inject_Z f * (1 # 4294967296)) by field.
  repeat split; lra.
Qed.

(** The two additions of [decode_ntp_timestamp]: the first rounds the
    value of the pair, the second shifts it by the epoch offset. *)
Lemma decode_ntp_timestamp_steps (s f : Z) :
  (0 <= s < 2 ^ 32)%Z -> (0 <= f < 2 ^ 32)%Z ->
  exists y,
    decode_ntp_timestamp s f = Ok (float_add y get_ntp_timestamp_offset)
    /\ rounds_to (ntp_value (s, f)) y
    /\ rounds_to (SF2Q y - (2208988800 # 1))
         (float_add y get_ntp_timestamp_offset).
Proof.
  intros Hs Hf.
  destruct (ntp_value_bounds s f Hs Hf) as (_ & _ & Hw0 & Hw1).
  destruct (int_truediv_two32 f ltac:(lia)) as (fr & Hfr & Hffr & Hvfr & Hqfr).
  destruct (float_of_int_exact s ltac:(lia)) as (sf & Hsf & Hfsf & Hvsf & Hqsf).
  unfold decode_ntp_timestamp. rewrite Hfr. cbn [bind]. rewrite Hsf. cbn [bind].
  assert (Hry : rounds_to (ntp_value (s, f)) (float_add sf fr)).
  { apply rounds_to_wd with (SF2Q sf + SF2Q fr).
    - rewrite Hqsf, Hqfr. reflexivity.
    - apply rounds_no_overflow with 32%Z;
        [apply float_add_rounds; assumption | | unfold emax; lia].
      rewrite Hqsf, Hqfr. change (2 ^ 32) with (4294967296 # 1).
      change (inject_Z s + inject_Z f / two32Q) with (ntp_value (s, f)).
      rewrite Qabs_pos by assumption. assumption. }
  exists (float_add sf fr). split; [reflexivity |]. split; [assumption |].
  pose proof (rounds_to_nonneg _ _ Hry Hw0) as Hy0.
  pose proof (rounds_to_error _ _ Hry 32
                ltac:(rewrite emin64_value; unfold prec; lia)) as Herr.
  rewrite Qabs_pos in Herr by assumption.
  specialize (Herr Hw1).
  change (2 ^ (32 - prec - 1)) with (1 # 4194304) in Herr.
  apply Qabs_Qle_condition in Herr. destruct Herr as [Hel Heh].
  apply rounds_to_wd with (SF2Q (float_add sf fr) + SF2Q get_ntp_timestamp_offset).
  - rewrite offset_value_lit. ring.
  - apply rounds_no_overflow with 32%Z;
      [apply float_add_rounds;
         [apply (rt_finite _ _ Hry) | reflexivity
         | apply (rt_valid _ _ Hry) | reflexivity]
      | | unfold emax; lia].
    rewrite offset_value_lit. change (2 ^ 32) with (4294967296 # 1).
    apply Qabs_Qlt_condition. split; lra.
Qed.

Lemma decode_ntp_timestamp_bound (s f : Z) :
  timestamp_in_range (s, f) = true ->
  exists r,
    decode_ntp_timestamp s f = Ok r
    /\ is_finite r = true
    /\ Qabs (SF2Q r - (ntp_value (s, f) - (2208988800 # 1))) <= 2 ^ (- 21).
Proof.
  unfold timestamp_in_range. cbn [fst snd].
  rewrite andb_true_iff, !in_bits_spec. intros [Hs Hf].
  destruct (ntp_value_bounds s f Hs Hf) as (_ & _ & Hw0 & Hw1).
  destruct (decode_ntp_timestamp_steps s f Hs Hf) as (y & Hdec & Hry & Hrr).
  exists (float_add y get_ntp_timestamp_offset).
  split; [assumption |]. split; [apply (rt_finite _ _ Hrr) |].
  pose proof (rounds_to_nonneg _ _ Hry Hw0) as Hy0.
  pose proof (rounds_to_error _ _ Hry 32
                ltac:(rewrite emin64_value; unfold prec; lia)) as Herr.
  rewrite Qabs_pos in Herr by assumption.
  specialize (Herr Hw1).
  change (2 ^ (32 - prec - 1)) with (1 # 4194304) in Herr.
  apply Qabs_Qle_condition in Herr. destruct Herr as [Hel Heh].
  pose proof (rounds_to_error _ _ Hrr 32
                ltac:(rewrite emin64_value; unfold prec; lia)) as Herr2.
  assert (Hlt : Qabs (SF2Q y - (2208988800 # 1)) < 2 ^ 32).
  { change (2 ^ 32) with (4294967296 # 1).
    apply Qabs_Qlt_condition. split; lra. }
  specialize (Herr2 Hlt).
  change (2 ^ (32 - prec - 1)) with (1 # 4194304) in Herr2.
  apply Qabs_Qle_condition in Herr2. destruct Herr2 as [Hel2 Heh2].
  change (2 ^ (- 21)) with (1 # 2097152).
  apply Qabs_Qle_condition. split; lra.
Qed.

(** X13: for every wire timestamp, [decode_ntp_timestamp] returns a finite
    float, at most [2^-21] seconds (under half a microsecond) from the
    exact [seconds + fraction / 2^32 - 2208988800]. *)
Theorem decode_ntp_timestamp_within_2_21 (s f : Z) :
  timestamp_in_range (s, f) = true ->
  exists r,
    decode_ntp_timestamp s f = Ok r
    /\ is_finite r = true
    /\ Qabs (SF2Q r - (ntp_value (s, f) - (2208988800 # 1))) <= 2 ^ (- 21).
Proof. exact (decode_ntp_timestamp_bound s f). Qed.

Lemma decode_ntp_timestamp_within_2_21_witness :
  exists r,
    decode_ntp_timestamp 4294967295 4294967295 = Ok r
    /\ is_finite r = true
    /\ Qabs (SF2Q r - (ntp_value ts_max - (2208988800 # 1))) <= 2 ^ (- 21).
Proof.
  apply (decode_ntp_timestamp_within_2_21 4294967295 4294967295).
  reflexivity.
Defined.

(** ** Decoding and encoding again *)

(** A pair whose fraction has its low eleven bits clear has a value on
    the grid of step [2^-21]. *)
Lemma ntp_value_grid (s f : Z) :
  (f mod 2048 = 0)%Z -> multiple_of_pow2 (ntp_value (s, f)) (- (21)).
Proof.
  intros Hmod.
  exists (s * 2097152 + f / 2048)%Z.
  unfold ntp_value, two32Q, F2Q. cbn [fst snd].
  rewrite (Z.div_mod f 2048) at 1 by lia. rewrite Hmod, Z.add_0_r.
  rewrite inject_Z_plus, !inject_Z_mult.
  change (2 ^ 32) with (4294967296 # 1).
  change (2 ^ (- (21))) with (1 # 2097152).
  change (inject_Z 2048) with (2048 # 1).
  change (inject_Z 2097152) with (2097152 # 1).
  field.
Qed.

Lemma encode_decode_exact (s f : Z) :
  (0 <= s < 2 ^ 32)%Z -> (0 <= f < 2 ^ 32)%Z -> (f mod 2048 = 0)%Z ->
  (t <- decode_ntp_timestamp s f ;; encode_ntp_timestamp t) = Ok (s, f).
Proof.
  intros Hs Hf Hmod.
  destruct (ntp_value_bounds s f Hs Hf) as (Hws & Hws1 & Hw0 & Hw1).
  pose proof (ntp_value_grid s f Hmod) as Hgrid.
  destruct (decode_ntp_timestamp_steps s f Hs Hf) as (y & Hdec & Hry & Hrr).
  set (w := ntp_value (s, f)) in *.
  set (r := float_add y get_ntp_timestamp_offset) in *.
  assert (Hk : (emin64 + prec <= 32)%Z)
    by (rewrite emin64_value; unfold prec; lia).
  assert (HK : multiple_of_pow2 (2208988800 # 1) (- (21)))
    by (apply (multiple_inject_Z 2208988800); lia).
  (* the first addition is exact *)
  assert (Hy : SF2Q y == w).
  { apply (rounds_to_exact _ _ Hry 32 Hk).
    - rewrite Qabs_pos by assumption. assumption.
    - exact Hgrid. }
  (* and so is the shift to the calendar time *)
  assert (Hr : SF2Q r == w - (2208988800 # 1)).
  { rewrite <- Hy. apply (rounds_to_exact _ _ Hrr 32 Hk).
    - rewrite Hy. change (2 ^ 32) with (4294967296 # 1).
      apply Qabs_Qlt_condition. split; lra.
    - rewrite Hy. apply multiple_minus; assumption. }
  (* the encoder shifts back, exactly again *)
  assert (Hrn : rounds_to w (float_sub r get_ntp_timestamp_offset)).
  { apply rounds_to_wd with (SF2Q r - SF2Q get_ntp_timestamp_offset).
    - rewrite Hr, offset_value_lit. ring.
    - apply rounds_no_overflow with 32%Z;
        [apply float_sub_rounds;
           [apply (rt_finite _ _ Hrr) | reflexivity
           | apply (rt_valid _ _ Hrr) | reflexivity]
        | | unfold emax; lia].
      rewrite Hr, offset_value_lit.
      setoid_replace (w - (2208988800 # 1) - - (2208988800 # 1)) with w by ring.
      rewrite Qabs_pos by assumption. assumption. }
  assert (Hn : SF2Q (float_sub r get_ntp_timestamp_offset) == w).
  { apply (rounds_to_exact _ _ Hrn 32 Hk).
    - rewrite Qabs_pos by assumption. assumption.
    - exact Hgrid. }
  assert (Hfloor : Qfloor w = s).
  { apply Qfloor_unique; [assumption |].
    rewrite inject_Z_plus. assumption. }
  rewrite Hdec. cbn [bind].
  rewrite (encode_ntp_timestamp_spec r).
  - rewrite (Qfloor_comp _ _ Hn), Hfloor.
    do 2 f_equal.
    assert (Hfr : (SF2Q (float_sub r get_ntp_timestamp_offset) - inject_Z s)
                  * 2 ^ 32 == inject_Z f).
    { rewrite Hn. unfold w, ntp_value, two32Q. cbn [fst snd].
      change (2 ^ 32) with (4294967296 # 1). field. }
    rewrite (Qfloor_comp _ _ Hfr). apply Qfloor_Z.
  - apply (rt_valid _ _ Hrr).
  - apply (rt_finite _ _ Hrn).
  - rewrite Hn. assumption.
  - rewrite (Qfloor_comp _ _ Hn), Hfloor. lia.
Qed.

(** X14: a wire timestamp whose fraction is a multiple of [2^11] (a time on
    the grid of [2^-21] seconds) is decoded to a float that
    [encode_ntp_timestamp] converts back to the same pair. *)
Theorem encode_decode_ntp_timestamp (s f : Z) :
  (0 <= s < 2 ^ 32)%Z -> (0 <= f < 2 ^ 32)%Z -> (f mod 2048 = 0)%Z ->
  (t <- decode_ntp_timestamp s f ;; encode_ntp_timestamp t) = Ok (s, f).
Proof. exact (encode_decode_exact s f). Qed.

Lemma encode_decode_ntp_timestamp_witness :
  (t <- decode_ntp_timestamp (fst ts_sample) (snd ts_sample) ;;
   encode_ntp_timestamp t) = Ok ts_sample.
Proof.
  apply (encode_decode_ntp_timestamp 3908988800 2151677952);
    [lia | lia | reflexivity].
Defined.

(** X15: from 1968-01-20T03:14:08Z to the end of the era in 2036, when
    the NTP time is in [2^31, 2^32), a binary64 has 21 fraction bits
    left: the fraction that
    [encode_ntp_timestamp] returns has its low eleven bits clear, and
    decoding and encoding the pair again returns the same pair. *)
Theorem encode_ntp_timestamp_resolution (t : float) :
  let ntp := float_sub t get_ntp_timestamp_offset in
  is_float64 t = true -> is_finite ntp = true ->
  (2 ^ 31 <= Qfloor (SF2Q ntp) < 2 ^ 32)%Z ->
  exists s f,
    encode_ntp_timestamp t = Ok (s, f)
    /\ (f mod 2048 = 0)%Z
    /\ (t' <- decode_ntp_timestamp s f ;; encode_ntp_timestamp t') = Ok (s, f).
Proof.
  intros ntp Hvt Hfin [Hlo Hhi].
  pose proof (Qfloor_le (SF2Q ntp)) as Hle.
  pose proof (Qlt_floor (SF2Q ntp)) as Hlt.
  assert (H31 : inject_Z (2 ^ 31) <= inject_Z (Qfloor (SF2Q ntp)))
    by (rewrite <- Zle_Qle; assumption).
  assert (H32 : inject_Z (Qfloor (SF2Q ntp) + 1) <= inject_Z (2 ^ 32))
    by (rewrite <- Zle_Qle; lia).
  change (inject_Z (2 ^ 31)) with (2147483648 # 1) in H31.
  change (inject_Z (2 ^ 32)) with (4294967296 # 1) in H32.
  assert (Hpos : 0 <= SF2Q ntp) by lra.
  assert (Hv32 : SF2Q ntp < 4294967296 # 1) by lra.
  pose proof (ntp_time_cases t Hvt Hfin Hpos Hv32) as Hcases.
  cbv zeta in Hcases. fold ntp in Hcases.
  assert (Hgrid : multiple_of_pow2 (SF2Q ntp) (- (21))).
  { destruct Hcases as [(_ & Hg & _) | [(_ & Hc & _) | (Hc & _)]];
      [exact Hg | lra | lra]. }
  rewrite (encode_ntp_timestamp_spec t Hvt Hfin Hpos Hhi). fold ntp.
  set (s := Qfloor (SF2Q ntp)) in *.
  set (f := Qfloor ((SF2Q ntp - inject_Z s) * 2 ^ 32)).
  exists s, f. split; [reflexivity |].
  assert (Hf : in_bits 32 f = true) by apply fraction_in_bits.
  apply in_bits_spec in Hf.
  assert (Hmod : (f mod 2048 = 0)%Z).
  { assert (Hfrac : multiple_of_pow2 (SF2Q ntp - inject_Z s) (- (21))).
    { apply multiple_minus; [assumption | apply multiple_inject_Z; lia]. }
    destruct Hfrac as [z Hz].
    assert (Hint : (SF2Q ntp - inject_Z s) * 2 ^ 32 == inject_Z (z * 2048)).
    { rewrite Hz, inject_Z_mult. unfold F2Q.
      change (2 ^ 32) with (4294967296 # 1).
      change (2 ^ (- (21))) with (1 # 2097152).
      change (inject_Z 2048) with (2048 # 1). field. }
    unfold f. rewrite (Qfloor_comp _ _ Hint), Qfloor_Z.
    apply Z.mod_mul. lia. }
  split; [assumption |].
  apply encode_decode_exact; [lia | assumption | assumption].
Qed.

Lemma encode_ntp_timestamp_resolution_witness :
  exists s f,
    encode_ntp_timestamp time_1700000000_ulp = Ok (s, f)
    /\ (f mod 2048 = 0)%Z
    /\ (t' <- decode_ntp_timestamp s f ;; encode_ntp_timestamp t') = Ok (s, f).
Proof.
  apply (encode_ntp_timestamp_resolution time_1700000000_ulp).
  - reflexivity.
  - reflexivity.
  - vm_compute. split; [discriminate | reflexivity].
Defined.

End DecodingMore.

(** * Further properties of the offset *)

Section OffsetMore.
Local Open Scope Q_scope.

(** X16: when the server receives at the client's transmission time and
    transmits at the client's reception time, the offset is [0.0],
    whatever the four integers of the two pairs are. *)
Theorem compute_offset_no_difference (a b : Z * Z) :
  compute_offset a b b a = Ok (S754_zero false).
Proof.
  unfold compute_offset. rewrite !Z.sub_diag. reflexivity.
Qed.

(** X17: only the differences of the timestamps count: adding the same
    seconds and the same fraction to the four of them changes neither
    the float returned nor the exception raised (the two calls divide
    and add the same numbers). *)
Theorem compute_offset_shift (a b c d delta : Z * Z) :
  compute_offset (ts_add a delta) (ts_add b delta)
                 (ts_add c delta) (ts_add d delta)
  = compute_offset a b c d.
Proof.
  unfold compute_offset, ts_add. cbn [fst snd].
  replace (fst d + fst delta - (fst a + fst delta))%Z
    with (fst d - fst a)%Z by ring.
  replace (snd d + snd delta - (snd a + snd delta))%Z
    with (snd d - snd a)%Z by ring.
  replace (fst c + fst delta - (fst b + fst delta))%Z
    with (fst c - fst b)%Z by ring.
  replace (snd c + snd delta - (snd b + snd delta))%Z
    with (snd c - snd b)%Z by ring.
  reflexivity.
Qed.

(** ** Rounding is symmetric *)

Lemma binary_round_aux_negb (s : bool) (m e : Z) (l : location) :
  binary_round_aux prec emax (negb s) m e l
  = SFopp (binary_round_aux prec emax s m e l).
Proof.
  unfold binary_round_aux.
  destruct (shr_fexp prec emax m e l) as [mrs' e'].
  destruct (shr_fexp prec emax _ e' loc_Exact) as [mrs'' e''].
  destruct (shr_m mrs''); [reflexivity | | reflexivity].
  destruct (e'' <=? emax - prec)%Z; reflexivity.
Qed.

Lemma binary_round_negb (s : bool) (m : positive) (e : Z) :
  binary_round prec emax (negb s) m e = SFopp (binary_round prec emax s m e).
Proof.
  unfold binary_round.
  destruct (shl_align m e _) as [mz ez].
  apply binary_round_aux_negb.
Qed.

Lemma float_opp_like_opp (x : float) : float_opp_like x (SFopp x).
Proof. left. reflexivity. Qed.

Lemma float_opp_like_zero (s s' : bool) :
  float_opp_like (S754_zero s) (S754_zero s').
Proof. right. exists s, s'. split; reflexivity. Qed.

Lemma binary_normalize_opp (m e : Z) :
  float_opp_like (binary_normalize prec emax m e false)
                 (binary_normalize prec emax (- m) e false).
Proof.
  destruct m as [| p | p]; cbn [binary_normalize Z.opp].
  - apply float_opp_like_zero.
  - left. apply (binary_round_negb false).
  - left. apply (binary_round_negb true).
Qed.

Lemma cond_Zopp_negb_opp (s : bool) (m : Z) :
  cond_Zopp (negb s) m = (- cond_Zopp s m)%Z.
Proof. destruct s; cbn [cond_Zopp negb]; lia. Qed.

Lemma float_add_SFopp (x y : float) :
  float_opp_like (float_add x y) (float_add (SFopp x) (SFopp y)).
Proof.
  unfold float_add.
  destruct x as [sx | sx | | sx mx ex], y as [sy | sy | | sy my ey];
    cbn [SFopp SFadd];
    try (destruct sx, sy; cbn [negb];
         first [apply float_opp_like_zero | apply float_opp_like_opp]);
    try apply float_opp_like_opp.
  rewrite !cond_Zopp_negb_opp, <- Z.opp_add_distr.
  apply binary_normalize_opp.
Qed.

(** Addition on operands that are negated gives the negated sum. *)
Lemma float_add_opp_like (x y x' y' : float) :
  float_opp_like x x' -> float_opp_like y y' ->
  float_opp_like (float_add x y) (float_add x' y').
Proof.
  intros [-> | (s1 & s1' & -> & ->)] [-> | (s2 & s2' & -> & ->)].
  - apply float_add_SFopp.
  - unfold float_add.
    destruct x as [sx | sx | | sx mx ex]; cbn [SFopp SFadd];
      try apply float_opp_like_opp.
    destruct sx, s2, s2'; cbn [negb]; apply float_opp_like_zero.
  - unfold float_add.
    destruct y as [sy | sy | | sy my ey]; cbn [SFopp SFadd];
      try apply float_opp_like_opp.
    destruct s1, s1', sy; cbn [negb]; apply float_opp_like_zero.
  - unfold float_add. cbn [SFadd].
    destruct s1, s1', s2, s2'; apply float_opp_like_zero.
Qed.

(** So does division by a positive float. *)
Lemma float_div_opp_like (x x' : float) (my : positive) (ey : Z) :
  float_opp_like x x' ->
  float_opp_like (float_div x (S754_finite false my ey))
                 (float_div x' (S754_finite false my ey)).
Proof.
  unfold float_div.
  intros [-> | (s & s' & -> & ->)].
  - destruct x as [sx | sx | | sx mx ex]; cbn [SFopp SFdiv];
      try apply float_opp_like_opp.
    + rewrite !xorb_false_r. apply float_opp_like_opp.
    + rewrite !xorb_false_r. apply float_opp_like_opp.
    + destruct (SFdiv_core_binary prec emax (Zpos mx) ex (Zpos my) ey)
        as [[mz ez] lz].
      rewrite !xorb_false_r. left. apply binary_round_aux_negb.
  - cbn [SFdiv]. apply float_opp_like_zero.
Qed.

Lemma float_of_int_opp (z : Z) (f : float) :
  float_of_int z = Ok f ->
  exists f', float_of_int (- z) = Ok f' /\ float_opp_like f f'.
Proof.
  unfold float_of_int. intros H.
  pose proof (binary_normalize_opp z 0) as Hrel.
  destruct (binary_normalize prec emax z 0 false) as [s | s | | s m e];
    try discriminate; injection H as <-.
  - destruct Hrel as [-> | (s1 & s2 & _ & ->)]; eexists;
      (split; [reflexivity |]); [left; reflexivity | apply float_opp_like_zero].
  - destruct Hrel as [-> | (s1 & s2 & Hx & _)]; [| discriminate].
    eexists. split; [reflexivity | left; reflexivity].
  - destruct Hrel as [-> | (s1 & s2 & Hx & _)]; [| discriminate].
    eexists. split; [reflexivity | left; reflexivity].
Qed.

Lemma int_truediv_opp (a : Z) (f : float) :
  int_truediv a (2 ^ 32) = Ok f ->
  exists f', int_truediv (- a) (2 ^ 32) = Ok f' /\ float_opp_like f f'.
Proof.
  unfold int_truediv. change (2 ^ 32 =? 0)%Z with false. cbv iota.
  rewrite float_of_int_two32.
  destruct (float_of_int a) as [fa |] eqn:Ha; [| discriminate].
  cbn [bind]. intros H. injection H as <-.
  destruct (float_of_int_opp a fa Ha) as (fa' & Ha' & Hrel).
  rewrite Ha'. cbn [bind]. eexists. split; [reflexivity |].
  apply float_div_opp_like. assumption.
Qed.

Lemma float_opp_like_value (x y : float) :
  float_opp_like x y ->
  is_finite y = is_finite x /\ SF2Q y == - SF2Q x.
Proof.
  intros [-> | (s & s' & -> & ->)].
  - split; [destruct x; reflexivity | apply SF2Q_opp].
  - split; reflexivity.
Qed.

(** Whatever [compute_offset] returns, it returns the negation for the
    four timestamps in the reverse order. *)
Lemma compute_offset_opp_like (a b c d : Z * Z) (r : float) :
  compute_offset a b c d = Ok r ->
  exists r', compute_offset d c b a = Ok r' /\ float_opp_like r r'.
Proof.
  unfold compute_offset.
  replace (fst a - fst d)%Z with (- (fst d - fst a))%Z by ring.
  replace (snd a - snd d)%Z with (- (snd d - snd a))%Z by ring.
  replace (fst b - fst c)%Z with (- (fst c - fst b))%Z by ring.
  replace (snd b - snd c)%Z with (- (snd c - snd b))%Z by ring.
  destruct (int_truediv (snd d - snd a) (2 ^ 32)) as [f1 |] eqn:H1;
    [| discriminate].
  destruct (int_truediv (snd c - snd b) (2 ^ 32)) as [f2 |] eqn:H2;
    [| discriminate].
  destruct (float_of_int (fst d - fst a)) as [s1 |] eqn:H3; [| discriminate].
  destruct (float_of_int (fst c - fst b)) as [s2 |] eqn:H4; [| discriminate].
  rewrite float_of_int_two. cbn [bind]. intros H. injection H as <-.
  destruct (int_truediv_opp _ _ H1) as (f1' & -> & R1).
  destruct (int_truediv_opp _ _ H2) as (f2' & -> & R2).
  destruct (float_of_int_opp _ _ H3) as (s1' & -> & R3).
  destruct (float_of_int_opp _ _ H4) as (s2' & -> & R4).
  cbn [bind]. eexists. split; [reflexivity |].
  apply float_div_opp_like.
  repeat apply float_add_opp_like; assumption.
Qed.

(** X18: for four timestamps of unsigned 32-bit components, passing them
    in the reverse order, which exchanges the client and the server,
    negates the offset: both calls return a finite float, and the two
    floats are opposite numbers. *)
Theorem compute_offset_reversed (a b c d : Z * Z) :
  timestamp_in_range a = true -> timestamp_in_range b = true ->
  timestamp_in_range c = true -> timestamp_in_range d = true ->
  exists r r',
    compute_offset a b c d = Ok r
    /\ compute_offset d c b a = Ok r'
    /\ is_finite r = true /\ is_finite r' = true
    /\ SF2Q r' == - SF2Q r.
Proof.
  intros Ha Hb Hc Hd.
  destruct (compute_offset_error a d c b Ha Hd Hc Hb)
    as (r & Hr & Hfr & _).
  destruct (compute_offset_opp_like a b c d r Hr) as (r' & Hr' & Hrel).
  destruct (float_opp_like_value r r' Hrel) as [Hfin Hval].
  exists r, r'. repeat (split; [assumption |]).
  split; [rewrite Hfin; assumption | assumption].
Qed.

Lemma compute_offset_reversed_witness :
  exists r r',
    compute_offset ts_0_0 ts_1_0 ts_sample ts_max = Ok r
    /\ compute_offset ts_max ts_sample ts_1_0 ts_0_0 = Ok r'
    /\ is_finite r = true /\ is_finite r' = true
    /\ SF2Q r' == - SF2Q r.
Proof.
  apply (compute_offset_reversed ts_0_0 ts_1_0 ts_sample ts_max);
    reflexivity.
Defined.

End OffsetMore.

(** * The codec and the timestamps together *)

Section EndToEnd.
Import Struct StructFacts.
Local Open Scope Q_scope.

(** X19: a client packet built at a finite clock reading [now] whose NTP
    time [now + 2208988800] is in [0, 2^32 - 2^-22), sent and read by
    [from_bytes] on the other side, is the packet that was built, and
    its transmit timestamp decodes to the sender's clock reading, within
    [2^-22] seconds. *)
Theorem client_packet_received (now : float) (self : SNTP_Packet) :
  is_float64 now = true -> is_finite now = true ->
  0 <= exact_ntp_time now -> exact_ntp_time now + 2 ^ (- 22) < 2 ^ 32 ->
  exists buff q r,
    (p <- client_packet now ;; to_bytes p) = Ok buff
    /\ from_bytes self buff = Ok q
    /\ client_packet now = Ok q
    /\ decode_ntp_timestamp (fst (transmit_timestamp q))
                            (snd (transmit_timestamp q)) = Ok r
    /\ is_finite r = true
    /\ Qabs (SF2Q r - SF2Q now) <= 2 ^ (- 22).
Proof.
  intros Hvt Hft Hpos0 Hlt0.
  destruct (computed_ntp_time_fits now Hvt Hft Hpos0 Hlt0)
    as (Hfin & Hpos & Hlt).
  destruct (encode_ntp_timestamp_range now Hvt Hfin Hpos Hlt)
    as (ts & Henc & Hrange).
  destruct (decode_encode_error now Hvt Hfin Hpos Hlt) as (r & Hr & Hfr & Herr).
  rewrite Henc in Hr. cbn [bind] in Hr.
  unfold client_packet. rewrite Henc. cbn [bind].
  set (pkt := set_transmit_timestamp _ ts).
  assert (Hwire : wire_ranges pkt = true).
  { unfold wire_ranges, pkt.
    cbn [li vn mode stratum poll precision root_delay root_dispersion
         reference_identifier reference_timestamp originate_timestamp
         receive_timestamp transmit_timestamp
         set_li set_vn set_mode set_transmit_timestamp init].
    rewrite Hrange. reflexivity. }
  pose proof (wire_ranges_packable pkt Hwire) as Hpack.
  apply packable_Forall2, pack_codes_ok_iff in Hpack.
  destruct Hpack as [buff Hbuff]. rewrite <- to_bytes_pack_codes in Hbuff.
  destruct (from_bytes_to_bytes_fields pkt self buff Hbuff)
    as (q & Hq & _ & _ & _ & _ & _ & _ & _ & _ & _ & _ & _ & Heq).
  assert (Hqp : q = pkt).
  { apply Heq. unfold pkt. cbn. lia. }
  subst q.
  exists buff, pkt, r.
  repeat (split; [assumption || reflexivity |]).
  exact Herr.
Qed.

Lemma client_packet_received_witness :
  exists buff q r,
    (p <- client_packet time_1700000000_5 ;; to_bytes p) = Ok buff
    /\ from_bytes sample_reply buff = Ok q
    /\ client_packet time_1700000000_5 = Ok q
    /\ decode_ntp_timestamp (fst (transmit_timestamp q))
                            (snd (transmit_timestamp q)) = Ok r
    /\ is_finite r = true
    /\ Qabs (SF2Q r - SF2Q time_1700000000_5) <= 2 ^ (- 22).
Proof.
  apply (client_packet_received time_1700000000_5 sample_reply).
  - reflexivity.
  - reflexivity.
  - vm_compute. discriminate.
  - vm_compute. reflexivity.
Defined.

(** X20: the four timestamps of a packet that [from_bytes] returns are all
    decoded by [decode_ntp_timestamp] without an exception, to a finite
    float at most [2^-21] seconds from the value of the pair: any
    datagram of 48 bytes can be read and its times converted. *)
Theorem from_bytes_timestamps_decode (self p : SNTP_Packet) (buff : list byte) :
  from_bytes self buff = Ok p ->
  Forall
    (fun ts : Z * Z =>
       exists r,
         decode_ntp_timestamp (fst ts) (snd ts) = Ok r
         /\ is_finite r = true
         /\ Qabs (SF2Q r - (ntp_value ts - (2208988800 # 1))) <= 2 ^ (- 21))
    [reference_timestamp p; originate_timestamp p;
     receive_timestamp p; transmit_timestamp p].
Proof.
  intros H.
  destruct (from_bytes_in_wire_ranges self p buff H) as [Hw _].
  unfold wire_ranges in Hw. rewrite !andb_true_iff in Hw.
  destruct Hw as [[[[_ Href] Horig] Hrecv] Htx].
  repeat constructor.
  all: match goal with
       | |- exists r, decode_ntp_timestamp (fst ?ts) (snd ?ts) = _ /\ _ =>
           rewrite (surjective_pairing ts) in *;
           apply decode_ntp_timestamp_bound; assumption
       end.
Qed.

Lemma from_bytes_timestamps_decode_witness :
  Forall
    (fun ts : Z * Z =>
       exists r,
         decode_ntp_timestamp (fst ts) (snd ts) = Ok r
         /\ is_finite r = true
         /\ Qabs (SF2Q r - (ntp_value ts - (2208988800 # 1))) <= 2 ^ (- 21))
    [ts_0_0; ts_0_0; ts_0_0; ts_0_0].
Proof.
  apply (from_bytes_timestamps_decode sample_reply init zero_buffer).
  reflexivity.
Defined.

End EndToEnd.
